(** * TamaTac sprite tools: RGB565 codec, spritesheet framing, header parsing

  A shallow embedding of [Tools/sprite_tools]:
  - [sprite2c.py]              PNG -> RGB565 C arrays: the conversion, the
                               header of one image, the batch mode,
                               [SpriteData.h], the animation table and the
                               colour-key option;
  - [spritedata2png.py]        [SpriteData.h] -> PNG: array extraction, frame
                               grouping, frame images and spritesheets;
  - [generate_placeholders.py] the guarded encoder [rgb565] and the array
                               writer.

  Python integers are unbounded, so they are [Z]; [>>], [<<], [|], [&] are
  [Z.shiftr], [Z.shiftl], [Z.lor], [Z.land] and [//] is [Z.div] (both floor).
  Text is a [string] of code points below 256.  A call that can leave through
  [sys.exit] or an exception returns a [result].  Library calls whose result
  the tools only pass on are parameters: PIL's [resize], Python's [int] on a
  string, [os.path.splitext] and [os.path.join]. *)

From Stdlib Require Import ZArith Lia Bool Ascii String.
From Stdlib Require DecimalString HexadecimalString.
From Stdlib Require DecimalPos DecimalN HexadecimalPos HexadecimalN.
From stdpp Require Import base option list strings gmap.

Local Open Scope Z_scope.

(** ** Outcome of a Python call *)

Module Py.

(** The ways a call of the modelled functions ends other than by [return]. *)
Inductive exn : Type :=
| SystemExit (code : Z)     (* sys.exit(code) *)
| IndexError                (* PIL: image index out of range *)
| ZeroDivisionError         (* x // 0 *)
| ValueError.               (* range() arg 3 must not be zero *)

Inductive result (A : Type) : Type :=
| Return (a : A)
| Raise (e : exn).
Arguments Return {A} a.
Arguments Raise {A} e.

Definition bind {A B} (m : result A) (k : A -> result B) : result B :=
  match m with
  | Return a => k a
  | Raise e => Raise e
  end.

(** [for x in xs: acc = body(acc, x)], stopping at the first exception. *)
Fixpoint for_each {A S} (xs : list A) (body : S -> A -> result S) (acc : S)
  : result S :=
  match xs with
  | [] => Return acc
  | x :: xs' => bind (body acc x) (for_each xs' body)
  end.

(** [[f(x) for x in xs]], stopping at the first exception; the loops that
    only append to a list are stated through it. *)
Fixpoint traverse {A B} (f : A -> result B) (xs : list A) : result (list B) :=
  match xs with
  | [] => Return []
  | x :: xs' => bind (f x) (fun v => bind (traverse f xs') (fun vs => Return (v :: vs)))
  end.

(** [range(n)]: empty when [n <= 0]. *)
Definition range (n : Z) : list Z :=
  fmap Z.of_nat (seq 0 (Z.to_nat n)).

(** [range(0, stop, step)]. *)
Definition range_step (stop step : Z) : result (list Z) :=
  if step =? 0 then Raise ValueError
  else if 0 <? step
       then Return (fmap (fun k => k * step) (range ((stop + step - 1) / step)))
       else Return (fmap (fun k => k * step) (range ((stop + step + 1) / step))).

(** [a // b]. *)
Definition floordiv (a b : Z) : result Z :=
  if b =? 0 then Raise ZeroDivisionError else Return (a / b).

(** [str(n)] for an integer. *)
Definition str (n : Z) : string :=
  DecimalString.NilZero.string_of_int (Z.to_int n).

Definition upper (c : ascii) : ascii :=
  let n := nat_of_ascii c in
  if (97 <=? n)%nat && (n <=? 122)%nat then ascii_of_nat (n - 32) else c.

Fixpoint map_string (f : ascii -> ascii) (s : string) : string :=
  match s with
  | EmptyString => EmptyString
  | String c s' => String (f c) (map_string f s')
  end.

Fixpoint zeros (n : nat) : string :=
  match n with
  | O => EmptyString
  | S n' => String "0" (zeros n')
  end.

(** [format(v, "04X")]: upper-case hexadecimal, zero-filled to four
    characters, the sign counting as one of them. *)
Definition format_04X (v : Z) : string :=
  let digits :=
    map_string upper
      (HexadecimalString.NilZero.string_of_uint (N.to_hex_uint (Z.abs_N v))) in
  if v <? 0
  then "-" +:+ zeros (3 - String.length digits) +:+ digits
  else zeros (4 - String.length digits) +:+ digits.

(** [sep.join(parts)]. *)
Definition join (sep : string) (parts : list string) : string :=
  String.concat sep parts.

End Py.

Notation "'let*' x ':=' m 'in' k" := (Py.bind m (fun x => k))
(at level 10, x name, m at level 100, k at level 200).

(** ** ColorCodec *)

Module Codec.

(** [TRANSPARENT_RGB565 = 0xF81F] (sprite2c.py, spritedata2png.py) and
    [T = 0xF81F] (generate_placeholders.py). *)
Definition TRANSPARENT_RGB565 : Z := 0xF81F.

(** sprite2c.py: [rgb_to_rgb565(r, g, b)]. *)
Definition rgb_to_rgb565 (r g b : Z) : Z :=
  Z.lor (Z.lor (Z.shiftl (Z.shiftr r 3) 11) (Z.shiftl (Z.shiftr g 2) 5))
        (Z.shiftr b 3).

(** generate_placeholders.py: [rgb565(r, g, b)], the quantisation followed
    by the replacement of the sentinel. *)
Definition rgb565 (r g b : Z) : Z :=
  let val := Z.lor (Z.lor (Z.shiftl (Z.shiftr r 3) 11)
                          (Z.shiftl (Z.shiftr g 2) 5))
                   (Z.shiftr b 3) in
  if val =? TRANSPARENT_RGB565 then 0xF81E else val.

(** spritedata2png.py: [rgb565_to_rgb(val)]. *)
Definition rgb565_to_rgb (val : Z) : Z * Z * Z :=
  let r := Z.shiftl (Z.land (Z.shiftr val 11) 0x1F) 3 in
  let g := Z.shiftl (Z.land (Z.shiftr val 5) 0x3F) 2 in
  let b := Z.shiftl (Z.land val 0x1F) 3 in
  let r := Z.lor r (Z.shiftr r 5) in
  let g := Z.lor g (Z.shiftr g 6) in
  let b := Z.lor b (Z.shiftr b 5) in
  (r, g, b).

(** A call of [rgb_to_rgb565]: the body is one [return] of an expression of
    shifts and ors, which raise nothing on integers. *)
Definition call_rgb_to_rgb565 (r g b : Z) : Py.result Z :=
  Py.Return (rgb_to_rgb565 r g b).

Definition component (c : Z) : Prop := 0 <= c <= 255.

End Codec.

Import Codec.

(** ** sprite2c.py *)

Module Sprite2c.
Import Py.

(** [SPRITE_NAMES]: the SpriteId enumeration order. *)
Definition SPRITE_NAMES : list string :=
  ["egg_idle"; "baby_idle"; "teen_idle"; "adult_idle"; "elder_idle";
   "ghost"; "sick"; "happy"; "sad"; "eating"; "playing"; "sleeping"]%string.

(** [DEFAULT_ANIM_CONFIG]: name -> (frameDelayMs, loop). *)
Definition DEFAULT_ANIM_CONFIG : gmap string (Z * bool) :=
  list_to_map
    [("egg_idle", (800, true)); ("baby_idle", (600, true));
     ("teen_idle", (500, true)); ("adult_idle", (400, true));
     ("elder_idle", (700, true)); ("ghost", (500, true));
     ("sick", (1000, true)); ("happy", (400, true));
     ("sad", (800, true)); ("eating", (300, false));
     ("playing", (300, false)); ("sleeping", (1000, true))]%string.

(** A pixel of an RGBA image: (r, g, b, a). *)
Definition rgba : Type := Z * Z * Z * Z.

(** A PIL image after [convert("RGBA")]: its [size] and its pixels. *)
Record image : Type := Image {
  size : Z * Z;
  pixel : Z -> Z -> rgba
}.

(** PIL's [getpixel((x, y))]: a negative coordinate counts from the far
    edge; outside the image it raises IndexError. *)
Definition getpixel (img : image) (xy : Z * Z) : result rgba :=
  let '(w, h) := size img in
  let '(x, y) := xy in
  let x := if x <? 0 then w + x else x in
  let y := if y <? 0 then h + y else y in
  if (x <? 0) || (w <=? x) || (y <? 0) || (h <=? y)
  then Raise IndexError
  else Return (pixel img x y).

Definition rgb_eqb (p q : Z * Z * Z) : bool :=
  let '(r, g, b) := p in
  let '(r', g', b') := q in
  (r =? r') && (g =? g') && (b =? b').

(** The body of the innermost loop of [convert_sprite] (lines 122-133):
    the value appended to [frame] for the pixel [px]. *)
Definition convert_pixel (transparent_color : option (Z * Z * Z)) (px : rgba)
  : Z :=
  let '(r, g, b, a) := px in
  if match transparent_color with
     | Some key => rgb_eqb (r, g, b) key
     | None => false
     end
  then TRANSPARENT_RGB565
  else if a <? 128 then TRANSPARENT_RGB565
  else
    let val := rgb_to_rgb565 r g b in
    let val := if val =? TRANSPARENT_RGB565 then 0xF81E else val in
    val.

(** The two inner loops of [convert_sprite] (lines 118-133): one frame. *)
Definition convert_frame (img : image) (frame_width frame_height : Z)
    (transparent_color : option (Z * Z * Z)) (row col : Z) : result (list Z) :=
  for_each (range frame_height) (fun frame y =>
    for_each (range frame_width) (fun frame x =>
      let* px := getpixel img (col * frame_width + x, row * frame_height + y) in
      Return (frame ++ [convert_pixel transparent_color px])) frame) [].

(** [convert_sprite(image, frame_width, frame_height, transparent_color, cols)];
    [cols = None] is the omitted argument. *)
Definition convert_sprite (img : image) (frame_width frame_height : Z)
    (transparent_color : option (Z * Z * Z)) (cols : option Z)
  : result (list (list Z)) :=
  let '(img_width, img_height) := size img in
  let* max_cols := floordiv img_width frame_width in
  let cols := match cols with Some c => c | None => max_cols end in
  let* rows := floordiv img_height frame_height in
  if (cols =? 0) || (rows =? 0) then Raise (SystemExit 1)
  else
    for_each (range rows) (fun frames row =>
      for_each (range cols) (fun frames col =>
        let* frame :=
          convert_frame img frame_width frame_height transparent_color row col in
        Return (frames ++ [frame])) frames) [].

(** [format_array(name, frame_idx, data, width)]. *)
Definition format_array (name : string) (frame_idx : Z) (data : list Z)
    (width : Z) : result string :=
  let lines :=
    ["constexpr uint16_t sprite_" +:+ name +:+ "_frame" +:+ str frame_idx
      +:+ "[" +:+ str (Z.of_nat (length data)) +:+ "] = {"] in
  let* starts := range_step (Z.of_nat (length data)) width in
  let lines :=
    foldl (fun lines row_start =>
             let row := take (Z.to_nat width) (drop (Z.to_nat row_start) data) in
             let hex_vals :=
               join ", " (fmap (fun v => "0x" +:+ format_04X v) row) in
             lines ++ ["    " +:+ hex_vals +:+ ","])
          lines starts in
  let lines := lines ++ ["};"] in
  Return (join (String (ascii_of_nat 10) "") lines).

(** [for i, frame in enumerate(frames): body(i, frame)] *)
Definition enumerate {A} (l : list A) : list (Z * A) :=
  imap (fun i a => (Z.of_nat i, a)) l.

(** State of the first loop of [generate_spritedata]:
    [lines], [sprite_frame_counts], [total_frames]. *)
Definition gen_state : Type := list string * gmap string Z * Z.

(** One iteration of the loop "Process each sprite" (lines 224-241).
    [png name] is the image [Image.open] yields for the file [name] of the
    sprite directory, [None] when [os.path.isfile] is false. *)
Definition process_sprite (png : string -> option image)
    (frame_width frame_height : Z) (transparent_color : option (Z * Z * Z))
    (st : gen_state) (sprite_name : string) : result gen_state :=
  let '(lines, sprite_frame_counts, total_frames) := st in
  match png (sprite_name +:+ ".png") with
  | None => Return (lines, <[sprite_name := 0]> sprite_frame_counts, total_frames)
  | Some img =>
      let* frames :=
        convert_sprite img frame_width frame_height transparent_color None in
      let count := Z.of_nat (length frames) in
      let* lines :=
        for_each (enumerate frames) (fun lines '(i, frame) =>
          let* text := format_array sprite_name i frame frame_width in
          Return (lines ++ [text; ""%string])) lines in
      Return (lines, <[sprite_name := count]> sprite_frame_counts,
              total_frames + count)
  end.

(** The loop "Write AnimFrame arrays" (lines 244-251). *)
Definition anim_frame_lines (sprite_frame_counts : gmap string Z)
    (lines : list string) : list string :=
  foldl (fun lines sprite_name =>
           let count := default 0 (sprite_frame_counts !! sprite_name) in
           if count =? 0 then lines
           else
             let frame_refs :=
               join ", " (fmap (fun i => "{sprite_" +:+ sprite_name +:+ "_frame"
                                         +:+ str i +:+ "}") (range count)) in
             lines ++ ["constexpr AnimFrame frames_" +:+ sprite_name
                       +:+ "[] = { " +:+ frame_refs +:+ " };"])
        lines SPRITE_NAMES.

(** The row of the [animatedSprites] table for one name (lines 258-265). *)
Definition table_row (sprite_frame_counts : gmap string Z)
    (anim_config : gmap string (Z * bool)) (sprite_name : string) : string :=
  let count := default 0 (sprite_frame_counts !! sprite_name) in
  if count =? 0
  then "    {nullptr, 0, 0, false},  // " +:+ sprite_name +:+ " MISSING"
  else
    let '(delay, loop) := default (500, true) (anim_config !! sprite_name) in
    let loop_str := if loop then "true" else "false" in
    "    {frames_" +:+ sprite_name +:+ ", " +:+ str count +:+ ", "
      +:+ str delay +:+ ", " +:+ loop_str +:+ "},".

(** The loop "Write animatedSprites table" (lines 257-265). *)
Definition table_lines (sprite_frame_counts : gmap string Z)
    (anim_config : gmap string (Z * bool)) (lines : list string) : list string :=
  foldl (fun lines sprite_name =>
           lines ++ [table_row sprite_frame_counts anim_config sprite_name])
        lines SPRITE_NAMES.

Definition preamble (frame_width frame_height : Z) : list string :=
  ["/**";
   " * @file SpriteData.h";
   " * @brief " +:+ str frame_width +:+ "x" +:+ str frame_height
     +:+ " RGB565 sprite data for TamaTac";
   " *";
   " * Auto-generated by sprite2c.py --spritedata";
   " * Re-generate with: python sprite2c.py <sprites_dir> --spritedata -o SpriteData.h";
   " */";
   "#pragma once";
   "";
   "#include " +:+ String (ascii_of_nat 34) "Sprites.h"
     +:+ String (ascii_of_nat 34) "";
   ""]%string.

(** The lines of [generate_spritedata] before the final join.
    [anim_config] is the dictionary [load_anim_config(sprite_dir)] returns. *)
Definition spritedata_lines (png : string -> option image)
    (anim_config : gmap string (Z * bool))
    (frame_width frame_height : Z) (transparent_color : option (Z * Z * Z))
  : result (list string) :=
  let lines := preamble frame_width frame_height in
  let* st :=
    for_each SPRITE_NAMES
      (process_sprite png frame_width frame_height transparent_color)
      (lines, ∅, 0) in
  let '(lines, sprite_frame_counts, total_frames) := st in
  let lines := anim_frame_lines sprite_frame_counts lines in
  let lines := lines ++ [""%string] in
  let lines :=
    lines ++ ["const AnimatedSprite animatedSprites[PET_SPRITE_COUNT] = {"%string] in
  let lines := table_lines sprite_frame_counts anim_config lines in
  let lines := lines ++ ["};"%string] in
  let lines := lines ++ [""%string] in
  Return lines.

(** [generate_spritedata(sprite_dir, frame_width, frame_height,
    transparent_color)]; [main] writes the output file only from the
    returned text. *)
Definition generate_spritedata (png : string -> option image)
    (anim_config : gmap string (Z * bool))
    (frame_width frame_height : Z) (transparent_color : option (Z * Z * Z))
  : result string :=
  let* lines :=
    spritedata_lines png anim_config frame_width frame_height
      transparent_color in
  Return (join (String (ascii_of_nat 10) "") lines).

End Sprite2c.

Import Sprite2c.

(** ** The fragment of Python's [re] the tools use *)

Module Re.

Definition code (c : ascii) : N := N_of_ascii c.

Definition between (lo hi : N) (c : ascii) : bool :=
  (lo <=? code c)%N && (code c <=? hi)%N.

(** [\s] on code points below 256: the characters with [str.isspace()]. *)
Definition space (c : ascii) : bool :=
  between 9 13 c || between 28 32 c || between 133 133 c || between 160 160 c.

(** [\d]: the decimal digits (category Nd) below 256. *)
Definition digit (c : ascii) : bool := between 48 57 c.

(** [\w] on code points below 256: alphanumerics and the underscore. *)
Definition word (c : ascii) : bool :=
  between 48 57 c || between 65 90 c || between 95 95 c || between 97 122 c
  || between 170 170 c || between 178 179 c || between 181 181 c
  || between 185 186 c || between 188 190 c || between 192 214 c
  || between 216 246 c || between 248 255 c.

(** [.] without DOTALL: anything but a newline. *)
Definition dot (c : ascii) : bool := negb (code c =? 10)%N.

(** [[^}]]. *)
Definition not_rbrace (c : ascii) : bool := negb (code c =? 125)%N.

(** [[0-9A-Fa-f]]. *)
Definition hex (c : ascii) : bool :=
  between 48 57 c || between 65 70 c || between 97 102 c.

(** The pieces a pattern is a sequence of: [^], [$], a literal, a greedy
    repetition of a character class ([min] 0 for [*], 1 for [+]), and a
    parenthesis of a capturing group, which marks the current position. *)
Inductive item : Type :=
| Bos
| Eos
| Lit (s : string)
| Rep (p : ascii -> bool) (min : nat)
| Mark.

Fixpoint strip_prefix (l s : list ascii) : option (list ascii) :=
  match l with
  | [] => Some s
  | c :: l' =>
      match s with
      | [] => None
      | d :: s' => if Ascii.eqb c d then strip_prefix l' s' else None
      end
  end.

(** Greedy repetition with backtracking: take one more character of the
    class if the rest of the pattern then matches, otherwise stop here,
    provided [min] characters were taken.  [n] counts the characters taken,
    [pos] the offset from the start of the match. *)
Fixpoint rep {R} (p : ascii -> bool) (min : nat)
    (k : list ascii -> nat -> option R) (s : list ascii) (n pos : nat)
  : option R :=
  match
    match s with
    | c :: s' => if p c then rep p min k s' (S n) (S pos) else None
    | [] => None
    end
  with
  | Some r => Some r
  | None => if (min <=? n)%nat then k s pos else None
  end.

(** Match [items] at the head of [s]: the length of the match and the
    marked positions, in pattern order. *)
Fixpoint exec (items : list item) (s : list ascii) (pos : nat)
    (marks : list nat) : option (nat * list nat) :=
  match items with
  | [] => Some (pos, marks)
  | Bos :: rest => if (pos =? 0)%nat then exec rest s pos marks else None
  | Eos :: rest =>
      match s with
      | [] => exec rest s pos marks
      | [c] => if (code c =? 10)%N then exec rest s pos marks else None
      | _ => None
      end
  | Lit l :: rest =>
      match strip_prefix (list_ascii_of_string l) s with
      | Some s' => exec rest s' (pos + String.length l) marks
      | None => None
      end
  | Rep p min :: rest =>
      rep p min (fun s' pos' => exec rest s' pos' marks) s 0 pos
  | Mark :: rest => exec rest s pos (marks ++ [pos])
  end.

(** The groups of a match at the head of [s]: group i lies between the
    marks 2i-2 and 2i-1. *)
Fixpoint groups (s : list ascii) (marks : list nat) : list string :=
  match marks with
  | b :: e :: marks' =>
      string_of_list_ascii (take (e - b) (drop b s)) :: groups s marks'
  | _ => []
  end.

(** [pattern.match(s)]: the groups of the match at the start of [s]. *)
Definition match_ (pattern : list item) (s : string) : option (list string) :=
  match exec pattern (list_ascii_of_string s) 0 [] with
  | Some (_, marks) => Some (groups (list_ascii_of_string s) marks)
  | None => None
  end.

(** [pattern.finditer(s)]: the matches from left to right, the search
    resuming where the previous match ended ([skip] characters of it are
    still to be passed; after an empty match the search moves on by one). *)
Fixpoint finditer_from (pattern : list item) (s : list ascii) (skip : nat)
  : list (list string) :=
  match s with
  | [] =>
      match skip, exec pattern [] 0 [] with
      | O, Some (_, marks) => [groups [] marks]
      | _, _ => []
      end
  | _ :: s' =>
      match skip with
      | S skip' => finditer_from pattern s' skip'
      | O =>
          match exec pattern s 0 [] with
          | Some (len, marks) =>
              groups s marks :: finditer_from pattern s' (len - 1)
          | None => finditer_from pattern s' 0
          end
      end
  end.

Definition finditer (pattern : list item) (s : string) : list (list string) :=
  finditer_from pattern (list_ascii_of_string s) 0.

(** No character of the class [p] starts [s]. *)
Definition stops (p : ascii -> bool) (s : list ascii) : Prop :=
  match s with
  | [] => True
  | c :: _ => p c = false
  end.

Definition digit_value (c : ascii) : Z :=
  if between 48 57 c then Z.of_N (code c) - 48
  else if between 65 70 c then Z.of_N (code c) - 55
  else Z.of_N (code c) - 87.

(** [int(s, base)] on a string of digits of that base. *)
Definition int_of (base : Z) (s : string) : Z :=
  foldl (fun acc c => acc * base + digit_value c) 0 (list_ascii_of_string s).

End Re.

(** ** spritedata2png.py *)

Module Spritedata2png.
Import Re.

(** An [OrderedDict] with string keys: the items in insertion order. *)
Abbreviation odict V := (list (string * V)).

(** [d.get(key)] *)
Fixpoint od_get {V} (d : odict V) (key : string) : option V :=
  match d with
  | [] => None
  | (k, v) :: d' => if String.eqb k key then Some v else od_get d' key
  end.

(** [d[key] = v]: an existing key keeps its place, a new one goes last. *)
Fixpoint od_set {V} (d : odict V) (key : string) (v : V) : odict V :=
  match d with
  | [] => [(key, v)]
  | (k, w) :: d' =>
      if String.eqb k key then (k, v) :: d' else (k, w) :: od_set d' key v
  end.

(** [constexpr\s+uint16_t\s+(sprite_\w+)\s*\[\d+\]\s*=\s*\{([^}]+)\}\s*;] *)
Definition pattern : list item :=
  [Lit "constexpr"; Rep space 1; Lit "uint16_t"; Rep space 1;
   Mark; Lit "sprite_"; Rep word 1; Mark;
   Rep space 0; Lit "["; Rep digit 1; Lit "]"; Rep space 0; Lit "=";
   Rep space 0; Lit "{"; Mark; Rep not_rbrace 1; Mark; Lit "}";
   Rep space 0; Lit ";"].

(** [0x([0-9A-Fa-f]+)] *)
Definition hex_pattern : list item :=
  [Lit "0x"; Mark; Rep hex 1; Mark].

(** [^sprite_(.+)_frame(\d+)$] *)
Definition frame_pattern : list item :=
  [Bos; Lit "sprite_"; Mark; Rep dot 1; Mark; Lit "_frame";
   Mark; Rep digit 1; Mark; Eos].

(** [[int(h.group(1), 16) for h in hex_pattern.finditer(data_str)]] *)
Definition hex_values (data_str : string) : list Z :=
  omap (fun g => match g with
                 | [h] => Some (int_of 16 h)
                 | _ => None
                 end)
       (finditer hex_pattern data_str).

(** [parse_sprite_arrays(header_text)]. *)
Definition parse_sprite_arrays (header_text : string) : odict (list Z) :=
  foldl (fun arrays m =>
           match m with
           | [name; data_str] => od_set arrays name (hex_values data_str)
           | _ => arrays
           end)
        [] (finditer pattern header_text).

(** [frame_pattern.match(array_name)] with [sprite_name = match.group(1)]
    and [frame_idx = int(match.group(2))]. *)
Definition match_frame (array_name : string) : option (string * nat) :=
  match match_ frame_pattern array_name with
  | Some [sprite_name; idx] => Some (sprite_name, Z.to_nat (int_of 10 idx))
  | _ => None
  end.

(** One iteration of the first loop of [group_frames] (lines 88-101);
    [None] is Python's [None] in a frame list. *)
Definition place (grouped : odict (list (option (list Z))))
    (item : string * list Z) : odict (list (option (list Z))) :=
  let '(array_name, pixels) := item in
  match match_frame array_name with
  | None => grouped
  | Some (sprite_name, frame_idx) =>
      let grouped :=
        match od_get grouped sprite_name with
        | Some _ => grouped
        | None => od_set grouped sprite_name []
        end in
      let frames := default [] (od_get grouped sprite_name) in
      let frames :=
        frames ++ replicate (S frame_idx - length frames) None in
      od_set grouped sprite_name (<[frame_idx := Some pixels]> frames)
  end.

(** [group_frames(arrays)]; [arrays] is given by its items in order. *)
Definition group_frames (arrays : odict (list Z)) : odict (list (list Z)) :=
  let grouped := foldl place [] arrays in
  (fun entry : string * list (option (list Z)) =>
     let '(name, frames) := entry in (name, omap id frames)) <$> grouped.

End Spritedata2png.

Import Spritedata2png.

(** ** Reference descriptions used in the statements *)

Module Sheet.
Import Py.

(** Transparency resolution of one source pixel, by cases: the colour key
    first, then the alpha threshold, then the guarded encoding. *)
Definition resolve_pixel (key : option (Z * Z * Z)) (px : rgba) : Z :=
  let '(r, g, b, a) := px in
  if decide (key = Some (r, g, b)) then TRANSPARENT_RGB565
  else if a <? 128 then TRANSPARENT_RGB565
  else rgb565 r g b.

(** The cell (row, col) of a sheet read row-major through [f]. *)
Definition cell (img : image) (frame_width frame_height : Z) (f : rgba -> Z)
    (row col : Z) : list Z :=
  concat ((fun y =>
             (fun x => f (pixel img (col * frame_width + x)
                                    (row * frame_height + y)))
             <$> range frame_width)
          <$> range frame_height).

(** All cells of a [rows] x [cols] sheet, row-major. *)
Definition cells (img : image) (frame_width frame_height : Z) (f : rgba -> Z)
    (rows cols : Z) : list (list Z) :=
  concat ((fun row => cell img frame_width frame_height f row <$> range cols)
          <$> range rows).



End Sheet.

Import Sheet.

Module Frames.

(** The sprite names and the frame indices the array names carry. *)
Definition sprite_names (arrays : list (string * list Z)) : list string :=
  omap (fun item : string * list Z => fst <$> match_frame item.1) arrays.

(** One more than the largest frame index seen for sprite [sn]. *)
Definition bound (arrays : list (string * list Z)) (sn : string) : nat :=
  foldl (fun b (item : string * list Z) =>
           match match_frame item.1 with
           | Some (s, N) => if decide (s = sn) then Nat.max b (S N) else b
           | None => b
           end) 0%nat arrays.

(** The frame present at index [N] of sprite [sn]: the pixels of the last
    array whose name carries ([sn], [N]); [None] when there is none. *)
Definition slot (arrays : list (string * list Z)) (sn : string) (N : nat)
  : option (list Z) :=
  foldl (fun acc (item : string * list Z) =>
           if decide (match_frame item.1 = Some (sn, N)) then Some item.2
           else acc) None arrays.

(** The frame list of sprite [sn] before the absent slots are dropped. *)
Definition slots (arrays : list (string * list Z)) (sn : string)
  : list (option (list Z)) :=
  slot arrays sn <$> seq 0 (bound arrays sn).

(** The present frames of sprite [sn] in ascending frame-index order. *)
Definition present (arrays : list (string * list Z)) (sn : string)
  : list (list Z) :=
  omap (slot arrays sn) (seq 0 (bound arrays sn)).

End Frames.

Import Frames.

(** The generated header, as [format_array] lays it out: declarations
  [constexpr uint16_t sprite_<name>[<count>] = {<literals>};] whose brace
  list holds integer literals, hexadecimal ([0x]-prefixed) or decimal,
  separated by commas and white space. *)

Module Header.
Import Re.

Inductive literal : Type :=
| HexLit (digits : string)      (* written 0x<digits> *)
| DecLit (digits : string).     (* written <digits> *)

Definition literal_text (lit : literal) : string :=
  match lit with
  | HexLit ds => "0x" +:+ ds
  | DecLit ds => ds
  end.

Definition literal_ok (lit : literal) : Prop :=
  match lit with
  | HexLit ds => ds <> ""%string /\ forallb hex (list_ascii_of_string ds) = true
  | DecLit ds => ds <> ""%string /\ forallb digit (list_ascii_of_string ds) = true
  end.

(** Comma, blank, tab, newline, carriage return. *)
Definition separator (c : ascii) : bool :=
  (code c =? 44)%N || (code c =? 32)%N || (code c =? 9)%N
  || (code c =? 10)%N || (code c =? 13)%N.

(** A brace list: each literal with the separators that follow it. *)
Fixpoint body_text (toks : list (literal * string)) : string :=
  match toks with
  | [] => ""
  | (lit, sep) :: rest => literal_text lit +:+ sep +:+ body_text rest
  end.

(** Literals are well formed and separated from their successors. *)
Fixpoint body_ok (toks : list (literal * string)) : Prop :=
  match toks with
  | [] => True
  | (lit, sep) :: rest =>
      literal_ok lit /\
      forallb separator (list_ascii_of_string sep) = true /\
      (sep = ""%string -> rest = []) /\
      body_ok rest
  end.

(** The values of the hexadecimal literals of a brace list, in order. *)
Definition hex_literal_values (toks : list (literal * string)) : list Z :=
  omap (fun tok : literal * string =>
          match tok.1 with
          | HexLit ds => Some (int_of 16 ds)
          | DecLit _ => None
          end) toks.


Record declaration : Type := Declaration {
  d_name : string;                       (* the name after [sprite_] *)
  d_count : string;                      (* the digits between the brackets *)
  d_lead : string;                       (* separators after the brace *)
  d_body : list (literal * string)
}.

Definition declaration_name (d : declaration) : string :=
  "sprite_" +:+ d_name d.

Definition declaration_text (d : declaration) : string :=
  "constexpr uint16_t " +:+ declaration_name d +:+ "[" +:+ d_count d
    +:+ "] = {" +:+ d_lead d +:+ body_text (d_body d) +:+ "};".

(** What stands between the braces. *)
Definition brace_list (d : declaration) : string :=
  d_lead d +:+ body_text (d_body d).

Definition declaration_ok (d : declaration) : Prop :=
  d_name d <> ""%string /\
  forallb word (list_ascii_of_string (d_name d)) = true /\
  d_count d <> ""%string /\
  forallb digit (list_ascii_of_string (d_count d)) = true /\
  forallb separator (list_ascii_of_string (d_lead d)) = true /\
  body_ok (d_body d) /\
  d_lead d +:+ body_text (d_body d) <> ""%string.

(** [s] does not start with the letter x. *)
Definition not_x (s : list ascii) : Prop :=
  match s with
  | c :: _ => c <> "x"%char
  | [] => True
  end.

Definition newline : string := String (ascii_of_nat 10) "".

(** A header: the declarations, one per line block. *)
Fixpoint header_text (ds : list declaration) : string :=
  match ds with
  | [] => ""
  | d :: ds' => declaration_text d +:+ newline +:+ header_text ds'
  end.

End Header.

Import Header.

(** ** spritedata2png.py: building the PNG images *)

Module Raster.
Import Py.

(** What a loop body asks for: the next iteration, or [break]. *)
Inductive flow (S : Type) : Type :=
| Next (s : S)
| Break (s : S).
Arguments Next {S} s.
Arguments Break {S} s.

(** [for x in xs: ...] with a body that may [break]. *)
Fixpoint for_break {A S} (xs : list A) (body : S -> A -> result (flow S))
    (acc : S) : result S :=
  match xs with
  | [] => Return acc
  | x :: xs' =>
      match body acc x with
      | Return (Next a) => for_break xs' body a
      | Return (Break a) => Return a
      | Raise e => Raise e
      end
  end.

(** [l[i]] for a list: a negative index counts from the end. *)
Definition index {A} (l : list A) (i : Z) : result A :=
  let j := if i <? 0 then Z.of_nat (length l) + i else i in
  if j <? 0 then Raise IndexError
  else match l !! Z.to_nat j with
       | Some a => Return a
       | None => Raise IndexError
       end.

(** PIL's [Image.new("RGBA", (w, h))]: every pixel (0, 0, 0, 0). *)
Definition new_rgba (wh : Z * Z) : result image :=
  let '(w, h) := wh in
  if (w <? 0) || (h <? 0) then Raise ValueError
  else Return (Image (w, h) (fun _ _ => (0, 0, 0, 0))).

(** PIL's [putpixel((x, y), value)], with the coordinates read as
    [getpixel] reads them. *)
Definition putpixel (img : image) (xy : Z * Z) (value : rgba) : result image :=
  let '(w, h) := size img in
  let '(x, y) := xy in
  let x := if x <? 0 then w + x else x in
  let y := if y <? 0 then h + y else y in
  if (x <? 0) || (w <=? x) || (y <? 0) || (h <=? y)
  then Raise IndexError
  else Return (Image (w, h)
                 (fun x' y' => if (x' =? x) && (y' =? y) then value
                               else pixel img x' y')).

(** PIL's [paste(im, (x0, y0))] without a mask: [im] is copied to the
    region starting at (x0, y0), clipped to the image. *)
Definition paste (img im : image) (box : Z * Z) : image :=
  let '(x0, y0) := box in
  let '(w, h) := size im in
  Image (size img)
    (fun x y => if (x0 <=? x) && (x <? x0 + w) && (y0 <=? y) && (y <? y0 + h)
                then pixel im (x - x0) (y - y0)
                else pixel img x y).

Section Resize.

(** PIL's [resize(size, Image.NEAREST)], left open. *)
Variable resize : image -> Z * Z -> result image.

(** [create_frame_png(pixels, width, height, scale)]. *)
Definition create_frame_png (pixels : list Z) (width height scale : Z)
  : result image :=
  let* img := new_rgba (width, height) in
  let* img :=
    for_each (range height) (fun img y =>
      for_break (range width) (fun img x =>
        let idx := y * width + x in
        if Z.of_nat (length pixels) <=? idx then Return (Break img)
        else
          let* val := index pixels idx in
          if val =? TRANSPARENT_RGB565
          then let* img := putpixel img (x, y) (0, 0, 0, 0) in Return (Next img)
          else
            let '(r, g, b) := rgb565_to_rgb val in
            let* img := putpixel img (x, y) (r, g, b, 255) in Return (Next img))
        img) img in
  if 1 <? scale then resize img (width * scale, height * scale)
  else Return img.

(** [create_spritesheet(frame_list, width, height, scale)]. *)
Definition create_spritesheet (frame_list : list (list Z))
    (width height scale : Z) : result image :=
  let num_frames := Z.of_nat (length frame_list) in
  let sheet_width := width * num_frames in
  let* sheet := new_rgba (sheet_width, height) in
  let* sheet :=
    for_each (enumerate frame_list) (fun sheet '(i, pixels) =>
      let* frame_img := create_frame_png pixels width height 1 in
      Return (paste sheet frame_img (i * width, 0))) sheet in
  if 1 <? scale then resize sheet (sheet_width * scale, height * scale)
  else Return sheet.

(** The body of the spritesheet export loop of [main] (lines 196-211): the
    image saved for one sprite, [None] when the sprite is skipped. *)
Definition export_sprite (frame_list : list (list Z)) (width height scale : Z)
  : result (option image) :=
  let expected_pixels := width * height in
  let valid_frames :=
    filter (fun f => Z.of_nat (length f) = expected_pixels) frame_list in
  match valid_frames with
  | [] => Return None
  | [frame] =>
      let* img := create_frame_png frame width height scale in Return (Some img)
  | _ =>
      let* img := create_spritesheet valid_frames width height scale in
      Return (Some img)
  end.

End Resize.

(** The raster pixel a packed value is drawn as. *)
Definition paint (val : Z) : rgba :=
  if val =? TRANSPARENT_RGB565 then (0, 0, 0, 0)
  else let '(r, g, b) := rgb565_to_rgb val in (r, g, b, 255).

End Raster.

Import Raster.

(** ** sprite2c.py: one header per image *)

Module SingleFile.
Import Py.

(** [generate_header(name, frames, width, height)]. *)
Definition generate_header (name : string) (frames : list (list Z))
    (width height : Z) : result string :=
  let lines :=
    ["// Auto-generated by sprite2c.py - " +:+ name;
     "// " +:+ str (Z.of_nat (length frames)) +:+ " frame(s), "
       +:+ str width +:+ "x" +:+ str height +:+ " RGB565";
     "// Transparent color key: 0x" +:+ format_04X TRANSPARENT_RGB565
       +:+ " (magenta)";
     "";
     "#pragma once";
     "#include <cstdint>";
     ""]%string in
  let* lines :=
    for_each (enumerate frames) (fun lines '(i, frame) =>
      let* text := format_array name i frame width in
      Return (lines ++ [text; ""%string])) lines in
  Return (join (String (ascii_of_nat 10) "") lines).

(** [process_file(filepath, name, frame_width, frame_height,
    transparent_color, cols)], for the image the file holds. *)
Definition process_file (img : image) (name : string)
    (frame_width frame_height : Z) (transparent_color : option (Z * Z * Z))
    (cols : option Z) : result string :=
  let* frames :=
    convert_sprite img frame_width frame_height transparent_color cols in
  generate_header name frames frame_width frame_height.

(** The loop of the batch mode of [main] (lines 339-347) over the sorted
    file names: the files written so far, as (path, content), and how the
    loop ended.  A file that is written stays written when a later
    iteration leaves the loop. *)
Section Batch.

(** [os.path.splitext(png_file)[0]] and [os.path.join(args.input, _)]. *)
Variable stem : string -> string.
Variable in_dir : string -> string.
(** The image [Image.open] reads from a path. *)
Variable open : string -> image.

Fixpoint batch (png_files : list string) (frame_width frame_height : Z)
    (transparent_color : option (Z * Z * Z)) (cols : option Z)
    (written : list (string * string))
  : list (string * string) * result unit :=
  match png_files with
  | [] => (written, Return tt)
  | png_file :: rest =>
      let filepath := in_dir png_file in
      let name := stem png_file in
      match process_file (open filepath) name frame_width frame_height
              transparent_color cols with
      | Raise e => (written, Raise e)
      | Return content =>
          let output_path := in_dir (name +:+ ".h") in
          batch rest frame_width frame_height transparent_color cols
                (written ++ [(output_path, content)])
      end
  end.

End Batch.

End SingleFile.

Import SingleFile.

(** ** generate_placeholders.py: the array writer *)

Module Placeholders.
Import Py.

(** [format_array(name, idx, data)]. *)
Definition format_array (name : string) (idx : Z) (data : list Z)
  : result string :=
  let lines :=
    ["constexpr uint16_t sprite_" +:+ name +:+ "_frame" +:+ str idx
      +:+ "[" +:+ str (Z.of_nat (length data)) +:+ "] = {"] in
  let* starts := range_step (Z.of_nat (length data)) 24 in
  let lines :=
    foldl (fun lines row_start =>
             let row := take 24 (drop (Z.to_nat row_start) data) in
             lines ++ ["    "
                       +:+ join ", " (fmap (fun v => "0x" +:+ format_04X v) row)
                       +:+ ","])
          lines starts in
  let lines := lines ++ ["};"] in
  Return (join (String (ascii_of_nat 10) "") lines).

End Placeholders.

(** ** The text [format_array] writes, as a declaration *)

Module Layout.
Import Py.

(** Lines, each followed by a newline. *)
Fixpoint lines_text (ls : list string) : string :=
  match ls with
  | [] => ""
  | l :: ls' => l +:+ newline +:+ lines_text ls'
  end.

Definition hex_literal (v : Z) : literal := HexLit (format_04X v).

(** The literals of a row; [last_sep] follows the last of them. *)
Fixpoint row_toks (row : list Z) (last_sep : string)
  : list (literal * string) :=
  match row with
  | [] => []
  | v :: row' =>
      match row' with
      | [] => [(hex_literal v, last_sep)]
      | _ => (hex_literal v, ", "%string) :: row_toks row' last_sep
      end
  end.

(** The literals of the rows: a row ends with a comma and a newline, and
    the next one starts with four blanks. *)
Fixpoint rows_toks (rows : list (list Z)) : list (literal * string) :=
  match rows with
  | [] => []
  | row :: rows' =>
      match rows' with
      | [] => row_toks row ("," +:+ newline)
      | _ => row_toks row ("," +:+ newline +:+ "    ") ++ rows_toks rows'
      end
  end.

(** The rows [format_array] cuts [data] into. *)
Definition rows (data : list Z) (width : Z) : list (list Z) :=
  (fun k => take (Z.to_nat width) (drop (Z.to_nat (k * width)) data))
    <$> range ((Z.of_nat (length data) + width - 1) / width).

Definition array_name (name : string) (frame_idx : Z) : string :=
  name +:+ "_frame" +:+ str frame_idx.

Definition array_declaration (name : string) (frame_idx : Z) (data : list Z)
    (width : Z) : declaration :=
  Declaration (array_name name frame_idx)
    (str (Z.of_nat (length data)))
    (match data with [] => newline | _ => newline +:+ "    " end)
    (rows_toks (rows data width)).

End Layout.

Import Layout.

(** ** Where a match of the array pattern cannot start *)

Module Scan.

(** [s] differs from [l] at a position both have. *)
Fixpoint differs (l s : list ascii) : bool :=
  match l, s with
  | c :: l', d :: s' => if Ascii.eqb c d then differs l' s' else true
  | _, _ => false
  end.

(** Every non-empty suffix of [s] differs from [l]. *)
Fixpoint clear (l s : list ascii) : bool :=
  match s with
  | [] => true
  | _ :: s' => differs l s && clear l s'
  end.

(** A text in which every declaration is followed by a gap. *)
Fixpoint spaced_text (ds : list (declaration * string)) : string :=
  match ds with
  | [] => ""
  | (d, gap) :: ds' => declaration_text d +:+ gap +:+ spaced_text ds'
  end.

End Scan.

Import Scan.

(** The arrays of the frames of one sprite, named as [format_array] names
    them. *)
Definition frame_arrays (name : string) (frames : list (list Z))
  : list (string * list Z) :=
  imap (fun i frame =>
          ("sprite_" +:+ array_name name (Z.of_nat i), frame)) frames.

(** In a generated header a blank line follows every array but the last,
    which ends the text with its newline. *)
Fixpoint with_gaps (ds : list declaration) : list (declaration * string) :=
  match ds with
  | [] => []
  | d :: ds' =>
      match ds' with
      | [] => [(d, newline)]
      | _ => (d, newline +:+ newline) :: with_gaps ds'
      end
  end.

(** The declarations of the frames of one sprite. *)
Definition frame_declarations (name : string) (frames : list (list Z))
    (width : Z) : list declaration :=
  imap (fun i frame => array_declaration name (Z.of_nat i) frame width) frames.

(** The comment block [generate_header] starts with, up to the blank line
    before the arrays. *)
Definition header_comment (name : string) (count width height : Z)
  : list string :=
  ["// Auto-generated by sprite2c.py - " +:+ name;
   "// " +:+ Py.str count +:+ " frame(s), "
     +:+ Py.str width +:+ "x" +:+ Py.str height +:+ " RGB565";
   "// Transparent color key: 0x" +:+ Py.format_04X TRANSPARENT_RGB565
     +:+ " (magenta)";
   "";
   "#pragma once";
   "#include <cstdint>"]%string.

(** ** sprite2c.py: the animation table and the colour key *)

Module Config.
Import Py Re.

(** [s.lstrip()]: the leading characters with [str.isspace()] removed. *)
Fixpoint lstrip (s : list ascii) : list ascii :=
  match s with
  | c :: s' => if space c then lstrip s' else s
  | [] => []
  end.

Definition rstrip (s : list ascii) : list ascii := rev (lstrip (rev s)).

(** [s.strip()]. *)
Definition strip (s : string) : string :=
  string_of_list_ascii (rstrip (lstrip (list_ascii_of_string s))).

(** [s.split(",")], with [cur] the part read so far, last character
    first. *)
Fixpoint split_from (cur : list ascii) (s : list ascii) : list string :=
  match s with
  | [] => [string_of_list_ascii (rev cur)]
  | c :: s' =>
      if Ascii.eqb c ","
      then string_of_list_ascii (rev cur) :: split_from [] s'
      else split_from (c :: cur) s'
  end.

Definition split (s : string) : list string :=
  split_from [] (list_ascii_of_string s).

(** [c.lower()] on a code point below 256. *)
Definition lower (c : ascii) : ascii :=
  if between 65 90 c || (between 192 222 c && negb (code c =? 215)%N)
  then ascii_of_N (code c + 32)
  else c.

(** [s.startswith("#")]. *)
Definition is_comment (s : string) : bool :=
  match s with
  | String c _ => Ascii.eqb c "#"
  | EmptyString => false
  end.

Section Int.

(** [int(s)] for a string: [None] when it raises [ValueError]. *)
Variable int : string -> option Z.

(** The body of the loop of [load_anim_config] (lines 182-195). *)
Definition config_line (config : gmap string (Z * bool)) (line : string)
  : gmap string (Z * bool) :=
  let line := strip line in
  if String.eqb line "" || is_comment line then config
  else
    let parts := split line in
    match parts with
    | [p0; p1; p2] =>
        let name := strip p0 in
        match int (strip p1) with
        | Some delay =>
            let loop := String.eqb (map_string lower (strip p2)) "true" in
            <[name := (delay, loop)]> config
        | None => config
        end
    | _ => config
    end.

(** [load_anim_config(sprite_dir)]; [file] holds the lines of
    [sprite_config.txt], [None] when there is no such file. *)
Definition load_anim_config (file : option (list string))
  : gmap string (Z * bool) :=
  match file with
  | Some lines => foldl config_line DEFAULT_ANIM_CONFIG lines
  | None => DEFAULT_ANIM_CONFIG
  end.

(** The [--transparent] option of [main] (lines 298-310); [None] when the
    option is not given. *)
Definition parse_transparent (arg : option string)
  : result (option (Z * Z * Z)) :=
  match arg with
  | None => Return None
  | Some s =>
      if String.eqb s "" then Return None
      else
        let parts := split s in
        if negb (length parts =? 3)%nat then Raise (SystemExit 1)
        else
          match traverse (fun p => match int (strip p) with
                                   | Some c => Return c
                                   | None => Raise ValueError
                                   end) parts with
          | Return [r; g; b] =>
              if forallb (fun c => (0 <=? c) && (c <=? 255)) [r; g; b]
              then Return (Some (r, g, b))
              else Raise (SystemExit 1)
          | _ => Raise (SystemExit 1)
          end
  end.

End Int.

(** The number of commas of a line. *)
Definition commas (s : string) : nat :=
  length (filter (fun c => c = ","%char) (list_ascii_of_string s)).

End Config.

Import Config.

(** ** What [generate_spritedata] holds for the extractor *)

Module Generated.
Import Py.

(** The frames of sprite [name]: none when the image is missing. *)
Definition sprite_frames (png : string -> option image)
    (frame_width frame_height : Z) (key : option (Z * Z * Z)) (name : string)
  : list (list Z) :=
  match png (name +:+ ".png") with
  | Some img =>
      match convert_sprite img frame_width frame_height key None with
      | Return frames => frames
      | Raise _ => []
      end
  | None => []
  end.

(** The declarations of all sprites, in the order of [SPRITE_NAMES]. *)
Definition spritedata_declarations (png : string -> option image)
    (frame_width frame_height : Z) (key : option (Z * Z * Z))
  : list declaration :=
  name ← SPRITE_NAMES;
  frame_declarations name
    (sprite_frames png frame_width frame_height key name) frame_width.

(** The arrays of all sprites, in the order of [SPRITE_NAMES]. *)
Definition spritedata_arrays (png : string -> option image)
    (frame_width frame_height : Z) (key : option (Z * Z * Z))
  : list (string * list Z) :=
  name ← SPRITE_NAMES;
  frame_arrays name (sprite_frames png frame_width frame_height key name).

(** The sprites that have frames, each with its frames. *)
Definition spritedata_sprites (png : string -> option image)
    (frame_width frame_height : Z) (key : option (Z * Z * Z))
  : list (string * list (list Z)) :=
  omap (fun name =>
          match sprite_frames png frame_width frame_height key name with
          | [] => None
          | frames => Some (name, frames)
          end) SPRITE_NAMES.

(** The lines that follow the arrays, up to the closing brace of the
    table. *)
Definition table_part (sprite_frame_counts : gmap string Z)
    (anim_config : gmap string (Z * bool)) : list string :=
  anim_frame_lines sprite_frame_counts []
  ++ [""%string;
      "const AnimatedSprite animatedSprites[PET_SPRITE_COUNT] = {"%string]
  ++ (table_row sprite_frame_counts anim_config <$> SPRITE_NAMES)
  ++ ["};"%string].

End Generated.

Import Generated.

(** * Properties *)

Section Bits.

Lemma land_shiftl_low (a b n : Z) :
  0 <= n -> 0 <= b < 2 ^ n -> Z.land (Z.shiftl a n) b = 0.
Proof.
  intros Hn Hb. apply Z.bits_inj'. intros k Hk.
  rewrite Z.land_spec, Z.bits_0.
  destruct (Z.lt_ge_cases k n) as [Hlt | Hge].
  - rewrite Z.shiftl_spec_low by lia. reflexivity.
  - destruct (Z.eq_dec b 0) as [-> | Hb0].
    + rewrite Z.bits_0. apply andb_false_r.
    + rewrite (Z.bits_above_log2 b k), andb_false_r; [reflexivity | lia |].
      apply Z.lt_le_trans with n; [| lia].
      apply Z.log2_lt_pow2; lia.
Qed.

Lemma lor_shiftl_low (a b n : Z) :
  0 <= n -> 0 <= b < 2 ^ n -> Z.lor (Z.shiftl a n) b = a * 2 ^ n + b.
Proof.
  intros Hn Hb.
  rewrite <- Z.lxor_lor, <- Z.add_nocarry_lxor, Z.shiftl_mul_pow2;
    auto using land_shiftl_low.
Qed.

Lemma rgb_to_rgb565_arith (r g b : Z) :
  component g -> component b ->
  rgb_to_rgb565 r g b = r / 8 * 2048 + g / 4 * 32 + b / 8.
Proof.
  unfold component, rgb_to_rgb565. intros Hg Hb.
  rewrite !Z.shiftr_div_pow2 by lia.
  change (2 ^ 3) with 8. change (2 ^ 2) with 4.
  assert (0 <= g / 4 <= 63) by (Z.div_mod_to_equations; lia).
  assert (0 <= b / 8 <= 31) by (Z.div_mod_to_equations; lia).
  rewrite (Z.shiftl_mul_pow2 (r / 8) 11) by lia.
  replace (r / 8 * 2 ^ 11) with ((r / 8 * 64) * 2 ^ 5)
    by (change (2 ^ 11) with 2048; change (2 ^ 5) with 32; lia).
  rewrite <- (Z.shiftl_mul_pow2 (r / 8 * 64) 5) by lia.
  rewrite <- Z.shiftl_lor.
  rewrite (lor_shiftl_low _ (b / 8) 5) by (change (2 ^ 5) with 32; lia).
  replace (r / 8 * 64) with (Z.shiftl (r / 8) 6)
    by (rewrite Z.shiftl_mul_pow2 by lia; reflexivity).
  rewrite (lor_shiftl_low _ (g / 4) 6) by (change (2 ^ 6) with 64; lia).
  change (2 ^ 5) with 32. change (2 ^ 6) with 64. lia.
Qed.

Lemma replicate_low (x k m : Z) :
  0 <= k -> 0 <= m -> 0 <= x < 2 ^ m ->
  let v := Z.shiftl x k in
  Z.lor v (Z.shiftr v m) = x * 2 ^ k + x * 2 ^ k / 2 ^ m.
Proof.
  intros Hk Hm Hx v. unfold v.
  rewrite (Z.shiftr_div_pow2 _ m) by lia.
  rewrite lor_shiftl_low; [rewrite Z.shiftl_mul_pow2 by lia; reflexivity | lia |].
  rewrite Z.shiftl_mul_pow2 by lia.
  assert (0 < 2 ^ m) by (apply Z.pow_pos_nonneg; lia).
  assert (0 < 2 ^ k) by (apply Z.pow_pos_nonneg; lia).
  split.
  - apply Z.div_pos; nia.
  - apply Z.div_lt_upper_bound; [lia | nia].
Qed.

Lemma rgb565_to_rgb_fields (r5 g6 b5 : Z) :
  0 <= r5 <= 31 -> 0 <= g6 <= 63 -> 0 <= b5 <= 31 ->
  rgb565_to_rgb (r5 * 2048 + g6 * 32 + b5)
  = (r5 * 8 + r5 / 4, g6 * 4 + g6 / 16, b5 * 8 + b5 / 4).
Proof.
  intros Hr Hg Hb. unfold rgb565_to_rgb. cbv zeta.
  set (v := r5 * 2048 + g6 * 32 + b5).
  assert (Fr : Z.land (Z.shiftr v 11) 0x1F = r5).
  { change 0x1F with (Z.ones 5).
    rewrite Z.land_ones, Z.shiftr_div_pow2 by lia.
    change (2 ^ 11) with 2048. change (2 ^ 5) with 32.
    unfold v. Z.div_mod_to_equations. lia. }
  assert (Fg : Z.land (Z.shiftr v 5) 0x3F = g6).
  { change 0x3F with (Z.ones 6).
    rewrite Z.land_ones, Z.shiftr_div_pow2 by lia.
    change (2 ^ 6) with 64. change (2 ^ 5) with 32.
    unfold v. Z.div_mod_to_equations. lia. }
  assert (Fb : Z.land v 0x1F = b5).
  { change 0x1F with (Z.ones 5).
    rewrite Z.land_ones by lia. change (2 ^ 5) with 32.
    unfold v. Z.div_mod_to_equations. lia. }
  rewrite Fr, Fg, Fb.
  assert (P5 : 2 ^ 5 = 32) by reflexivity.
  assert (P6 : 2 ^ 6 = 64) by reflexivity.
  rewrite (replicate_low r5 3 5), (replicate_low g6 2 6), (replicate_low b5 3 5)
    by lia.
  change (2 ^ 3) with 8. change (2 ^ 2) with 4.
  change (2 ^ 5) with 32. change (2 ^ 6) with 64.
  f_equal; [f_equal |]; Z.div_mod_to_equations; lia.
Qed.

Lemma rgb565_unfold (r g b : Z) :
  rgb565 r g b =
  if rgb_to_rgb565 r g b =? TRANSPARENT_RGB565 then 0xF81E
  else rgb_to_rgb565 r g b.
Proof. reflexivity. Qed.

End Bits.

Section CodecClaims.

Lemma convert_pixel_cases (key : option (Z * Z * Z)) (r g b a : Z) :
  convert_pixel key (r, g, b, a) =
  if decide (key = Some (r, g, b)) then TRANSPARENT_RGB565
  else if a <? 128 then TRANSPARENT_RGB565
  else rgb565 r g b.
Proof.
  unfold convert_pixel. destruct key as [[[kr kg] kb] |]; simpl.
  - destruct (decide (Some (kr, kg, kb) = Some (r, g, b))) as [E | N].
    + injection E as -> -> ->. rewrite !Z.eqb_refl. reflexivity.
    + destruct (r =? kr) eqn:Er; simpl; [| reflexivity].
      destruct (g =? kg) eqn:Eg; simpl; [| reflexivity].
      destruct (b =? kb) eqn:Eb; simpl; [| reflexivity].
      apply Z.eqb_eq in Er, Eg, Eb. subst. congruence.
  - reflexivity.
Qed.

Lemma rgb565_not_transparent (r g b : Z) : rgb565 r g b <> TRANSPARENT_RGB565.
Proof.
  rewrite rgb565_unfold.
  destruct (rgb_to_rgb565 r g b =? TRANSPARENT_RGB565) eqn:E.
  - discriminate.
  - apply Z.eqb_neq. exact E.
Qed.

(** C1.  For components in [0,255] the encode operation never yields the
    transparent sentinel 0xF81F: [rgb565] (generate_placeholders.py) and the
    value [convert_sprite] stores for an opaque, non-key pixel (sprite2c.py,
    [rgb_to_rgb565] followed by the inline check) replace the one colliding
    quantisation, reached exactly for r >= 248, g <= 3, b >= 248, by 0xF81E
    and leave every other quantisation unchanged. *)
Theorem encode_never_sentinel (r g b : Z) :
  component r -> component g -> component b ->
  rgb565 r g b <> TRANSPARENT_RGB565 /\
  (forall key a, key <> Some (r, g, b) -> 128 <= a ->
     convert_pixel key (r, g, b, a) = rgb565 r g b /\
     convert_pixel key (r, g, b, a) <> TRANSPARENT_RGB565) /\
  (rgb_to_rgb565 r g b = TRANSPARENT_RGB565 <-> 248 <= r /\ g <= 3 /\ 248 <= b) /\
  (rgb_to_rgb565 r g b = TRANSPARENT_RGB565 -> rgb565 r g b = 0xF81E) /\
  (rgb_to_rgb565 r g b <> TRANSPARENT_RGB565 ->
     rgb565 r g b = rgb_to_rgb565 r g b).
Proof.
  intros Hr Hg Hb. split; [apply rgb565_not_transparent |].
  split.
  { intros key a Hkey Ha. rewrite convert_pixel_cases.
    destruct (decide (key = Some (r, g, b))); [contradiction |].
    destruct (a <? 128) eqn:E; [apply Z.ltb_lt in E; lia |].
    split; [reflexivity | apply rgb565_not_transparent]. }
  split.
  { rewrite rgb_to_rgb565_arith by assumption.
    unfold TRANSPARENT_RGB565, component in *.
    split; intros; Z.div_mod_to_equations; lia. }
  rewrite rgb565_unfold. split; intros H.
  - rewrite H. reflexivity.
  - apply Z.eqb_neq in H. rewrite H. reflexivity.
Qed.

Lemma encode_never_sentinel_witness :
  rgb565 255 0 255 <> TRANSPARENT_RGB565 /\ rgb565 255 0 255 = 0xF81E.
Proof.
  assert (C255 : component 255) by (unfold component; lia).
  assert (C0 : component 0) by (unfold component; lia).
  destruct (encode_never_sentinel 255 0 255 C255 C0 C255)
    as (H1 & _ & _ & H4 & _).
  split; [exact H1 | apply H4; reflexivity].
Defined.

(** C2 as stated fails: (248,252,248) consists of multiples of the
    quantisation steps and is not the colliding colour, yet it decodes to
    (255,255,255). *)
Lemma decode_encode_248_252_248 :
  rgb_to_rgb565 248 252 248 <> TRANSPARENT_RGB565 /\
  248 mod 8 = 0 /\ 252 mod 4 = 0 /\
  rgb565_to_rgb (rgb565 248 252 248) = (255, 255, 255) /\
  rgb565_to_rgb (rgb565 248 252 248) <> (248, 252, 248).
Proof. repeat split; try reflexivity; try discriminate. Qed.

(** C2, amended.  Away from the colliding colour, decode(encode(r,g,b)) is
    the truncated channel with its top bits copied into the freed low bits:
    it differs from (r,g,b) by at most 7 in red and blue and 3 in green, a
    channel comes back exactly iff its low bits equal its top bits, and so a
    multiple of the step comes back exactly iff it is below 32 (red, blue) or
    below 64 (green). *)
Theorem decode_encode_error (r g b : Z) :
  component r -> component g -> component b ->
  rgb_to_rgb565 r g b <> TRANSPARENT_RGB565 ->
  exists r' g' b',
    rgb565_to_rgb (rgb565 r g b) = (r', g', b') /\
    r' = r - r mod 8 + r / 32 /\
    g' = g - g mod 4 + g / 64 /\
    b' = b - b mod 8 + b / 32 /\
    Z.abs (r' - r) <= 7 /\ Z.abs (g' - g) <= 3 /\ Z.abs (b' - b) <= 7 /\
    (r' = r <-> r mod 8 = r / 32) /\
    (g' = g <-> g mod 4 = g / 64) /\
    (b' = b <-> b mod 8 = b / 32) /\
    (r mod 8 = 0 -> (r' = r <-> r < 32)) /\
    (g mod 4 = 0 -> (g' = g <-> g < 64)) /\
    (b mod 8 = 0 -> (b' = b <-> b < 32)).
Proof.
  intros Hr Hg Hb Hns.
  rewrite rgb565_unfold.
  apply Z.eqb_neq in Hns. rewrite Hns.
  rewrite rgb_to_rgb565_arith by assumption.
  unfold component in *.
  rewrite rgb565_to_rgb_fields by (Z.div_mod_to_equations; lia).
  eexists _, _, _. split; [reflexivity |].
  repeat split; intros; Z.div_mod_to_equations; lia.
Qed.

Lemma decode_encode_error_witness :
  exists r' g' b',
    rgb565_to_rgb (rgb565 200 100 16) = (r', g', b') /\
    Z.abs (r' - 200) <= 7 /\ Z.abs (g' - 100) <= 3 /\ b' = 16.
Proof.
  assert (C200 : component 200) by (unfold component; lia).
  assert (C100 : component 100) by (unfold component; lia).
  assert (C16 : component 16) by (unfold component; lia).
  assert (N : rgb_to_rgb565 200 100 16 <> TRANSPARENT_RGB565) by discriminate.
  destruct (decode_encode_error 200 100 16 C200 C100 C16 N)
    as (r' & g' & b' & E & _ & _ & _ & Br & Bg & _ & _ & _ & _ & _ & _ & Xb).
  exists r', g', b'. repeat split; try assumption.
  apply Xb; [reflexivity | lia].
Defined.

(** C8 as stated fails: 256 is outside [0,255] and the call returns. *)
Lemma encode_256_returns :
  ~ component 256 /\
  call_rgb_to_rgb565 256 0 0 = Py.Return 0x10000 /\
  (forall e, call_rgb_to_rgb565 256 0 0 <> Py.Raise e).
Proof.
  split; [unfold component; lia |]. split; [reflexivity | discriminate].
Qed.

(** C8, amended.  The encode operation has no failure mode at all: it
    returns for all integer arguments.  For components in [0,255] the result
    is a 16-bit value; a red component outside [0,255] (green and blue in
    range) is not rejected, the result then lies outside [0,0xFFFF]. *)
Theorem encode_total (r g b : Z) :
  (exists v, call_rgb_to_rgb565 r g b = Py.Return v /\ v = rgb_to_rgb565 r g b) /\
  (forall e, call_rgb_to_rgb565 r g b <> Py.Raise e) /\
  (component r -> component g -> component b ->
     0 <= rgb_to_rgb565 r g b <= 0xFFFF) /\
  (component g -> component b -> ~ component r ->
     rgb_to_rgb565 r g b < 0 \/ 0xFFFF < rgb_to_rgb565 r g b).
Proof.
  split; [eexists; split; reflexivity |].
  split; [discriminate |].
  unfold component. split.
  - intros Hr Hg Hb. rewrite rgb_to_rgb565_arith by assumption.
    Z.div_mod_to_equations. lia.
  - intros Hg Hb Hr. rewrite rgb_to_rgb565_arith by assumption.
    Z.div_mod_to_equations. lia.
Qed.

Lemma encode_total_witness :
  0 <= rgb_to_rgb565 255 255 255 <= 0xFFFF /\
  (rgb_to_rgb565 (-1) 0 0 < 0 \/ 0xFFFF < rgb_to_rgb565 (-1) 0 0).
Proof.
  assert (C255 : component 255) by (unfold component; lia).
  assert (C0 : component 0) by (unfold component; lia).
  assert (N : ~ component (-1)) by (unfold component; lia).
  split.
  - apply (encode_total 255 255 255); exact C255.
  - apply (encode_total (-1) 0 0); assumption.
Defined.

End CodecClaims.

Section Loops.
Import Py.
Context {A B : Type}.

Lemma for_each_ext {S} (xs : list A) (body body' : S -> A -> result S) acc :
  (forall a x, x ∈ xs -> body a x = body' a x) ->
  for_each xs body acc = for_each xs body' acc.
Proof.
  revert acc. induction xs as [| x xs IH]; intros acc H; simpl; [reflexivity |].
  rewrite H by apply list_elem_of_here.
  destruct (body' acc x) as [a |]; simpl; [| reflexivity].
  apply IH. intros a' y Hy. apply H. apply list_elem_of_further, Hy.
Qed.

(** A loop whose body appends one computed value. *)
Lemma for_each_snoc (f : A -> result B) (xs : list A) (acc : list B) :
  for_each xs (fun acc x => let* v := f x in Return (acc ++ [v])) acc
  = let* vs := traverse f xs in Return (acc ++ vs).
Proof.
  revert acc. induction xs as [| x xs IH]; intros acc; simpl.
  - rewrite app_nil_r. reflexivity.
  - destruct (f x) as [v |]; simpl; [| reflexivity].
    rewrite IH. destruct (traverse f xs) as [vs |]; simpl; [| reflexivity].
    rewrite <- app_assoc. reflexivity.
Qed.

(** A loop whose body appends a computed run of values. *)
Lemma for_each_extend (f : A -> result (list B)) (xs : list A) (acc : list B) :
  for_each xs (fun acc x => let* vs := f x in Return (acc ++ vs)) acc
  = let* vss := traverse f xs in Return (acc ++ concat vss).
Proof.
  revert acc. induction xs as [| x xs IH]; intros acc; simpl.
  - rewrite app_nil_r. reflexivity.
  - destruct (f x) as [v |]; simpl; [| reflexivity].
    rewrite IH. destruct (traverse f xs) as [vs |]; simpl; [| reflexivity].
    rewrite <- app_assoc. reflexivity.
Qed.

Lemma traverse_ext (f f' : A -> result B) (xs : list A) :
  (forall x, x ∈ xs -> f x = f' x) -> traverse f xs = traverse f' xs.
Proof.
  induction xs as [| x xs IH]; intros H; simpl; [reflexivity |].
  rewrite H by apply list_elem_of_here.
  rewrite IH; [reflexivity |].
  intros y Hy. apply H, list_elem_of_further, Hy.
Qed.

Lemma traverse_pure (g : A -> B) (xs : list A) :
  traverse (fun x => Return (g x)) xs = Return (fmap g xs).
Proof.
  induction xs as [| x xs IH]; simpl; [reflexivity |]. rewrite IH. reflexivity.
Qed.

Lemma traverse_return (f : A -> result B) (g : A -> B) (xs : list A) :
  (forall x, x ∈ xs -> f x = Return (g x)) -> traverse f xs = Return (fmap g xs).
Proof.
  intros H. rewrite (traverse_ext f (fun x => Return (g x))) by exact H.
  apply traverse_pure.
Qed.

(** What a completed [traverse] returned. *)
Lemma traverse_inv (f : A -> result B) (g : A -> B) (xs : list A) vs :
  traverse f xs = Return vs ->
  (forall x v, x ∈ xs -> f x = Return v -> v = g x) ->
  vs = fmap g xs.
Proof.
  revert vs. induction xs as [| x xs IH]; intros vs E H; simpl in *.
  - congruence.
  - destruct (f x) as [v |] eqn:Ex; simpl in E; [| discriminate].
    destruct (traverse f xs) as [vs' |] eqn:Exs; simpl in E; [| discriminate].
    injection E as <-. f_equal.
    + apply H; [apply list_elem_of_here | exact Ex].
    + apply IH; [reflexivity |].
      intros y w Hy. apply H, list_elem_of_further, Hy.
Qed.

(** The first failing element decides the exception. *)
Lemma traverse_raise (f : A -> result B) (pre post : list A) (x : A) e :
  (forall p, p ∈ pre -> exists v, f p = Return v) ->
  f x = Raise e ->
  traverse f (pre ++ x :: post) = Raise e.
Proof.
  induction pre as [| p pre IH]; intros Hpre Hx; simpl.
  - rewrite Hx. reflexivity.
  - destruct (Hpre p) as [v Hv]; [apply list_elem_of_here |].
    rewrite Hv. simpl. rewrite IH; [reflexivity | | exact Hx].
    intros q Hq. apply Hpre, list_elem_of_further, Hq.
Qed.

End Loops.

Section Ranges.
Import Py.

Lemma elem_of_range (n k : Z) : k ∈ range n <-> 0 <= k < n.
Proof.
  unfold range. rewrite list_elem_of_fmap. split.
  - intros (i & -> & Hi). apply elem_of_seq in Hi. lia.
  - intros H. exists (Z.to_nat k). split; [lia |]. apply elem_of_seq. lia.
Qed.

Lemma range_split (n k : Z) :
  0 <= k < n -> exists post, range n = range k ++ k :: post.
Proof.
  intros H. unfold range.
  replace (Z.to_nat n) with (Z.to_nat k + S (Z.to_nat (n - k - 1)))%nat by lia.
  rewrite seq_app, fmap_app. simpl.
  rewrite Z2Nat.id by lia. eexists. reflexivity.
Qed.

End Ranges.
Section ConvertSprite.
Import Py.

Lemma traverse2_inv {A B C} (f : A -> B -> result C) (g : A -> B -> C)
    (xs : list A) (ys : list B) vss :
  traverse (fun i => traverse (f i) ys) xs = Return vss ->
  (forall i j v, i ∈ xs -> j ∈ ys -> f i j = Return v -> v = g i j) ->
  vss = (fun i => g i <$> ys) <$> xs.
Proof.
  intros E H. apply (traverse_inv _ _ _ _ E).
  intros i vs Hi Ei. apply (traverse_inv _ _ _ _ Ei).
  intros j v Hj. apply H; assumption.
Qed.

Lemma traverse2_return {A B C} (f : A -> B -> result C) (g : A -> B -> C)
    (xs : list A) (ys : list B) :
  (forall i j, i ∈ xs -> j ∈ ys -> f i j = Return (g i j)) ->
  traverse (fun i => traverse (f i) ys) xs = Return ((fun i => g i <$> ys) <$> xs).
Proof.
  intros H. apply traverse_return. intros i Hi.
  apply traverse_return. intros j Hj. apply H; assumption.
Qed.

Lemma getpixel_inside (img : image) (x y : Z) :
  0 <= x < (size img).1 -> 0 <= y < (size img).2 ->
  getpixel img (x, y) = Return (pixel img x y).
Proof.
  unfold getpixel. destruct (size img) as [w h]. simpl. intros Hx Hy.
  destruct (x <? 0) eqn:E1; [lia |]. destruct (y <? 0) eqn:E2; [lia |].
  rewrite E1, E2.
  destruct (w <=? x) eqn:E3; [lia |]. destruct (h <=? y) eqn:E4; [lia |].
  reflexivity.
Qed.

Lemma getpixel_returned (img : image) (x y : Z) (p : rgba) :
  0 <= x -> 0 <= y -> getpixel img (x, y) = Return p -> p = pixel img x y.
Proof.
  unfold getpixel. destruct (size img) as [w h]. intros Hx Hy.
  destruct (x <? 0) eqn:E1; [lia |]. destruct (y <? 0) eqn:E2; [lia |].
  rewrite E1, E2.
  destruct (_ || _); [discriminate |]. congruence.
Qed.

Lemma getpixel_right_of (img : image) (x y : Z) :
  0 <= x -> (size img).1 <= x -> getpixel img (x, y) = Raise IndexError.
Proof.
  unfold getpixel. destruct (size img) as [w h]. simpl. intros Hx Hw.
  destruct (x <? 0) eqn:E1; [lia |]. rewrite E1.
  destruct (w <=? x) eqn:E3; [| lia].
  rewrite orb_true_r. reflexivity.
Qed.

Variables (img : image) (frame_width frame_height : Z).
Variable transparent_color : option (Z * Z * Z).

Let read (row col y x : Z) : result Z :=
  let* px := getpixel img (col * frame_width + x, row * frame_height + y) in
  Return (convert_pixel transparent_color px).

Lemma convert_frame_traverse (row col : Z) :
  convert_frame img frame_width frame_height transparent_color row col
  = let* lines := traverse (fun y => traverse (read row col y) (range frame_width))
                           (range frame_height) in
    Return (concat lines).
Proof.
  unfold convert_frame.
  rewrite (for_each_ext _ _
    (fun frame y => let* vs := traverse (read row col y) (range frame_width) in
                    Return (frame ++ vs))).
  - rewrite for_each_extend. reflexivity.
  - intros frame y _. rewrite <- for_each_snoc. apply for_each_ext.
    intros a x _. unfold read. destruct (getpixel _ _); reflexivity.
Qed.

Lemma convert_sprite_loops_traverse (rows cols : Z) :
  for_each (range rows) (fun frames row =>
    for_each (range cols) (fun frames col =>
      let* frame :=
        convert_frame img frame_width frame_height transparent_color row col in
      Return (frames ++ [frame])) frames) []
  = let* fss := traverse (fun row =>
                  traverse (convert_frame img frame_width frame_height
                              transparent_color row) (range cols))
                  (range rows) in
    Return (concat fss).
Proof.
  rewrite (for_each_ext _ _
    (fun frames row =>
       let* fs := traverse (convert_frame img frame_width frame_height
                              transparent_color row) (range cols) in
       Return (frames ++ fs))).
  - rewrite for_each_extend. reflexivity.
  - intros frames row _. apply for_each_snoc.
Qed.

Lemma convert_frame_returned (f : rgba -> Z) (row col : Z) frame :
  (forall px, convert_pixel transparent_color px = f px) ->
  0 <= row -> 0 <= col ->
  convert_frame img frame_width frame_height transparent_color row col
    = Return frame ->
  frame = cell img frame_width frame_height f row col.
Proof.
  intros Hf Hrow Hcol. rewrite convert_frame_traverse.
  destruct (traverse _ (range frame_height)) as [lines |] eqn:E; [| discriminate].
  simpl. intros [= <-]. unfold cell. f_equal.
  apply (traverse2_inv _ _ _ _ _ E).
  intros y x v Hy Hx. apply elem_of_range in Hy, Hx. unfold read.
  destruct (getpixel _ _) as [p |] eqn:Ep; [| discriminate].
  simpl. intros [= <-]. rewrite Hf. f_equal.
  apply getpixel_returned in Ep; [exact Ep | nia | nia].
Qed.

Lemma convert_frame_inside (row col : Z) :
  0 <= row -> 0 <= col ->
  (0 < frame_width -> (col + 1) * frame_width <= (size img).1) ->
  (0 < frame_height -> (row + 1) * frame_height <= (size img).2) ->
  convert_frame img frame_width frame_height transparent_color row col
  = Return (cell img frame_width frame_height
              (convert_pixel transparent_color) row col).
Proof.
  intros Hrow Hcol Hw Hh. rewrite convert_frame_traverse.
  rewrite (traverse2_return _
    (fun y x => convert_pixel transparent_color
                  (pixel img (col * frame_width + x) (row * frame_height + y)))).
  - reflexivity.
  - intros y x Hy Hx. apply elem_of_range in Hy, Hx. unfold read.
    rewrite getpixel_inside; [reflexivity | nia | nia].
Qed.

(** Leaving the image on the right: the first row of the first cell that
    starts at or beyond column [max_cols] is read up to the image edge. *)
Lemma convert_frame_outside (row col : Z) :
  0 <= row -> 0 < frame_width -> 0 < frame_height ->
  0 <= (size img).1 ->
  (row + 1) * frame_height <= (size img).2 ->
  col = (size img).1 / frame_width ->
  convert_frame img frame_width frame_height transparent_color row col
  = Raise IndexError.
Proof.
  intros Hrow Hw Hh Hiw Hih Hcol. rewrite convert_frame_traverse.
  destruct (range_split frame_height 0) as [posty Ey]; [lia |].
  rewrite Ey. change (range 0) with (@nil Z).
  rewrite (traverse_raise _ [] posty 0 IndexError); [reflexivity | |].
  { intros p Hp. inversion Hp. }
  set (k := (size img).1 - col * frame_width).
  assert (H0 : 0 <= col) by (rewrite Hcol; apply Z.div_pos; lia).
  assert (Hk : 0 <= k < frame_width).
  { unfold k. rewrite Hcol. Z.div_mod_to_equations. nia. }
  destruct (range_split frame_width k) as [postx Ex]; [lia |].
  rewrite Ex. apply traverse_raise.
  - intros x Hx. apply elem_of_range in Hx. unfold read.
    rewrite getpixel_inside; [eexists; reflexivity | unfold k in *; nia | nia].
  - unfold read. rewrite getpixel_right_of; [reflexivity | | unfold k; lia].
    nia.
Qed.

Lemma convert_sprite_unfold (cols : option Z) :
  convert_sprite img frame_width frame_height transparent_color cols =
  let* max_cols := floordiv (size img).1 frame_width in
  let c := match cols with Some c => c | None => max_cols end in
  let* rows := floordiv (size img).2 frame_height in
  if (c =? 0) || (rows =? 0) then Raise (SystemExit 1)
  else
    let* fss := traverse (fun row =>
                  traverse (convert_frame img frame_width frame_height
                              transparent_color row) (range c))
                  (range rows) in
    Return (concat fss).
Proof.
  unfold convert_sprite. destruct (size img) as [w h]. simpl.
  destruct (floordiv w frame_width) as [m |]; simpl; [| reflexivity].
  destruct (floordiv h frame_height) as [rows |]; simpl; [| reflexivity].
  destruct (_ || _); [reflexivity |].
  apply convert_sprite_loops_traverse.
Qed.

(** What a completed conversion returned. *)
Lemma convert_sprite_returned (f : rgba -> Z) (cols : option Z) frames :
  (forall px, convert_pixel transparent_color px = f px) ->
  convert_sprite img frame_width frame_height transparent_color cols
    = Return frames ->
  frame_width <> 0 /\ frame_height <> 0 /\
  frames = cells img frame_width frame_height f
             ((size img).2 / frame_height)
             (default ((size img).1 / frame_width) cols).
Proof.
  intros Hf. rewrite convert_sprite_unfold. unfold floordiv.
  destruct (frame_width =? 0) eqn:Ew; [discriminate |].
  destruct (frame_height =? 0) eqn:Eh; [discriminate |].
  simpl. destruct (_ || _); [discriminate |].
  destruct (traverse _ (range _)) as [fss |] eqn:E; [| discriminate].
  simpl. intros [= <-].
  split; [lia |]. split; [lia |]. unfold cells. f_equal.
  assert (Ec : match cols with Some c => c | None => (size img).1 / frame_width end
               = default ((size img).1 / frame_width) cols)
    by (destruct cols; reflexivity).
  rewrite Ec in E.
  apply (traverse2_inv _ _ _ _ _ E).
  intros row col v Hr Hc Hv. apply elem_of_range in Hr, Hc.
  apply (convert_frame_returned f) in Hv; [exact Hv | exact Hf | lia | lia].
Qed.

(** With at most [max_cols] columns every read is inside the image. *)
Lemma convert_sprite_in_bounds (cols : option Z) :
  frame_width <> 0 -> frame_height <> 0 ->
  default ((size img).1 / frame_width) cols <= (size img).1 / frame_width ->
  convert_sprite img frame_width frame_height transparent_color cols =
  if (default ((size img).1 / frame_width) cols =? 0)
     || ((size img).2 / frame_height =? 0)
  then Raise (SystemExit 1)
  else Return (cells img frame_width frame_height
                 (convert_pixel transparent_color)
                 ((size img).2 / frame_height)
                 (default ((size img).1 / frame_width) cols)).
Proof.
  intros Hw Hh Hc. rewrite convert_sprite_unfold. unfold floordiv.
  destruct (frame_width =? 0) eqn:Ew; [lia |].
  destruct (frame_height =? 0) eqn:Eh; [lia |].
  simpl.
  assert (Ec : match cols with Some c => c | None => (size img).1 / frame_width end
               = default ((size img).1 / frame_width) cols)
    by (destruct cols; reflexivity).
  rewrite Ec. destruct (_ || _); [reflexivity |].
  rewrite (traverse2_return _
    (cell img frame_width frame_height (convert_pixel transparent_color))).
  - reflexivity.
  - intros row col Hr Hcol. apply elem_of_range in Hr, Hcol.
    apply convert_frame_inside; try lia.
    + intros Hpos.
      assert (frame_width * ((size img).1 / frame_width) <= (size img).1)
        by (apply Z.mul_div_le; lia).
      nia.
    + intros Hpos.
      assert (frame_height * ((size img).2 / frame_height) <= (size img).2)
        by (apply Z.mul_div_le; lia).
      nia.
Qed.

(** More columns than fit: the read leaves the image. *)
Lemma convert_sprite_out_of_bounds (c : Z) :
  0 < frame_width -> 0 < frame_height ->
  0 <= (size img).1 -> frame_height <= (size img).2 ->
  (size img).1 / frame_width < c ->
  convert_sprite img frame_width frame_height transparent_color (Some c)
  = Raise IndexError.
Proof.
  intros Hw Hh Hiw Hih Hc. rewrite convert_sprite_unfold. unfold floordiv.
  destruct (frame_width =? 0) eqn:Ew; [lia |].
  destruct (frame_height =? 0) eqn:Eh; [lia |].
  simpl.
  assert (Hm : 0 <= (size img).1 / frame_width) by (apply Z.div_pos; lia).
  assert (Hrows : 1 <= (size img).2 / frame_height).
  { apply Z.div_le_lower_bound; lia. }
  destruct (c =? 0) eqn:Ec0; [lia |].
  destruct ((size img).2 / frame_height =? 0) eqn:Er0; [lia |]. simpl.
  destruct (range_split ((size img).2 / frame_height) 0) as [postr Er]; [lia |].
  rewrite Er. change (range 0) with (@nil Z).
  rewrite (traverse_raise _ [] postr 0 IndexError); [reflexivity | |].
  { intros p Hp. inversion Hp. }
  destruct (range_split c ((size img).1 / frame_width)) as [postc Ecs]; [lia |].
  rewrite Ecs. apply traverse_raise.
  - intros col Hcol. apply elem_of_range in Hcol.
    rewrite convert_frame_inside; [eexists; reflexivity | lia | lia | | lia].
    intros _.
    assert (frame_width * ((size img).1 / frame_width) <= (size img).1)
      by (apply Z.mul_div_le; lia).
    nia.
  - apply convert_frame_outside; lia.
Qed.

End ConvertSprite.
Section ConvertSpriteClaims.
Import Py.

(** C3 as stated fails: with a colour key supplied, a pixel that does not
    match the key and has alpha 0 becomes the sentinel, not the encoding of
    its RGB. *)
Lemma keyed_translucent_pixel :
  let img := Image (1, 1) (fun _ _ => (0, 0, 0, 0)) in
  (0, 0, 0) <> (255, 0, 255) /\
  convert_sprite img 1 1 (Some (255, 0, 255)) None
    = Return [[TRANSPARENT_RGB565]] /\
  rgb565 0 0 0 = 0 /\
  convert_sprite img 1 1 (Some (255, 0, 255)) None <> Return [[rgb565 0 0 0]].
Proof. repeat split; try reflexivity; discriminate. Qed.

(** C3, amended.  In raster-to-FrameBuffer conversion every output value is
    resolved from its source pixel in this order: the sentinel when a colour
    key is supplied and the pixel's RGB equals it; otherwise the sentinel
    when the alpha is below 128, whether or not a colour key is supplied;
    otherwise the guarded RGB565 encoding of the RGB.  Frames are the cells
    of the sheet in row-major order, each cell row-major. *)
Theorem raster_to_framebuffer (img : image) (frame_width frame_height : Z)
    (key : option (Z * Z * Z)) (cols : option Z) (frames : list (list Z)) :
  convert_sprite img frame_width frame_height key cols = Return frames ->
  frames = cells img frame_width frame_height (resolve_pixel key)
             ((size img).2 / frame_height)
             (default ((size img).1 / frame_width) cols) /\
  (forall r g b a,
     (key = Some (r, g, b) -> resolve_pixel key (r, g, b, a) = TRANSPARENT_RGB565) /\
     (key <> Some (r, g, b) -> a < 128 ->
        resolve_pixel key (r, g, b, a) = TRANSPARENT_RGB565) /\
     (key <> Some (r, g, b) -> 128 <= a ->
        resolve_pixel key (r, g, b, a) = rgb565 r g b)).
Proof.
  intros E. split.
  - apply (convert_sprite_returned _ _ _ _ (resolve_pixel key)) in E.
    + apply E.
    + intros [[[r g] b] a]. apply convert_pixel_cases.
  - intros r g b a. unfold resolve_pixel.
    destruct (decide (key = Some (r, g, b))) as [Hk | Hk];
      destruct (Z.ltb_spec a 128);
      (split; [| split]); intros;
      solve [reflexivity | contradiction | lia].
Qed.

Lemma raster_to_framebuffer_witness :
  let img := Image (2, 1) (fun x _ => if x =? 0 then (255, 0, 255, 255)
                                       else (255, 60, 60, 255)) in
  [[TRANSPARENT_RGB565; rgb565 255 60 60]]
  = cells img 2 1 (resolve_pixel (Some (255, 0, 255))) 1 1.
Proof.
  intros img.
  apply (raster_to_framebuffer img 2 1 (Some (255, 0, 255)) None
           [[TRANSPARENT_RGB565; rgb565 255 60 60]]).
  reflexivity.
Defined.

(** C10.  Splitting reads only pixels inside the image when the column
    count is omitted or supplied with cols <= floor(imageWidth/frameWidth):
    every coordinate read lies in the image and no IndexError arises.  The
    bound is not checked: with positive frame sizes, an image at least one
    cell high and any supplied cols > floor(imageWidth/frameWidth), a read
    beyond the right edge is reached and the call ends in IndexError. *)
Theorem split_reads_in_bounds (img : image) (frame_width frame_height : Z)
    (key : option (Z * Z * Z)) :
  (forall cols,
     default ((size img).1 / frame_width) cols <= (size img).1 / frame_width ->
     convert_sprite img frame_width frame_height key cols <> Raise IndexError /\
     (forall row col y x,
        row ∈ range ((size img).2 / frame_height) ->
        col ∈ range (default ((size img).1 / frame_width) cols) ->
        y ∈ range frame_height -> x ∈ range frame_width ->
        0 <= col * frame_width + x < (size img).1 /\
        0 <= row * frame_height + y < (size img).2)) /\
  (forall c,
     0 < frame_width -> 0 < frame_height ->
     0 <= (size img).1 -> frame_height <= (size img).2 ->
     (size img).1 / frame_width < c ->
     convert_sprite img frame_width frame_height key (Some c) = Raise IndexError).
Proof.
  split.
  - intros cols Hc. split.
    + destruct (Z.eq_dec frame_width 0) as [-> | Hw].
      { rewrite convert_sprite_unfold. discriminate. }
      destruct (Z.eq_dec frame_height 0) as [-> | Hh].
      { rewrite convert_sprite_unfold. unfold floordiv.
        destruct (frame_width =? 0); discriminate. }
      rewrite convert_sprite_in_bounds by assumption.
      destruct (_ || _); discriminate.
    + intros row col y x Hrow Hcol Hy Hx.
      apply elem_of_range in Hrow, Hcol, Hy, Hx.
      assert (frame_width * ((size img).1 / frame_width) <= (size img).1)
        by (apply Z.mul_div_le; lia).
      assert (frame_height * ((size img).2 / frame_height) <= (size img).2)
        by (apply Z.mul_div_le; lia).
      nia.
  - intros c Hw Hh Hiw Hih Hc. apply convert_sprite_out_of_bounds; assumption.
Qed.

Lemma split_reads_in_bounds_witness :
  let img := Image (3, 2) (fun _ _ => (1, 2, 3, 255)) in
  convert_sprite img 2 2 None None <> Raise IndexError /\
  convert_sprite img 2 2 None (Some 2) = Raise IndexError.
Proof.
  intros img.
  destruct (split_reads_in_bounds img 2 2 None) as [Hin Hout].
  split.
  - apply (Hin None). vm_compute. discriminate.
  - apply (Hout 2); vm_compute; (reflexivity || discriminate).
Defined.

End ConvertSpriteClaims.
Section GenerateSpritedata.
Import Py.

Lemma foldl_append_each {A B} (f : A -> B) (xs : list A) (acc : list B) :
  foldl (fun acc x => acc ++ [f x]) acc xs = acc ++ (f <$> xs).
Proof.
  revert acc. induction xs as [| x xs IH]; intros acc; simpl.
  - rewrite app_nil_r. reflexivity.
  - rewrite IH, <- app_assoc. reflexivity.
Qed.

Lemma table_lines_rows counts cfg (lines : list string) :
  table_lines counts cfg lines = lines ++ (table_row counts cfg <$> SPRITE_NAMES).
Proof. apply foldl_append_each. Qed.



Variable png : string -> option image.
Variables frame_width frame_height : Z.
Variable key : option (Z * Z * Z).






End GenerateSpritedata.
Section BatchClaims.
Import Py.






End BatchClaims.
Section GroupFrames.

Lemma od_get_set_eq {V} (d : list (string * V)) k v :
  od_get (od_set d k v) k = Some v.
Proof.
  induction d as [| [k' w] d IH]; simpl.
  - rewrite String.eqb_refl. reflexivity.
  - destruct (String.eqb k' k) eqn:E; simpl; rewrite E; [reflexivity | exact IH].
Qed.

Lemma od_get_set_ne {V} (d : list (string * V)) k k' v :
  k <> k' -> od_get (od_set d k v) k' = od_get d k'.
Proof.
  intros Hne. induction d as [| [k0 w] d IH]; simpl.
  - apply String.eqb_neq in Hne. rewrite Hne. reflexivity.
  - destruct (String.eqb k0 k) eqn:E; simpl.
    + apply String.eqb_eq in E. subst k0.
      apply String.eqb_neq in Hne. rewrite Hne. reflexivity.
    + destruct (String.eqb k0 k'); [reflexivity | exact IH].
Qed.

Lemma od_get_fmap {V W} (f : V -> W) (d : list (string * V)) k :
  od_get ((fun entry : string * V => let '(n, v) := entry in (n, f v)) <$> d) k
  = f <$> od_get d k.
Proof.
  induction d as [| [k0 w] d IH]; simpl; [reflexivity |].
  destruct (String.eqb k0 k); [reflexivity | exact IH].
Qed.

Implicit Types (arrays : list (string * list Z)) (sn : string).

Lemma sprite_names_snoc arrays name px :
  sprite_names (arrays ++ [(name, px)])
  = sprite_names arrays ++ match match_frame name with
                           | Some (s, _) => [s]
                           | None => []
                           end.
Proof.
  unfold sprite_names. rewrite omap_app. simpl.
  destruct (match_frame name) as [[s N] |]; reflexivity.
Qed.

Lemma bound_snoc arrays name px sn :
  bound (arrays ++ [(name, px)]) sn
  = match match_frame name with
    | Some (s, N) =>
        if decide (s = sn) then Nat.max (bound arrays sn) (S N)
        else bound arrays sn
    | None => bound arrays sn
    end.
Proof. unfold bound. rewrite foldl_snoc. reflexivity. Qed.

Lemma slot_snoc arrays name px sn N :
  slot (arrays ++ [(name, px)]) sn N
  = if decide (match_frame name = Some (sn, N)) then Some px
    else slot arrays sn N.
Proof. unfold slot. rewrite foldl_snoc. reflexivity. Qed.

Lemma slot_above_bound arrays sn N :
  (bound arrays sn <= N)%nat -> slot arrays sn N = None.
Proof.
  induction arrays as [| [name px] arrays IH] using rev_ind; [reflexivity |].
  rewrite bound_snoc, slot_snoc. intros Hb.
  destruct (decide (match_frame name = Some (sn, N))) as [E | E].
  - rewrite E in Hb. rewrite decide_True in Hb by reflexivity. lia.
  - apply IH. destruct (match_frame name) as [[s M] |]; [| exact Hb].
    destruct (decide (s = sn)); lia.
Qed.

Lemma bound_absent arrays sn :
  sn ∉ sprite_names arrays -> bound arrays sn = 0%nat.
Proof.
  induction arrays as [| [name px] arrays IH] using rev_ind; [reflexivity |].
  rewrite sprite_names_snoc, bound_snoc. intros Hn.
  apply not_elem_of_app in Hn as [Hn1 Hn2].
  destruct (match_frame name) as [[s M] |]; [| apply IH, Hn1].
  destruct (decide (s = sn)) as [-> | _]; [| apply IH, Hn1].
  exfalso. apply Hn2, list_elem_of_here.
Qed.

(** Writing index [N] into the list grown with [None] up to it. *)
Lemma place_slots arrays name px sn N :
  match_frame name = Some (sn, N) ->
  <[N := Some px]>
    (slots arrays sn ++ replicate (S N - length (slots arrays sn)) None)
  = slots (arrays ++ [(name, px)]) sn.
Proof.
  intros Hm. unfold slots.
  rewrite length_fmap, length_seq, bound_snoc, Hm, decide_True by reflexivity.
  set (b := bound arrays sn). apply list_eq. intros i.
  rewrite list_lookup_insert, length_app, length_fmap, length_seq,
    length_replicate, !list_lookup_fmap.
  destruct (decide (N = i /\ (N < b + (S N - b))%nat)) as [[<- _] | Hne].
  - rewrite lookup_seq_lt by lia. simpl.
    rewrite slot_snoc, Hm, decide_True by reflexivity. reflexivity.
  - assert (Hi : N <> i) by lia.
    rewrite lookup_app, list_lookup_fmap.
    destruct (decide (i < b)%nat) as [Hlt | Hge].
    + rewrite !lookup_seq_lt by lia. simpl.
      rewrite slot_snoc, Hm, decide_False by congruence. reflexivity.
    + rewrite (lookup_seq_ge 0 b) by lia. simpl.
      rewrite length_fmap, length_seq.
      destruct (decide (i < S N)%nat) as [Hlt | Hge'].
      * rewrite lookup_replicate_2 by lia.
        rewrite lookup_seq_lt by lia. simpl.
        rewrite slot_snoc, Hm, decide_False by congruence.
        rewrite slot_above_bound by (fold b; lia). reflexivity.
      * rewrite lookup_seq_ge by lia.
        apply lookup_replicate_None. lia.
Qed.

(** The frame lists after the first loop of [group_frames]. *)
Lemma grouped_lookup arrays sn :
  od_get (foldl place [] arrays) sn
  = if decide (sn ∈ sprite_names arrays) then Some (slots arrays sn) else None.
Proof.
  revert sn.
  induction arrays as [| [name px] arrays IH] using rev_ind; intros sn.
  - destruct (decide (sn ∈ sprite_names [])) as [H |]; [inversion H | reflexivity].
  - rewrite foldl_snoc. unfold place at 1.
    destruct (match_frame name) as [[s N] |] eqn:Hm.
    + set (G := foldl place [] arrays) in *.
      set (G1 := match od_get G s with Some _ => G | None => od_set G s [] end).
      assert (Hfr : default [] (od_get G1 s) = slots arrays s).
      { unfold G1. rewrite (IH s).
        destruct (decide (s ∈ sprite_names arrays)) as [Hin | Hout].
        - rewrite (IH s), decide_True by exact Hin. reflexivity.
        - rewrite od_get_set_eq. simpl. unfold slots.
          rewrite bound_absent by exact Hout. reflexivity. }
      assert (Hother : forall k, s <> k -> od_get G1 k = od_get G k).
      { intros k Hk. unfold G1. destruct (od_get G s); [reflexivity |].
        apply od_get_set_ne, Hk. }
      rewrite Hfr. destruct (decide (s = sn)) as [-> | Hne].
      * rewrite od_get_set_eq, (place_slots arrays name px sn N Hm).
        rewrite decide_True; [reflexivity |].
        rewrite sprite_names_snoc, Hm. apply elem_of_app. right.
        apply list_elem_of_here.
      * rewrite od_get_set_ne, Hother, IH by exact Hne.
        assert (Hs : slots (arrays ++ [(name, px)]) sn = slots arrays sn).
        { unfold slots. rewrite bound_snoc, Hm, decide_False by exact Hne.
          apply list_fmap_ext. intros i M _.
          rewrite slot_snoc, Hm, decide_False by congruence. reflexivity. }
        rewrite Hs, sprite_names_snoc, Hm.
        destruct (decide (sn ∈ sprite_names arrays)) as [Hin | Hout].
        -- rewrite decide_True; [reflexivity |]. apply elem_of_app. left. exact Hin.
        -- rewrite decide_False; [reflexivity |].
           intros H. apply elem_of_app in H as [H | H]; [contradiction |].
           apply list_elem_of_singleton in H. congruence.
    + rewrite IH, sprite_names_snoc, Hm, app_nil_r.
      assert (Hs : slots (arrays ++ [(name, px)]) sn = slots arrays sn).
      { unfold slots. rewrite bound_snoc, Hm.
        apply list_fmap_ext. intros i M _.
        rewrite slot_snoc, Hm, decide_False by congruence. reflexivity. }
      rewrite Hs. reflexivity.
Qed.

Lemma omap_id_fmap {A B} (f : A -> option B) (l : list A) :
  omap id (f <$> l) = omap f l.
Proof.
  induction l as [| x l IH]; csimpl; [reflexivity |].
  rewrite IH. reflexivity.
Qed.

(** The frame lists [group_frames] returns. *)
Lemma group_frames_lookup arrays sn :
  od_get (group_frames arrays) sn
  = if decide (sn ∈ sprite_names arrays) then Some (present arrays sn) else None.
Proof.
  unfold group_frames.
  rewrite (od_get_fmap (omap id)), grouped_lookup.
  destruct (decide (sn ∈ sprite_names arrays)); [| reflexivity].
  simpl. unfold slots, present. rewrite omap_id_fmap. reflexivity.
Qed.

End GroupFrames.

Section Regex.
Import Re.

Lemma list_ascii_of_string_app (a b : string) :
  list_ascii_of_string (a +:+ b) = list_ascii_of_string a ++ list_ascii_of_string b.
Proof. induction a as [| c a IH]; simpl; [reflexivity | rewrite IH; reflexivity]. Qed.

Lemma length_list_ascii_of_string (a : string) :
  length (list_ascii_of_string a) = String.length a.
Proof. induction a as [| c a IH]; simpl; [reflexivity | rewrite IH; reflexivity]. Qed.

Lemma strip_prefix_app (l s : list ascii) : strip_prefix l (l ++ s) = Some s.
Proof.
  induction l as [| c l IH]; simpl; [reflexivity |].
  rewrite Ascii.eqb_refl. exact IH.
Qed.

Context {R : Type}.
Implicit Types (p : ascii -> bool) (k : list ascii -> nat -> option R).

Lemma rep_cons_true p min k c s n pos :
  p c = true ->
  rep p min k (c :: s) n pos =
  match rep p min k s (S n) (S pos) with
  | Some r => Some r
  | None => if (min <=? n)%nat then k (c :: s) pos else None
  end.
Proof. intros H. simpl. rewrite H. reflexivity. Qed.

Lemma rep_stops p min k s n pos :
  stops p s ->
  rep p min k s n pos = if (min <=? n)%nat then k s pos else None.
Proof.
  destruct s as [| c s]; simpl; [reflexivity |]. intros ->. reflexivity.
Qed.

(** The repetition takes the whole run when the class stops after it and
    the rest of the pattern matches there. *)
Lemma rep_run p min k a b n pos r :
  Forall (fun c => p c = true) a -> stops p b ->
  (min <= n + length a)%nat ->
  k b (pos + length a)%nat = Some r ->
  rep p min k (a ++ b) n pos = Some r.
Proof.
  intros Ha Hb. revert n pos.
  induction Ha as [| c a Hc Ha IH]; intros n pos Hmin Hk; simpl app.
  - rewrite rep_stops by exact Hb. simpl in Hmin, Hk.
    rewrite Nat.add_0_r in Hk, Hmin.
    apply Nat.leb_le in Hmin. rewrite Hmin. exact Hk.
  - rewrite rep_cons_true by exact Hc.
    rewrite IH; [reflexivity | simpl in Hmin; lia |].
    simpl in Hk. rewrite <- Hk. f_equal. lia.
Qed.

(** No way of stopping lets the rest of the pattern match. *)
Lemma rep_fails p min k s n pos :
  (forall a b, s = a ++ b -> Forall (fun c => p c = true) a ->
               k b (pos + length a)%nat = None) ->
  rep p min k s n pos = None.
Proof.
  revert n pos. induction s as [| c s IH]; intros n pos H.
  - simpl. destruct (min <=? n)%nat; [| reflexivity].
    rewrite <- (H [] []); [f_equal; simpl; lia | reflexivity | constructor].
  - simpl. destruct (p c) eqn:Hc.
    + rewrite IH.
      * destruct (min <=? n)%nat; [| reflexivity].
        rewrite <- (H [] (c :: s)); [f_equal; simpl; lia | reflexivity | constructor].
      * intros a b -> Ha.
        rewrite <- (H (c :: a) b); [f_equal; simpl; lia | reflexivity |].
        constructor; assumption.
    + destruct (min <=? n)%nat; [| reflexivity].
      rewrite <- (H [] (c :: s)); [f_equal; simpl; lia | reflexivity | constructor].
Qed.

(** Backtracking: the repetition gives back characters until the rest of
    the pattern matches; when that happens at one place only, that place
    decides the match. *)
Lemma rep_backtrack p min k a b n pos r :
  Forall (fun c => p c = true) a ->
  (min <= n + length a)%nat ->
  k b (pos + length a)%nat = Some r ->
  (forall a' b', b = a' ++ b' -> a' <> [] -> Forall (fun c => p c = true) a' ->
                 k b' (pos + length a + length a')%nat = None) ->
  rep p min k (a ++ b) n pos = Some r.
Proof.
  intros Ha. revert n pos.
  induction Ha as [| c a Hc Ha IH]; intros n pos Hmin Hk Hlater; simpl app.
  - simpl in Hmin, Hk, Hlater. rewrite Nat.add_0_r in Hk, Hmin.
    apply Nat.leb_le in Hmin.
    destruct b as [| d b].
    + simpl. rewrite Hmin. exact Hk.
    + simpl. destruct (p d) eqn:Hd; [| rewrite Hmin; exact Hk].
      rewrite rep_fails; [rewrite Hmin; exact Hk |].
      intros a' b' -> Ha'.
      rewrite <- (Hlater (d :: a') b'); [f_equal; simpl; lia | reflexivity | discriminate |].
      constructor; assumption.
  - rewrite rep_cons_true by exact Hc.
    rewrite IH; [reflexivity | simpl in Hmin; lia | |].
    + simpl in Hk. rewrite <- Hk. f_equal. lia.
    + intros a' b' Hb Hne Ha'.
      rewrite <- (Hlater a' b' Hb Hne Ha'). f_equal. simpl. lia.
Qed.

End Regex.
Section FrameNames.
Import Re.

Local Abbreviation s2l := list_ascii_of_string.

Lemma strip_prefix_mismatch (c : ascii) (l s : list ascii) :
  match s with [] => True | d :: _ => d <> c end ->
  strip_prefix (c :: l) s = None.
Proof.
  destruct s as [| d s]; simpl; [reflexivity |]. intros Hd.
  destruct (Ascii.eqb_spec c d) as [-> | _]; [contradiction | reflexivity].
Qed.

Lemma Forall_suffix_head {A} (P : A -> Prop) (a b : list A) :
  Forall P (a ++ b) -> match b with [] => True | d :: _ => P d end.
Proof.
  intros H. apply Forall_app in H as [_ H].
  destruct b; [exact I | inversion H; assumption].
Qed.

Lemma digit_not_underscore (c : ascii) : digit c = true -> c <> "_"%char.
Proof. intros H ->. discriminate. Qed.

Lemma exec_frame_pattern (sn ds : list ascii) :
  sn <> [] -> Forall (fun c => dot c = true) sn ->
  ds <> [] -> Forall (fun c => digit c = true) ds ->
  exec frame_pattern (s2l "sprite_" ++ sn ++ s2l "_frame" ++ ds) 0 []
  = Some ((13 + length sn + length ds)%nat,
          [7; 7 + length sn; 13 + length sn; 13 + length sn + length ds]%nat).
Proof.
  intros Hsn Hdot Hds Hdig. unfold frame_pattern.
  cbn [exec Nat.eqb]. rewrite strip_prefix_app. cbn [exec].
  etransitivity.
  - eapply rep_backtrack.
    + exact Hdot.
    + destruct sn; [contradiction | simpl; lia].
    + cbn [exec]. rewrite strip_prefix_app. cbn [exec].
      rewrite <- (app_nil_r ds) at 1.
      eapply rep_run; [exact Hdig | exact I | |].
      * destruct ds; [contradiction | simpl; lia].
      * cbn [exec]. reflexivity.
    + intros a' b' Hb Hne Ha'. cbn [exec].
      destruct a' as [| c a']; [contradiction |].
      change (s2l "_frame") with ("_"%char :: s2l "frame") in *.
      simpl in Hb. injection Hb as _ Hb.
      rewrite strip_prefix_mismatch; [reflexivity |].
      apply (Forall_suffix_head (fun d => d <> "_"%char) a' b').
      rewrite <- Hb. repeat (constructor; [discriminate |]).
      eapply Forall_impl; [exact Hdig |]. apply digit_not_underscore.
  - simpl. repeat f_equal; lia.
Qed.

Lemma Forall_forallb (p : ascii -> bool) (l : list ascii) :
  forallb p l = true -> Forall (fun c => p c = true) l.
Proof.
  intros H. apply Forall_forall. intros c Hc.
  apply list_elem_of_In in Hc.
  rewrite forallb_forall in H. apply H, Hc.
Qed.

(** An array name of the shape [sprite_<name>_frame<digits>] carries the
    sprite name and the frame index its digits denote. *)
Lemma match_frame_convention (sn ds : string) :
  sn <> ""%string -> forallb dot (s2l sn) = true ->
  ds <> ""%string -> forallb digit (s2l ds) = true ->
  match_frame ("sprite_" +:+ sn +:+ "_frame" +:+ ds)
  = Some (sn, Z.to_nat (int_of 10 ds)).
Proof.
  intros Hsn Hdot Hds Hdig. unfold match_frame, match_.
  rewrite !list_ascii_of_string_app.
  rewrite exec_frame_pattern.
  - cbn [groups].
    rewrite (drop_app_length' (s2l "sprite_") _ 7) by reflexivity.
    replace (7 + length (s2l sn) - 7)%nat with (length (s2l sn)) by lia.
    rewrite take_app_length.
    replace (13 + length (s2l sn) + length (s2l ds)
             - (13 + length (s2l sn)))%nat with (length (s2l ds)) by lia.
    rewrite !app_assoc.
    rewrite drop_app_length'
      by (rewrite !length_app; simpl; lia).
    rewrite firstn_all, !string_of_list_ascii_of_string. reflexivity.
  - destruct sn; [contradiction | discriminate].
  - apply Forall_forallb, Hdot.
  - destruct ds; [contradiction | discriminate].
  - apply Forall_forallb, Hdig.
Qed.

End FrameNames.
Section GroupFramesClaims.

Implicit Types (arrays : list (string * list Z)) (sn : string).

Lemma present_any_bound arrays sn (b : nat) :
  (bound arrays sn <= b)%nat ->
  omap (slot arrays sn) (seq 0 b) = present arrays sn.
Proof.
  intros Hb. unfold present.
  replace b with (bound arrays sn + (b - bound arrays sn))%nat by lia.
  rewrite seq_app, omap_app.
  rewrite <- (app_nil_r (omap _ (seq 0 (bound arrays sn)))) at 2.
  f_equal. simpl.
  generalize (b - bound arrays sn)%nat as m.
  assert (H : forall m s, (bound arrays sn <= s)%nat ->
                          omap (slot arrays sn) (seq s m) = []).
  { induction m as [| m IH]; intros s Hs; csimpl; [reflexivity |].
    rewrite slot_above_bound by exact Hs. apply IH. lia. }
  intros m. apply H. lia.
Qed.

Lemma bound_le arrays sn (b : nat) :
  (forall name px N, (name, px) ∈ arrays -> match_frame name = Some (sn, N) ->
                     (N < b)%nat) ->
  (bound arrays sn <= b)%nat.
Proof.
  induction arrays as [| [name px] arrays IH] using rev_ind; intros H.
  - unfold bound. simpl. lia.
  - rewrite bound_snoc.
    assert (bound arrays sn <= b)%nat.
    { apply IH. intros n p N Hin. apply (H n p N), elem_of_app. left. exact Hin. }
    destruct (match_frame name) as [[s N] |] eqn:Hm; [| assumption].
    destruct (decide (s = sn)) as [-> | _]; [| assumption].
    assert (N < b)%nat.
    { apply (H name px N); [| exact Hm].
      apply elem_of_app. right. apply list_elem_of_here. }
    lia.
Qed.

Lemma slot_unique arrays sn N name px :
  (name, px) ∈ arrays -> match_frame name = Some (sn, N) ->
  (forall name' px', (name', px') ∈ arrays ->
                     match_frame name' = Some (sn, N) -> px' = px) ->
  slot arrays sn N = Some px.
Proof.
  induction arrays as [| [n p] arrays IH] using rev_ind; intros Hin Hm Hall.
  - inversion Hin.
  - rewrite slot_snoc.
    destruct (decide (match_frame n = Some (sn, N))) as [E | E].
    + f_equal. apply (Hall n p); [| exact E].
      apply elem_of_app. right. apply list_elem_of_here.
    + apply IH; [| exact Hm |].
      * apply elem_of_app in Hin as [Hin | Hin]; [exact Hin |].
        apply list_elem_of_singleton in Hin. injection Hin as -> ->.
        contradiction.
      * intros n' p' Hin'. apply (Hall n' p'), elem_of_app. left. exact Hin'.
Qed.

Lemma sprite_names_elem arrays sn name px N :
  (name, px) ∈ arrays -> match_frame name = Some (sn, N) ->
  sn ∈ sprite_names arrays.
Proof.
  intros Hin Hm. unfold sprite_names. apply list_elem_of_omap.
  exists (name, px). split; [exact Hin |]. simpl. rewrite Hm. reflexivity.
Qed.

End GroupFramesClaims.
Section GroupFramesTheorems.
Import Re.

Implicit Types (arrays : list (string * list Z)) (sn : string).

Lemma slot_none arrays sn N :
  (forall name px, (name, px) ∈ arrays -> match_frame name <> Some (sn, N)) ->
  slot arrays sn N = None.
Proof.
  induction arrays as [| [n p] arrays IH] using rev_ind; intros H.
  - reflexivity.
  - rewrite slot_snoc. rewrite decide_False.
    + apply IH. intros n' p' Hin. apply (H n' p'), elem_of_app. left. exact Hin.
    + apply (H n p), elem_of_app. right. apply list_elem_of_here.
Qed.

(** C5.  [group_frames] places each array whose name has the shape
    [sprite_<spriteName>_frame<N>] at slot N of that sprite's frame list
    (a later array with the same sprite and index replaces an earlier one,
    unseen slots hold the absent marker), and after all arrays are processed
    drops the absent slots in place: the final frame list of a sprite is the
    sequence of its present frames in ascending frame-index order.  Frames 0
    and 2 with frame 1 missing compact to a 2-frame sequence. *)
Theorem group_frames_compacts arrays sn :
  od_get (foldl place [] arrays) sn
    = (if decide (sn ∈ sprite_names arrays) then Some (slots arrays sn) else None) /\
  od_get (group_frames arrays) sn
    = (if decide (sn ∈ sprite_names arrays) then Some (present arrays sn) else None) /\
  present arrays sn = omap id (slots arrays sn) /\
  (forall N name px,
     (name, px) ∈ arrays -> match_frame name = Some (sn, N) ->
     (forall name' px', (name', px') ∈ arrays ->
                        match_frame name' = Some (sn, N) -> px' = px) ->
     (N < bound arrays sn)%nat /\ slots arrays sn !! N = Some (Some px)) /\
  (forall N,
     (N < bound arrays sn)%nat ->
     (forall name px, (name, px) ∈ arrays -> match_frame name <> Some (sn, N)) ->
     slots arrays sn !! N = Some None) /\
  (forall s ds : string,
     s <> ""%string -> forallb dot (list_ascii_of_string s) = true ->
     ds <> ""%string -> forallb digit (list_ascii_of_string ds) = true ->
     match_frame ("sprite_" +:+ s +:+ "_frame" +:+ ds)
     = Some (s, Z.to_nat (int_of 10 ds))) /\
  (forall p0 p2 : list Z,
     group_frames [("sprite_walk_frame0"%string, p0);
                   ("sprite_walk_frame2"%string, p2)]
     = [("walk"%string, [p0; p2])]).
Proof.
  split; [apply grouped_lookup |].
  split; [apply group_frames_lookup |].
  split; [unfold present, slots; symmetry; apply omap_id_fmap |].
  split.
  { intros N name px Hin Hm Hall.
    assert (Hb : (N < bound arrays sn)%nat).
    { destruct (decide (N < bound arrays sn)%nat) as [H | H]; [exact H |].
      pose proof (slot_above_bound arrays sn N ltac:(lia)) as Habs.
      rewrite (slot_unique arrays sn N name px Hin Hm Hall) in Habs.
      discriminate. }
    split; [exact Hb |]. unfold slots.
    rewrite list_lookup_fmap, lookup_seq_lt by exact Hb. simpl.
    f_equal. apply (slot_unique arrays sn N name px Hin Hm Hall). }
  split.
  { intros N Hb Hnone. unfold slots.
    rewrite list_lookup_fmap, lookup_seq_lt by exact Hb. simpl.
    f_equal. apply slot_none, Hnone. }
  split; [apply match_frame_convention |].
  intros p0 p2. reflexivity.
Qed.

Lemma group_frames_compacts_witness :
  od_get (group_frames [("sprite_a_frame2"%string, [2]);
                        ("sprite_b_frame0"%string, [5]);
                        ("sprite_a_frame0"%string, [0])]) "a"
  = Some [[0]; [2]] /\
  match_frame "sprite_egg_idle_frame07" = Some ("egg_idle"%string, 7%nat).
Proof.
  split.
  - destruct (group_frames_compacts
                [("sprite_a_frame2"%string, [2]); ("sprite_b_frame0"%string, [5]);
                 ("sprite_a_frame0"%string, [0])] "a") as (_ & H & _).
    rewrite H. reflexivity.
  - destruct (group_frames_compacts [] "") as (_ & _ & _ & _ & _ & H & _).
    apply (H "egg_idle"%string "07"%string); (discriminate || reflexivity).
Defined.

(** C6.  Arrays named sprite_egg_idle_frame0 and sprite_egg_idle_frame1,
    in either order and anywhere in the mapping, give sprite egg_idle the
    2-frame sequence with the frame0 data before the frame1 data, when no
    other array of the mapping belongs to egg_idle. *)
Theorem egg_idle_frame_order (p0 p1 : list Z) :
  group_frames [("sprite_egg_idle_frame0"%string, p0);
                ("sprite_egg_idle_frame1"%string, p1)]
    = [("egg_idle"%string, [p0; p1])] /\
  group_frames [("sprite_egg_idle_frame1"%string, p1);
                ("sprite_egg_idle_frame0"%string, p0)]
    = [("egg_idle"%string, [p0; p1])] /\
  (forall arrays,
     ("sprite_egg_idle_frame0"%string, p0) ∈ arrays ->
     ("sprite_egg_idle_frame1"%string, p1) ∈ arrays ->
     (forall name px N,
        (name, px) ∈ arrays -> match_frame name = Some ("egg_idle"%string, N) ->
        (name, px) = ("sprite_egg_idle_frame0"%string, p0) \/
        (name, px) = ("sprite_egg_idle_frame1"%string, p1)) ->
     od_get (group_frames arrays) "egg_idle" = Some [p0; p1]).
Proof.
  split; [reflexivity |]. split; [reflexivity |].
  intros arrays H0 H1 Honly.
  assert (M0 : match_frame "sprite_egg_idle_frame0" = Some ("egg_idle"%string, 0%nat))
    by reflexivity.
  assert (M1 : match_frame "sprite_egg_idle_frame1" = Some ("egg_idle"%string, 1%nat))
    by reflexivity.
  rewrite group_frames_lookup.
  rewrite decide_True by (eapply sprite_names_elem; [exact H0 | exact M0]).
  f_equal. rewrite <- (present_any_bound arrays "egg_idle" 2).
  - cbn [seq]. csimpl.
    rewrite (slot_unique arrays "egg_idle" 0 _ p0 H0 M0).
    + rewrite (slot_unique arrays "egg_idle" 1 _ p1 H1 M1); [reflexivity |].
      intros name px Hin Hm.
      destruct (Honly name px 1%nat Hin Hm) as [E | E]; injection E as -> ->;
        [rewrite M0 in Hm; discriminate | reflexivity].
    + intros name px Hin Hm.
      destruct (Honly name px 0%nat Hin Hm) as [E | E]; injection E as -> ->;
        [reflexivity | rewrite M1 in Hm; discriminate].
  - apply bound_le. intros name px N Hin Hm.
    destruct (Honly name px N Hin Hm) as [E | E]; injection E as -> ->.
    + rewrite M0 in Hm. injection Hm as <-. lia.
    + rewrite M1 in Hm. injection Hm as <-. lia.
Qed.

Lemma egg_idle_frame_order_witness :
  od_get (group_frames [("sprite_egg_idle_frame1"%string, [11]);
                        ("sprite_ghost_frame0"%string, [7]);
                        ("sprite_egg_idle_frame0"%string, [10])]) "egg_idle"
  = Some [[10]; [11]].
Proof.
  destruct (egg_idle_frame_order [10] [11]) as (_ & _ & H).
  apply H.
  - do 2 apply list_elem_of_further. apply list_elem_of_here.
  - apply list_elem_of_here.
  - intros name px N Hin Hm.
    apply elem_of_cons in Hin as [E | Hin]; [right; exact E |].
    apply elem_of_cons in Hin as [E | Hin].
    { injection E as -> ->. discriminate Hm. }
    apply list_elem_of_singleton in Hin. left. exact Hin.
Defined.

End GroupFramesTheorems.

Section Finditer.
Import Re.

Local Abbreviation s2l := list_ascii_of_string.

Variable pat : list item.

Lemma finditer_from_skip (a b : list ascii) :
  finditer_from pat (a ++ b) (length a) = finditer_from pat b 0.
Proof. induction a as [| c a IH]; simpl; [reflexivity | exact IH]. Qed.

(** No match starts inside [a]. *)
Lemma finditer_from_pass (a b : list ascii) :
  (forall a1 a2, a = a1 ++ a2 -> a2 <> [] -> exec pat (a2 ++ b) 0 [] = None) ->
  finditer_from pat (a ++ b) 0 = finditer_from pat b 0.
Proof.
  induction a as [| c a IH]; intros H; [reflexivity |].
  pose proof (H [] (c :: a) eq_refl ltac:(discriminate)) as E.
  simpl app in *. cbn [finditer_from]. rewrite E.
  apply IH. intros a1 a2 -> Hne. apply (H (c :: a1) a2); [reflexivity | exact Hne].
Qed.

(** A match of the whole of [m] at the head. *)
Lemma finditer_from_match (m b : list ascii) (marks : list nat) :
  m <> [] ->
  exec pat (m ++ b) 0 [] = Some (length m, marks) ->
  finditer_from pat (m ++ b) 0
  = groups (m ++ b) marks :: finditer_from pat b 0.
Proof.
  destruct m as [| c m]; [contradiction |]. intros _ E.
  simpl app in *. cbn [finditer_from]. rewrite E. f_equal.
  simpl length. replace (S (length m) - 1)%nat with (length m) by lia.
  apply finditer_from_skip.
Qed.

End Finditer.

Section HexValues.
Import Re.

Local Abbreviation s2l := list_ascii_of_string.

Lemma exec_hex_pattern_none (s : list ascii) :
  (forall t, s <> "0"%char :: "x"%char :: t) ->
  exec hex_pattern s 0 [] = None.
Proof.
  intros H. unfold hex_pattern. cbn [exec].
  change (s2l "0x") with ["0"%char; "x"%char].
  destruct s as [| c s]; cbn [strip_prefix]; [reflexivity |].
  destruct (Ascii.eqb_spec "0"%char c) as [<- |]; [| reflexivity].
  destruct s as [| d s]; cbn [strip_prefix]; [reflexivity |].
  destruct (Ascii.eqb_spec "x"%char d) as [<- |]; [| reflexivity].
  exfalso. apply (H s). reflexivity.
Qed.

Lemma exec_hex_pattern_run (ds rest : list ascii) :
  ds <> [] -> Forall (fun c => hex c = true) ds -> stops hex rest ->
  exec hex_pattern (s2l "0x" ++ ds ++ rest) 0 []
  = Some ((2 + length ds)%nat, [2; 2 + length ds]%nat).
Proof.
  intros Hne Hds Hrest. unfold hex_pattern. cbn [exec].
  rewrite strip_prefix_app. cbn [exec].
  eapply rep_run; [exact Hds | exact Hrest | |].
  - destruct ds; [contradiction | simpl; lia].
  - reflexivity.
Qed.

End HexValues.
Section BraceList.
Import Re.

Local Abbreviation s2l := list_ascii_of_string.

Lemma hex_pass (run R : list ascii) :
  Forall (fun c => c <> "x"%char) run -> not_x R ->
  finditer_from hex_pattern (run ++ R) 0 = finditer_from hex_pattern R 0.
Proof.
  intros Hrun HR. apply finditer_from_pass. intros a1 a2 -> Hne.
  apply exec_hex_pattern_none. intros t E.
  apply Forall_app in Hrun as [_ Hrun].
  destruct a2 as [| c [| d a2]]; [contradiction | |].
  - simpl in E. injection E as _ E. subst R. apply HR. reflexivity.
  - simpl in E. injection E as _ E _.
    inversion Hrun as [| ? ? _ Hrun']. inversion Hrun' as [| ? ? Hd _].
    apply Hd. exact E.
Qed.

Lemma separator_not_x (c : ascii) : separator c = true -> c <> "x"%char.
Proof. intros H ->. discriminate. Qed.

Lemma digit_not_x (c : ascii) : digit c = true -> c <> "x"%char.
Proof. intros H ->. discriminate. Qed.

Lemma separator_not_hex (c : ascii) : separator c = true -> hex c = false.
Proof.
  unfold separator, hex, between. intros H.
  repeat (apply orb_prop in H as [H | H]);
    apply N.eqb_eq in H; rewrite H; reflexivity.
Qed.

Lemma literal_text_head (lit : literal) :
  literal_ok lit ->
  exists c t, s2l (literal_text lit) = c :: t /\ digit c = true.
Proof.
  destruct lit as [ds | ds]; simpl; intros [Hne Hds].
  - eexists _, _. split; reflexivity.
  - destruct ds as [| c ds]; [contradiction |]. simpl in *.
    apply andb_prop in Hds as [Hc _]. eexists _, _. split; [reflexivity | exact Hc].
Qed.

Lemma body_text_not_x (toks : list (literal * string)) :
  body_ok toks -> not_x (s2l (body_text toks)).
Proof.
  destruct toks as [| [lit sep] rest]; simpl; [trivial |].
  intros (Hlit & _). rewrite list_ascii_of_string_app.
  destruct (literal_text_head lit Hlit) as (c & t & -> & Hc).
  simpl. apply digit_not_x, Hc.
Qed.

Lemma finditer_hex_body (toks : list (literal * string)) :
  body_ok toks ->
  finditer_from hex_pattern (s2l (body_text toks)) 0
  = omap (fun tok : literal * string =>
            match tok.1 with
            | HexLit ds => Some [ds]
            | DecLit _ => None
            end) toks.
Proof.
  induction toks as [| [lit sep] rest IH]; [reflexivity |].
  intros (Hlit & Hsep & Hlast & Hrest). specialize (IH Hrest).
  pose proof (body_text_not_x rest Hrest) as Hx.
  apply Forall_forallb in Hsep.
  assert (Hsepx : Forall (fun c => c <> "x"%char) (s2l sep))
    by (eapply Forall_impl; [exact Hsep | apply separator_not_x]).
  cbn [body_text]. rewrite !list_ascii_of_string_app. csimpl.
  destruct lit as [ds | ds]; destruct Hlit as [Hne Hds];
    apply Forall_forallb in Hds; simpl literal_text; simpl fst.
  - rewrite list_ascii_of_string_app, <- app_assoc.
    assert (Hstop : stops hex (s2l sep ++ s2l (body_text rest))).
    { destruct sep as [| c sep].
      - rewrite (Hlast eq_refl). exact I.
      - simpl. inversion Hsep. apply separator_not_hex. assumption. }
    assert (Hds0 : s2l ds <> []) by (destruct ds; [contradiction | discriminate]).
    pose proof (exec_hex_pattern_run (s2l ds) _ Hds0 Hds Hstop) as E.
    rewrite (app_assoc (s2l "0x")) in *.
    rewrite (finditer_from_match hex_pattern _ _ [2; 2 + length (s2l ds)]%nat).
    + rewrite hex_pass, IH by assumption. f_equal.
      cbn [groups]. rewrite <- !app_assoc.
      rewrite (drop_app_length' (s2l "0x") _ 2) by reflexivity.
      replace (2 + length (s2l ds) - 2)%nat with (length (s2l ds)) by lia.
      rewrite take_app_length, string_of_list_ascii_of_string. reflexivity.
    + discriminate.
    + rewrite E. rewrite length_app. reflexivity.
  - rewrite app_assoc, hex_pass, IH; [reflexivity | | exact Hx].
    apply Forall_app. split; [| exact Hsepx].
    eapply Forall_impl; [exact Hds | apply digit_not_x].
Qed.

(** From a brace list the hexadecimal literals are extracted, in order;
    the decimal ones are passed over. *)
Lemma hex_values_body (lead : string) (toks : list (literal * string)) :
  forallb separator (s2l lead) = true -> body_ok toks ->
  hex_values (lead +:+ body_text toks) = hex_literal_values toks.
Proof.
  intros Hlead Hok. unfold hex_values, finditer.
  rewrite list_ascii_of_string_app, hex_pass.
  - rewrite finditer_hex_body by exact Hok. unfold hex_literal_values.
    induction toks as [| [[ds | ds] sep] rest IH]; csimpl.
    + reflexivity.
    + destruct Hok as (_ & _ & _ & Hok). rewrite IH by exact Hok. reflexivity.
    + destruct Hok as (_ & _ & _ & Hok). apply IH, Hok.
  - eapply Forall_impl; [apply Forall_forallb, Hlead | apply separator_not_x].
  - apply body_text_not_x, Hok.
Qed.

End BraceList.

Section Declarations.
Import Re.

Local Abbreviation s2l := list_ascii_of_string.

Lemma exec_declaration (name count body rest : list ascii) :
  name <> [] -> Forall (fun c => word c = true) name ->
  count <> [] -> Forall (fun c => digit c = true) count ->
  body <> [] -> Forall (fun c => not_rbrace c = true) body ->
  exec pattern
    (s2l "constexpr" ++ s2l " " ++ s2l "uint16_t" ++ s2l " " ++ s2l "sprite_"
     ++ name ++ s2l "[" ++ count ++ s2l "]" ++ s2l " " ++ s2l "=" ++ s2l " "
     ++ s2l "{" ++ body ++ s2l "}" ++ s2l ";" ++ rest) 0 []
  = Some ((34 + length name + length count + length body)%nat,
          [19; 26 + length name; 32 + length name + length count;
           32 + length name + length count + length body]%nat).
Proof.
  intros Hn Hname Hc Hcount Hb Hbody.
  etransitivity.
  - unfold pattern.
    cbn [exec]. rewrite strip_prefix_app.
    eapply rep_run; [repeat constructor | reflexivity | simpl; lia |].
    cbn [exec]. rewrite strip_prefix_app.
    eapply rep_run; [repeat constructor | reflexivity | simpl; lia |].
    cbn [exec]. rewrite strip_prefix_app.
    eapply rep_run;
      [exact Hname | reflexivity | destruct name; [contradiction | simpl; lia] |].
    cbn [exec]. rewrite rep_stops by reflexivity. cbn [Nat.leb].
    rewrite strip_prefix_app.
    eapply rep_run;
      [exact Hcount | reflexivity | destruct count; [contradiction | simpl; lia] |].
    cbn [exec]. rewrite strip_prefix_app.
    eapply rep_run; [repeat constructor | reflexivity | simpl; lia |].
    cbn [exec]. rewrite strip_prefix_app.
    eapply rep_run; [repeat constructor | reflexivity | simpl; lia |].
    cbn [exec]. rewrite strip_prefix_app.
    eapply rep_run;
      [exact Hbody | reflexivity | destruct body; [contradiction | simpl; lia] |].
    cbn [exec]. rewrite strip_prefix_app.
    rewrite rep_stops by reflexivity. cbn [Nat.leb].
    rewrite strip_prefix_app. reflexivity.
  - simpl. repeat f_equal; lia.
Qed.

Lemma take_drop_middle {A} (p g q : list A) (i n : nat) :
  i = length p -> n = length g -> take n (drop i (p ++ g ++ q)) = g.
Proof.
  intros -> ->. rewrite drop_app_length. apply take_app_length.
Qed.

Lemma hex_not_rbrace (c : ascii) : hex c = true -> not_rbrace c = true.
Proof.
  unfold not_rbrace. intros H.
  destruct (code c =? 125)%N eqn:E; [| reflexivity].
  apply N.eqb_eq in E. unfold hex, between in H. rewrite E in H. discriminate.
Qed.

Lemma digit_not_rbrace (c : ascii) : digit c = true -> not_rbrace c = true.
Proof.
  unfold not_rbrace. intros H.
  destruct (code c =? 125)%N eqn:E; [| reflexivity].
  apply N.eqb_eq in E. unfold digit, between in H. rewrite E in H. discriminate.
Qed.

Lemma separator_not_rbrace (c : ascii) : separator c = true -> not_rbrace c = true.
Proof.
  unfold not_rbrace. intros H.
  destruct (code c =? 125)%N eqn:E; [| reflexivity].
  apply N.eqb_eq in E. unfold separator in H. rewrite E in H. discriminate.
Qed.

Lemma body_text_no_rbrace (toks : list (literal * string)) :
  body_ok toks -> Forall (fun c => not_rbrace c = true) (s2l (body_text toks)).
Proof.
  induction toks as [| [lit sep] rest IH]; [constructor |].
  intros (Hlit & Hsep & _ & Hrest). cbn [body_text].
  rewrite !list_ascii_of_string_app. apply Forall_app. split; [| apply Forall_app; split].
  - destruct lit as [ds | ds]; destruct Hlit as [_ Hds];
      apply Forall_forallb in Hds; simpl literal_text.
    + rewrite list_ascii_of_string_app. apply Forall_app. split.
      * repeat constructor.
      * eapply Forall_impl; [exact Hds | apply hex_not_rbrace].
    + eapply Forall_impl; [exact Hds | apply digit_not_rbrace].
  - eapply Forall_impl; [apply Forall_forallb, Hsep | apply separator_not_rbrace].
  - apply IH, Hrest.
Qed.

Lemma declaration_segments (d : declaration) (rest : list ascii) :
  s2l (declaration_text d) ++ rest
  = s2l "constexpr" ++ s2l " " ++ s2l "uint16_t" ++ s2l " " ++ s2l "sprite_"
    ++ s2l (d_name d) ++ s2l "[" ++ s2l (d_count d) ++ s2l "]" ++ s2l " "
    ++ s2l "=" ++ s2l " " ++ s2l "{" ++ s2l (brace_list d) ++ s2l "}"
    ++ s2l ";" ++ rest.
Proof.
  unfold declaration_text, declaration_name, brace_list.
  rewrite !list_ascii_of_string_app, <- !app_assoc. reflexivity.
Qed.

Lemma length_declaration (d : declaration) :
  length (s2l (declaration_text d))
  = (34 + length (s2l (d_name d)) + length (s2l (d_count d))
     + length (s2l (brace_list d)))%nat.
Proof.
  rewrite <- (app_nil_r (s2l (declaration_text d))), declaration_segments.
  rewrite !length_app. simpl. lia.
Qed.

Lemma exec_declaration_text (d : declaration) (rest : list ascii) :
  declaration_ok d ->
  exists marks,
    exec pattern (s2l (declaration_text d) ++ rest) 0 []
      = Some (length (s2l (declaration_text d)), marks) /\
    groups (s2l (declaration_text d) ++ rest) marks
      = [declaration_name d; brace_list d].
Proof.
  intros (Hn & Hname & Hc & Hcount & Hlead & Hbody & Hne).
  eexists. split.
  - rewrite declaration_segments, length_declaration.
    apply exec_declaration.
    + destruct (d_name d); [contradiction | discriminate].
    + apply Forall_forallb, Hname.
    + destruct (d_count d); [contradiction | discriminate].
    + apply Forall_forallb, Hcount.
    + fold (brace_list d) in Hne. destruct (brace_list d); [contradiction | discriminate].
    + unfold brace_list. rewrite list_ascii_of_string_app. apply Forall_app. split.
      * eapply Forall_impl; [apply Forall_forallb, Hlead | apply separator_not_rbrace].
      * apply body_text_no_rbrace, Hbody.
  - rewrite declaration_segments. cbn [groups]. f_equal; [| f_equal].
    + unfold declaration_name. rewrite <- string_of_list_ascii_of_string. f_equal.
      rewrite list_ascii_of_string_app.
      rewrite !(app_assoc (s2l "constexpr")), !(app_assoc _ (s2l "uint16_t")).
      rewrite !(app_assoc _ (s2l " ") (s2l "sprite_" ++ _)).
      rewrite (app_assoc (s2l "sprite_")).
      apply take_drop_middle; [reflexivity |].
      rewrite length_app. simpl. lia.
    + rewrite <- string_of_list_ascii_of_string. f_equal.
      rewrite !(app_assoc _ _ (s2l (brace_list d) ++ _)).
      apply take_drop_middle; [| lia].
      rewrite !length_app. simpl. lia.
Qed.

End Declarations.
Section ParseSpriteArrays.
Import Re.

Local Abbreviation s2l := list_ascii_of_string.



Lemma od_set_fresh {V} (d : list (string * V)) k v :
  k ∉ d.*1 -> od_set d k v = d ++ [(k, v)].
Proof.
  induction d as [| [k' w] d IH]; intros Hk; simpl; [reflexivity |].
  apply not_elem_of_cons in Hk as [Hne Hk].
  destruct (String.eqb_spec k' k) as [-> | _]; [contradiction |].
  rewrite IH by exact Hk. reflexivity.
Qed.

Lemma foldl_od_set_fresh {A V} (key : A -> string) (val : A -> V)
    (xs : list A) (acc : list (string * V)) :
  NoDup (key <$> xs) -> (forall x, x ∈ xs -> key x ∉ acc.*1) ->
  foldl (fun d x => od_set d (key x) (val x)) acc xs
  = acc ++ ((fun x => (key x, val x)) <$> xs).
Proof.
  revert acc. induction xs as [| x xs IH]; intros acc Hnd Hacc; csimpl.
  - rewrite app_nil_r. reflexivity.
  - apply NoDup_cons in Hnd as [Hx Hnd].
    rewrite od_set_fresh by (apply Hacc, list_elem_of_here).
    rewrite IH; [rewrite <- app_assoc; reflexivity | exact Hnd |].
    intros y Hy. rewrite fmap_app. apply not_elem_of_app. split.
    + apply Hacc, list_elem_of_further, Hy.
    + simpl. intros H. apply list_elem_of_singleton in H.
      apply Hx. rewrite <- H. apply list_elem_of_fmap_2, Hy.
Qed.


End ParseSpriteArrays.
Section ParseClaims.
Import Re.




End ParseClaims.
Section Scenario.
Import Py.

(** The end-to-end scenario of the tools: a 48x24 sheet of two cells, the
    first fully transparent, the second solid opaque blue, written as
    [SpriteData.h] and read back. *)
Example sheet_round_trip :
  let sheet := Image (48, 24)
                 (fun x _ => if x <? 24 then (255, 0, 255, 0) else (0, 0, 255, 255)) in
  let png := fun file : string =>
               if String.eqb file "egg_idle.png" then Some sheet else None in
  exists text,
    generate_spritedata png DEFAULT_ANIM_CONFIG 24 24 None = Return text /\
    group_frames (parse_sprite_arrays text)
    = [("egg_idle"%string,
        [replicate 576 TRANSPARENT_RGB565; replicate 576 (rgb565 0 0 255)])].
Proof.
  intros sheet png. eexists. split.
  - vm_compute. reflexivity.
  - vm_compute. reflexivity.
Qed.

Example format_array_round_trip :
  exists text,
    format_array "egg_idle" 3 [0xF81F; 0x001F; 0; 0xFFFF; 0x0A0B] 2 = Return text /\
    parse_sprite_arrays text
    = [("sprite_egg_idle_frame3"%string, [0xF81F; 0x001F; 0; 0xFFFF; 0x0A0B])].
Proof. eexists. split; vm_compute; reflexivity. Qed.

End Scenario.

(** * Further properties of the code *)

Section CodecExtras.

Lemma decode_fields (val : Z) :
  rgb565_to_rgb val
  = let r5 := (val / 2048) mod 32 in
    let g6 := (val / 32) mod 64 in
    let b5 := val mod 32 in
    (r5 * 8 + r5 / 4, g6 * 4 + g6 / 16, b5 * 8 + b5 / 4).
Proof.
  unfold rgb565_to_rgb. cbv zeta.
  change 0x1F with (Z.ones 5). change 0x3F with (Z.ones 6).
  rewrite !Z.land_ones, !(Z.shiftr_div_pow2 val) by lia.
  change (2 ^ 11) with 2048. change (2 ^ 5) with 32. change (2 ^ 6) with 64.
  assert (Hr : 0 <= (val / 2048) mod 32 < 2 ^ 5) by (apply Z.mod_pos_bound; lia).
  assert (Hg : 0 <= (val / 32) mod 64 < 2 ^ 6) by (apply Z.mod_pos_bound; lia).
  assert (Hb : 0 <= val mod 32 < 2 ^ 5) by (apply Z.mod_pos_bound; lia).
  rewrite (replicate_low _ 3 5), (replicate_low _ 2 6), (replicate_low _ 3 5)
    by lia.
  change (2 ^ 3) with 8. change (2 ^ 2) with 4.
  change (2 ^ 5) with 32 in *. change (2 ^ 6) with 64 in *.
  f_equal; [f_equal |]; Z.div_mod_to_equations; lia.
Qed.

(** X1.  Encoding a decoded value gives the value back: on 16-bit values
    [rgb_to_rgb565] is a left inverse of [rgb565_to_rgb], the decoded
    components are 8-bit, and so decoding is injective. *)
Theorem encode_decode_identity (v : Z) :
  0 <= v <= 0xFFFF ->
  exists r g b,
    rgb565_to_rgb v = (r, g, b) /\
    component r /\ component g /\ component b /\
    rgb_to_rgb565 r g b = v /\
    (v <> TRANSPARENT_RGB565 -> rgb565 r g b = v) /\
    (forall v', 0 <= v' <= 0xFFFF -> rgb565_to_rgb v' = (r, g, b) -> v' = v).
Proof.
  intros Hv. rewrite decode_fields. cbv zeta.
  eexists _, _, _. split; [reflexivity |].
  assert (Hr : 0 <= (v / 2048) mod 32 < 32) by (apply Z.mod_pos_bound; lia).
  assert (Hg : 0 <= (v / 32) mod 64 < 64) by (apply Z.mod_pos_bound; lia).
  assert (Hb : 0 <= v mod 32 < 32) by (apply Z.mod_pos_bound; lia).
  assert (Cr : component ((v / 2048) mod 32 * 8 + (v / 2048) mod 32 / 4))
    by (unfold component; Z.div_mod_to_equations; lia).
  assert (Cg : component ((v / 32) mod 64 * 4 + (v / 32) mod 64 / 16))
    by (unfold component; Z.div_mod_to_equations; lia).
  assert (Cb : component (v mod 32 * 8 + v mod 32 / 4))
    by (unfold component; Z.div_mod_to_equations; lia).
  assert (E : rgb_to_rgb565 ((v / 2048) mod 32 * 8 + (v / 2048) mod 32 / 4)
                ((v / 32) mod 64 * 4 + (v / 32) mod 64 / 16)
                (v mod 32 * 8 + v mod 32 / 4) = v).
  { rewrite rgb_to_rgb565_arith by assumption. Z.div_mod_to_equations. lia. }
  repeat (split; [assumption |]). split.
  - intros Hne. rewrite rgb565_unfold, E.
    apply Z.eqb_neq in Hne. rewrite Hne. reflexivity.
  - intros v' Hv' E'. rewrite decode_fields in E'. cbv zeta in E'.
    injection E' as E1 E2 E3. Z.div_mod_to_equations. lia.
Qed.

Lemma encode_decode_identity_witness :
  exists r g b, rgb565_to_rgb 0x07E0 = (r, g, b) /\ rgb_to_rgb565 r g b = 0x07E0.
Proof.
  destruct (encode_decode_identity 0x07E0 ltac:(lia))
    as (r & g & b & E & _ & _ & _ & H & _).
  exists r, g, b. split; assumption.
Defined.

(** X2.  Decoding never leaves the 8-bit range: for every integer, of any
    size or sign, the three components lie in [0,255], and only the low 16
    bits of the argument matter. *)
Theorem decode_components_in_range (val : Z) :
  (let '(r, g, b) := rgb565_to_rgb val in
   component r /\ component g /\ component b) /\
  rgb565_to_rgb val = rgb565_to_rgb (val mod 65536).
Proof.
  rewrite !decode_fields. cbv zeta.
  assert (Hr : 0 <= (val / 2048) mod 32 < 32) by (apply Z.mod_pos_bound; lia).
  assert (Hg : 0 <= (val / 32) mod 64 < 64) by (apply Z.mod_pos_bound; lia).
  assert (Hb : 0 <= val mod 32 < 32) by (apply Z.mod_pos_bound; lia).
  split.
  - unfold component. repeat split; Z.div_mod_to_equations; lia.
  - assert (E1 : (val mod 65536 / 2048) mod 32 = (val / 2048) mod 32)
      by (Z.div_mod_to_equations; lia).
    assert (E2 : (val mod 65536 / 32) mod 64 = (val / 32) mod 64)
      by (Z.div_mod_to_equations; lia).
    assert (E3 : (val mod 65536) mod 32 = val mod 32)
      by (Z.div_mod_to_equations; lia).
    rewrite E1, E2, E3. reflexivity.
Qed.

End CodecExtras.

Section ConvertSpriteExtras.
Import Py.

Lemma length_range (n : Z) : length (range n) = Z.to_nat n.
Proof. unfold range. rewrite length_fmap, length_seq. reflexivity. Qed.

Lemma length_concat_fmap {A B} (f : A -> list B) (l : list A) (m : nat) :
  (forall x, x ∈ l -> length (f x) = m) ->
  length (concat (f <$> l)) = (length l * m)%nat.
Proof.
  induction l as [| x l IH]; intros H; [reflexivity |].
  rewrite fmap_cons. cbn [concat]. rewrite length_app, IH.
  - rewrite (H x) by apply list_elem_of_here. reflexivity.
  - intros y Hy. apply H, list_elem_of_further, Hy.
Qed.

Lemma length_cell (img : image) (fw fh : Z) (f : rgba -> Z) (row col : Z) :
  length (cell img fw fh f row col) = (Z.to_nat fh * Z.to_nat fw)%nat.
Proof.
  unfold cell. rewrite (length_concat_fmap _ _ (Z.to_nat fw)).
  - rewrite length_range. reflexivity.
  - intros y _. rewrite length_fmap. apply length_range.
Qed.

Lemma length_cells (img : image) (fw fh : Z) (f : rgba -> Z) (rows cols : Z) :
  length (cells img fw fh f rows cols) = (Z.to_nat rows * Z.to_nat cols)%nat.
Proof.
  unfold cells. rewrite (length_concat_fmap _ _ (Z.to_nat cols)).
  - rewrite length_range. reflexivity.
  - intros y _. rewrite length_fmap. apply length_range.
Qed.

Lemma Forall_cells (P : list Z -> Prop) (img : image) (fw fh : Z)
    (f : rgba -> Z) (rows cols : Z) :
  (forall row col, P (cell img fw fh f row col)) ->
  Forall P (cells img fw fh f rows cols).
Proof.
  intros H. unfold cells. apply Forall_concat, Forall_fmap, Forall_forall.
  intros row _. apply Forall_fmap, Forall_forall. intros col _. apply H.
Qed.

Lemma Forall_cell (P : Z -> Prop) (img : image) (fw fh : Z)
    (f : rgba -> Z) (row col : Z) :
  (forall px, P (f px)) -> Forall P (cell img fw fh f row col).
Proof.
  intros H. unfold cell. apply Forall_concat, Forall_fmap, Forall_forall.
  intros y _. apply Forall_fmap, Forall_forall. intros x _. apply H.
Qed.

(** X3.  A completed conversion returns rows x cols frames, each of
    frame_height x frame_width values; a strip of n cells with the column
    count omitted gives exactly n frames. *)
Theorem convert_sprite_shape (img : image) (frame_width frame_height : Z)
    (key : option (Z * Z * Z)) :
  (forall cols frames,
     convert_sprite img frame_width frame_height key cols = Return frames ->
     length frames
       = (Z.to_nat ((size img).2 / frame_height)%Z
          * Z.to_nat (default ((size img).1 / frame_width)%Z cols))%nat /\
     Forall (fun frame =>
               length frame = (Z.to_nat frame_height * Z.to_nat frame_width)%nat)
            frames) /\
  (forall n,
     0 < frame_width -> 0 < frame_height -> 0 < n ->
     size img = (n * frame_width, frame_height) ->
     exists frames,
       convert_sprite img frame_width frame_height key None = Return frames /\
       length frames = Z.to_nat n).
Proof.
  split.
  - intros cols frames E.
    apply (convert_sprite_returned _ _ _ _ (convert_pixel key)) in E;
      [| reflexivity].
    destruct E as (_ & _ & ->). split; [apply length_cells |].
    apply Forall_cells. intros row col. apply length_cell.
  - intros n Hw Hh Hn Hsize.
    rewrite convert_sprite_in_bounds by (simpl; lia).
    rewrite Hsize. simpl.
    rewrite Z.div_mul, Z.div_same by lia.
    destruct (n =? 0) eqn:E0; [lia |]. simpl.
    eexists. split; [reflexivity |]. rewrite length_cells.
    change (Z.to_nat 1) with 1%nat. lia.
Qed.

Lemma convert_sprite_shape_witness :
  exists frames,
    convert_sprite (Image (3 * 2, 2) (fun _ _ => (1, 2, 3, 255))) 2 2 None None
      = Return frames /\
    length frames = 3%nat.
Proof.
  destruct (convert_sprite_shape (Image (3 * 2, 2) (fun _ _ => (1, 2, 3, 255)))
              2 2 None) as [_ H].
  apply (H 3); (lia || reflexivity).
Defined.

Lemma convert_pixel_16bit (key : option (Z * Z * Z)) (r g b a : Z) :
  component r -> component g -> component b ->
  0 <= convert_pixel key (r, g, b, a) <= 0xFFFF.
Proof.
  intros Hr Hg Hb. rewrite convert_pixel_cases.
  destruct (decide _); [unfold TRANSPARENT_RGB565; lia |].
  destruct (a <? 128); [unfold TRANSPARENT_RGB565; lia |].
  rewrite rgb565_unfold. destruct (_ =? _); [lia |].
  rewrite rgb_to_rgb565_arith by assumption.
  unfold component in *. Z.div_mod_to_equations. lia.
Qed.

(** X4.  For an image whose pixels have 8-bit colour components, every value
    of every frame a conversion returns is a 16-bit value. *)
Theorem convert_sprite_values_16bit (img : image) (frame_width frame_height : Z)
    (key : option (Z * Z * Z)) (cols : option Z) (frames : list (list Z)) :
  (forall x y, component (pixel img x y).1.1.1 /\
               component (pixel img x y).1.1.2 /\
               component (pixel img x y).1.2) ->
  convert_sprite img frame_width frame_height key cols = Return frames ->
  Forall (Forall (fun v => 0 <= v <= 0xFFFF)) frames.
Proof.
  intros Himg E.
  apply (convert_sprite_returned _ _ _ _ (convert_pixel key)) in E;
    [| reflexivity].
  destruct E as (_ & _ & ->).
  apply Forall_cells. intros row col. unfold cell.
  apply Forall_concat, Forall_fmap, Forall_forall. intros y _.
  apply Forall_fmap, Forall_forall. intros x _. simpl.
  destruct (Himg (col * frame_width + x) (row * frame_height + y)) as (Hr & Hg & Hb).
  destruct (pixel img _ _) as [[[r g] b] a]. simpl in *.
  apply convert_pixel_16bit; assumption.
Qed.

Lemma convert_sprite_values_16bit_witness :
  Forall (Forall (fun v => 0 <= v <= 0xFFFF)) [[0xF81E]; [0xF81E]].
Proof.
  apply (convert_sprite_values_16bit (Image (2, 1) (fun _ _ => (255, 0, 255, 255)))
           1 1 None None).
  - intros x y. simpl. unfold component. lia.
  - reflexivity.
Defined.

Lemma cells_no_cols (img : image) (fw fh : Z) (f : rgba -> Z) (rows cols : Z) :
  cols <= 0 -> cells img fw fh f rows cols = [].
Proof.
  intros Hc. unfold cells.
  assert (E : range cols = []).
  { unfold range. replace (Z.to_nat cols) with 0%nat by lia. reflexivity. }
  rewrite E. induction (range rows) as [| x l IH]; [reflexivity | exact IH].
Qed.

(** X5.  How a conversion ends: a zero frame width or height raises
    ZeroDivisionError before anything else; otherwise a zero column or row
    count exits with status 1, even when the zero is a supplied column count
    and the image is large; otherwise, with at most floor(width/frame_width)
    columns, the conversion returns.  A negative frame width on a non-empty
    image is not an error: the frame list is empty. *)
Theorem convert_sprite_outcome (img : image) (frame_width frame_height : Z)
    (key : option (Z * Z * Z)) (cols : option Z) :
  (frame_width = 0 \/ frame_height = 0 ->
   convert_sprite img frame_width frame_height key cols = Raise ZeroDivisionError) /\
  (frame_width <> 0 -> frame_height <> 0 ->
   default ((size img).1 / frame_width) cols = 0 \/ (size img).2 / frame_height = 0 ->
   convert_sprite img frame_width frame_height key cols = Raise (SystemExit 1)) /\
  (frame_width <> 0 -> frame_height <> 0 ->
   default ((size img).1 / frame_width) cols <> 0 ->
   (size img).2 / frame_height <> 0 ->
   default ((size img).1 / frame_width) cols <= (size img).1 / frame_width ->
   exists frames,
     convert_sprite img frame_width frame_height key cols = Return frames) /\
  (frame_width < 0 -> 0 < frame_height -> 0 < (size img).1 ->
   frame_height <= (size img).2 ->
   convert_sprite img frame_width frame_height key None = Return []).
Proof.
  split; [| split; [| split]].
  - intros H. rewrite convert_sprite_unfold. unfold floordiv.
    destruct (Z.eqb_spec frame_width 0); [reflexivity |].
    destruct (Z.eqb_spec frame_height 0); [reflexivity | lia].
  - intros Hw Hh H. rewrite convert_sprite_unfold. unfold floordiv.
    destruct (Z.eqb_spec frame_width 0); [lia |].
    destruct (Z.eqb_spec frame_height 0); [lia |]. simpl.
    replace (match cols with Some c => c | None => (size img).1 / frame_width end)
      with (default ((size img).1 / frame_width) cols) by (destruct cols; reflexivity).
    destruct H as [-> | ->]; [reflexivity |].
    rewrite orb_true_r. reflexivity.
  - intros Hw Hh Hc Hr Hle. rewrite convert_sprite_in_bounds by assumption.
    apply Z.eqb_neq in Hc, Hr. rewrite Hc, Hr. eexists. reflexivity.
  - intros Hw Hh Hiw Hih. rewrite convert_sprite_in_bounds by (simpl; lia).
    simpl.
    assert (Hc : (size img).1 / frame_width < 0)
      by (Z.div_mod_to_equations; nia).
    assert (Hr : 0 < (size img).2 / frame_height)
      by (apply Z.div_str_pos; lia).
    destruct (Z.eqb_spec ((size img).1 / frame_width) 0); [lia |].
    destruct (Z.eqb_spec ((size img).2 / frame_height) 0); [lia |]. simpl.
    f_equal. apply cells_no_cols. lia.
Qed.

Lemma convert_sprite_outcome_witness :
  convert_sprite (Image (48, 24) (fun _ _ => (0, 0, 0, 255))) 0 24 None None
    = Raise ZeroDivisionError /\
  convert_sprite (Image (48, 24) (fun _ _ => (0, 0, 0, 255))) 24 24 None (Some 0)
    = Raise (SystemExit 1) /\
  convert_sprite (Image (48, 24) (fun _ _ => (0, 0, 0, 255))) (-24) 24 None None
    = Return [].
Proof.
  destruct (convert_sprite_outcome (Image (48, 24) (fun _ _ => (0, 0, 0, 255)))
              0 24 None None) as (H1 & _).
  destruct (convert_sprite_outcome (Image (48, 24) (fun _ _ => (0, 0, 0, 255)))
              24 24 None (Some 0)) as (_ & H2 & _).
  destruct (convert_sprite_outcome (Image (48, 24) (fun _ _ => (0, 0, 0, 255)))
              (-24) 24 None None) as (_ & _ & _ & H4).
  split; [apply H1; left; reflexivity |].
  split; [apply H2; (lia || (left; reflexivity)) |].
  apply H4; simpl; lia.
Defined.

End ConvertSpriteExtras.

Section FramePng.
Import Py.

Variable resize : image -> Z * Z -> result image.
Variable pixels : list Z.
Variables width height : Z.

(** The pixel drawn for index [idx] of the data; transparent beyond it. *)
Let drawn (idx : Z) : rgba :=
  match pixels !! Z.to_nat idx with
  | Some v => paint v
  | None => (0, 0, 0, 0)
  end.

Let row_body (y : Z) (img : image) (x : Z) : result (flow image) :=
  let idx := y * width + x in
  if Z.of_nat (length pixels) <=? idx then Return (Break img)
  else
    let* val := index pixels idx in
    if val =? TRANSPARENT_RGB565
    then let* img := putpixel img (x, y) (0, 0, 0, 0) in Return (Next img)
    else
      let '(r, g, b) := rgb565_to_rgb val in
      let* img := putpixel img (x, y) (r, g, b, 255) in Return (Next img).

Lemma index_inside {A} (l : list A) (i : Z) (a : A) :
  0 <= i -> l !! Z.to_nat i = Some a -> index l i = Return a.
Proof.
  intros Hi E. unfold index.
  destruct (Z.ltb_spec i 0); [lia |].
  destruct (Z.ltb_spec i 0); [lia |]. rewrite E. reflexivity.
Qed.

Lemma putpixel_inside (img : image) (x y : Z) (v : rgba) :
  0 <= x < (size img).1 -> 0 <= y < (size img).2 ->
  putpixel img (x, y) v
  = Return (Image (size img)
              (fun x' y' => if (x' =? x) && (y' =? y) then v else pixel img x' y')).
Proof.
  unfold putpixel. destruct (size img) as [w h]. simpl. intros Hx Hy.
  destruct (Z.ltb_spec x 0); [lia |]. destruct (Z.ltb_spec y 0); [lia |].
  destruct (Z.ltb_spec x 0); [lia |]. destruct (Z.ltb_spec y 0); [lia |].
  destruct (Z.leb_spec w x); [lia |]. destruct (Z.leb_spec h y); [lia |].
  reflexivity.
Qed.

Lemma row_body_draws (y : Z) (img : image) (x : Z) :
  0 <= x < (size img).1 -> 0 <= y < (size img).2 -> 0 <= width ->
  y * width + x < Z.of_nat (length pixels) ->
  row_body y img x
  = Return (Next (Image (size img)
                    (fun x' y' => if (x' =? x) && (y' =? y)
                                  then drawn (y * width + x)
                                  else pixel img x' y'))).
Proof.
  intros Hx Hy Hw Hidx. unfold row_body. cbv zeta.
  destruct (Z.leb_spec (Z.of_nat (length pixels)) (y * width + x)); [lia |].
  assert (H0 : 0 <= y * width + x) by nia.
  destruct (lookup_lt_is_Some_2 pixels (Z.to_nat (y * width + x))) as [v Hv];
    [lia |].
  rewrite (index_inside _ _ v H0 Hv). cbn [bind].
  unfold drawn. rewrite Hv. unfold paint.
  destruct (v =? TRANSPARENT_RGB565).
  - rewrite putpixel_inside by assumption. reflexivity.
  - destruct (rgb565_to_rgb v) as [[r g] b].
    rewrite putpixel_inside by assumption. reflexivity.
Qed.

Lemma paint_row (y : Z) (n a : nat) (img : image) :
  0 <= y < height -> 0 <= width ->
  (a + n)%nat = Z.to_nat width -> size img = (width, height) ->
  exists img',
    for_break (Z.of_nat <$> seq a n) (row_body y) img = Return img' /\
    size img' = (width, height) /\
    forall x' y',
      pixel img' x' y'
      = if (y' =? y) && (Z.of_nat a <=? x') && (x' <? width)
           && (y * width + x' <? Z.of_nat (length pixels))
        then drawn (y * width + x')
        else pixel img x' y'.
Proof.
  intros Hy Hw. revert a img.
  induction n as [| n IH]; intros a img Ha Hsize.
  - exists img. split; [reflexivity |]. split; [exact Hsize |].
    intros x' y'.
    destruct (Z.leb_spec (Z.of_nat a) x'), (Z.ltb_spec x' width);
      rewrite ?andb_false_r; simpl; try reflexivity; lia.
  - cbn [seq fmap list_fmap for_break].
    destruct (Z.le_gt_cases (Z.of_nat (length pixels)) (y * width + Z.of_nat a))
      as [Hout | Hin].
    + unfold row_body at 1. cbv zeta.
      destruct (Z.leb_spec (Z.of_nat (length pixels)) (y * width + Z.of_nat a));
        [| lia].
      exists img. split; [reflexivity |]. split; [exact Hsize |].
      intros x' y'.
      destruct (Z.leb_spec (Z.of_nat a) x'); rewrite ?andb_false_r; simpl;
        [| reflexivity].
      destruct (Z.ltb_spec (y * width + x') (Z.of_nat (length pixels)));
        rewrite ?andb_false_r; [nia | reflexivity].
    + rewrite row_body_draws by (rewrite ?Hsize; simpl; lia).
      destruct (IH (S a)
                  (Image (size img)
                     (fun x' y' => if (x' =? Z.of_nat a) && (y' =? y)
                                   then drawn (y * width + Z.of_nat a)
                                   else pixel img x' y')))
        as (img' & E & Hs & Hp); [lia | exact Hsize |].
      exists img'. split; [exact E |]. split; [exact Hs |].
      intros x' y'. rewrite Hp. simpl pixel.
      destruct (Z.eqb_spec y' y) as [-> | Hne]; simpl;
        [| rewrite andb_false_r; reflexivity].
      destruct (Z.eqb_spec x' (Z.of_nat a)) as [-> | Hxa].
      * destruct (Z.leb_spec (Z.of_nat (S a)) (Z.of_nat a)); [lia |]. simpl.
        destruct (Z.leb_spec (Z.of_nat a) (Z.of_nat a)); [| lia].
        destruct (Z.ltb_spec (Z.of_nat a) width); [| lia].
        destruct (Z.ltb_spec (y * width + Z.of_nat a) (Z.of_nat (length pixels)));
          [reflexivity | lia].
      * simpl.
        destruct (Z.leb_spec (Z.of_nat (S a)) x'), (Z.leb_spec (Z.of_nat a) x');
          simpl; try reflexivity; lia.
Qed.

Lemma paint_rows (m b : nat) (img : image) :
  0 <= width -> (b + m)%nat = Z.to_nat height -> 0 <= height ->
  size img = (width, height) ->
  exists img',
    for_each (Z.of_nat <$> seq b m)
      (fun img y => for_break (range width) (row_body y) img) img = Return img' /\
    size img' = (width, height) /\
    forall x' y',
      pixel img' x' y'
      = if (Z.of_nat b <=? y') && (y' <? height) && (0 <=? x') && (x' <? width)
           && (y' * width + x' <? Z.of_nat (length pixels))
        then drawn (y' * width + x')
        else pixel img x' y'.
Proof.
  intros Hw. revert b img.
  induction m as [| m IH]; intros b img Hb Hh Hsize.
  - exists img. split; [reflexivity |]. split; [exact Hsize |].
    intros x' y'.
    destruct (Z.leb_spec (Z.of_nat b) y'), (Z.ltb_spec y' height);
      simpl; try reflexivity; lia.
  - cbn [seq fmap list_fmap for_each].
    destruct (paint_row (Z.of_nat b) (Z.to_nat width) 0 img)
      as (img1 & E1 & Hs1 & Hp1); [lia | exact Hw | lia | exact Hsize |].
    fold (range width) in E1. rewrite E1. cbn [bind].
    destruct (IH (S b) img1) as (img' & E & Hs & Hp); [lia | exact Hh | exact Hs1 |].
    exists img'. split; [exact E |]. split; [exact Hs |].
    intros x' y'. rewrite Hp, Hp1.
    change (Z.of_nat 0) with 0.
    destruct (Z.eqb_spec y' (Z.of_nat b)) as [-> | Hne].
    + destruct (Z.leb_spec (Z.of_nat (S b)) (Z.of_nat b)); [lia |].
      destruct (Z.leb_spec (Z.of_nat b) (Z.of_nat b)); [| lia].
      destruct (Z.ltb_spec (Z.of_nat b) height); [| lia]. reflexivity.
    + simpl.
      destruct (Z.leb_spec (Z.of_nat (S b)) y'), (Z.leb_spec (Z.of_nat b) y');
        simpl; try reflexivity; lia.
Qed.

Lemma create_frame_png_rows (scale : Z) :
  create_frame_png resize pixels width height scale
  = let* img := new_rgba (width, height) in
    let* img := for_each (range height)
                  (fun img y => for_break (range width) (row_body y) img) img in
    if 1 <? scale then resize img (width * scale, height * scale)
    else Return img.
Proof. reflexivity. Qed.

(** The image [create_frame_png] draws, without resizing. *)
Lemma create_frame_png_drawn (scale : Z) :
  0 <= width -> 0 <= height -> scale <= 1 ->
  exists img,
    create_frame_png resize pixels width height scale = Return img /\
    size img = (width, height) /\
    forall x y,
      pixel img x y
      = if (0 <=? y) && (y <? height) && (0 <=? x) && (x <? width)
        then drawn (y * width + x)
        else (0, 0, 0, 0).
Proof.
  intros Hw Hh Hs. rewrite create_frame_png_rows. unfold new_rgba.
  destruct (Z.ltb_spec width 0); [lia |]. destruct (Z.ltb_spec height 0); [lia |].
  cbn [orb bind].
  destruct (paint_rows (Z.to_nat height) 0
              (Image (width, height) (fun _ _ => (0, 0, 0, 0))))
    as (img & E & Hsize & Hp); [exact Hw | lia | exact Hh | reflexivity |].
  fold (range height) in E. rewrite E. cbn [bind].
  destruct (Z.ltb_spec 1 scale); [lia |].
  exists img. split; [reflexivity |]. split; [exact Hsize |].
  intros x y. rewrite Hp. simpl pixel. change (Z.of_nat 0) with 0.
  destruct ((0 <=? y) && (y <? height) && (0 <=? x) && (x <? width)) eqn:Eb;
    simpl; [| reflexivity].
  destruct (Z.ltb_spec (y * width + x) (Z.of_nat (length pixels)));
    [reflexivity |].
  unfold drawn. rewrite lookup_ge_None_2; [reflexivity | lia].
Qed.

End FramePng.

Section Grids.
Import Py.

Lemma fmap_seq_lookup {A} (g : nat -> A) (l : list A) (n : nat) :
  length l = n -> (forall i, (i < n)%nat -> l !! i = Some (g i)) ->
  g <$> seq 0 n = l.
Proof.
  intros Hl H. apply list_eq. intros i. rewrite list_lookup_fmap.
  destruct (decide (i < n)%nat) as [Hi | Hi].
  - rewrite lookup_seq_lt, H by exact Hi. reflexivity.
  - rewrite lookup_seq_ge, lookup_ge_None_2 by lia. reflexivity.
Qed.

(** A list of [h * w] elements read row by row. *)
Lemma grid_list {A} (g : nat -> nat -> A) (w h : nat) (l : list A) :
  length l = (h * w)%nat ->
  (forall y x, (y < h)%nat -> (x < w)%nat -> l !! (y * w + x)%nat = Some (g y x)) ->
  concat ((fun y => g y <$> seq 0 w) <$> seq 0 h) = l.
Proof.
  revert g l. induction h as [| h IH]; intros g l Hl H.
  - destruct l; [reflexivity | discriminate].
  - rewrite <- cons_seq, fmap_cons. cbn [concat].
    rewrite <- fmap_S_seq, <- list_fmap_compose.
    transitivity (take w l ++ drop w l); [| apply take_drop]. f_equal.
    + apply fmap_seq_lookup.
      * rewrite length_take. simpl in Hl. lia.
      * intros x Hx. rewrite lookup_take_lt by exact Hx.
        apply (H 0%nat x); lia.
    + apply (IH (fun y => g (S y))).
      * rewrite length_drop. simpl in Hl. lia.
      * intros y x Hy Hx. rewrite lookup_drop.
        rewrite <- (H (S y) x) by lia. f_equal. simpl. lia.
Qed.

Lemma fmap_range {A} (G : Z -> A) (n : Z) :
  G <$> range n = (fun i => G (Z.of_nat i)) <$> seq 0 (Z.to_nat n).
Proof. unfold range. rewrite <- list_fmap_compose. reflexivity. Qed.

Lemma grid_range {A} (G : Z -> Z -> A) (w h : Z) (l : list A) :
  0 <= w -> 0 <= h -> Z.of_nat (length l) = h * w ->
  (forall y x, 0 <= y < h -> 0 <= x < w ->
               l !! Z.to_nat (y * w + x) = Some (G y x)) ->
  concat ((fun y => G y <$> range w) <$> range h) = l.
Proof.
  intros Hw Hh Hl H. rewrite fmap_range.
  rewrite (list_fmap_ext _ (fun y => (fun x => G (Z.of_nat y) (Z.of_nat x))
                                       <$> seq 0 (Z.to_nat w)) (seq 0 (Z.to_nat h)))
    by (intros i y _; apply fmap_range).
  apply (grid_list (fun y x => G (Z.of_nat y) (Z.of_nat x))).
  - nia.
  - intros y x Hy Hx. rewrite <- (H (Z.of_nat y) (Z.of_nat x)) by lia.
    f_equal. nia.
Qed.

End Grids.

Section RoundTrip.
Import Py.

Variable resize : image -> Z * Z -> result image.

Lemma rgb565_decode (v : Z) :
  0 <= v <= 0xFFFF ->
  let '(r, g, b) := rgb565_to_rgb v in
  rgb_to_rgb565 r g b = v.
Proof.
  intros Hv. rewrite decode_fields. cbv beta iota zeta.
  assert (Hr : 0 <= (v / 2048) mod 32 < 32) by (apply Z.mod_pos_bound; lia).
  assert (Hg : 0 <= (v / 32) mod 64 < 64) by (apply Z.mod_pos_bound; lia).
  assert (Hb : 0 <= v mod 32 < 32) by (apply Z.mod_pos_bound; lia).
  rewrite rgb_to_rgb565_arith
    by (unfold component; Z.div_mod_to_equations; lia).
  Z.div_mod_to_equations. lia.
Qed.

(** Drawing a 16-bit value and converting the pixel gives the value back. *)
Lemma convert_pixel_paint (v : Z) :
  0 <= v <= 0xFFFF -> convert_pixel None (paint v) = v.
Proof.
  intros Hv. unfold paint.
  destruct (Z.eqb_spec v TRANSPARENT_RGB565) as [-> | Hne]; [reflexivity |].
  pose proof (rgb565_decode v Hv) as E.
  destruct (rgb565_to_rgb v) as [[r g] b].
  unfold convert_pixel. cbv zeta. rewrite E.
  apply Z.eqb_neq in Hne. rewrite Hne. reflexivity.
Qed.

(** A cell whose pixels are the drawn values of [pixels] converts to
    [pixels]. *)
Lemma cell_of_drawn (img : image) (pixels : list Z) (w h row col : Z) :
  0 <= w -> 0 <= h -> Z.of_nat (length pixels) = h * w ->
  Forall (fun v => 0 <= v <= 0xFFFF) pixels ->
  (forall x y v, 0 <= x < w -> 0 <= y < h ->
                 pixels !! Z.to_nat (y * w + x) = Some v ->
                 pixel img (col * w + x) (row * h + y) = paint v) ->
  cell img w h (convert_pixel None) row col = pixels.
Proof.
  intros Hw Hh Hl H16 Hp. unfold cell.
  apply (grid_range (fun y x => convert_pixel None
                                  (pixel img (col * w + x) (row * h + y))));
    try assumption.
  intros y x Hy Hx.
  destruct (lookup_lt_is_Some_2 pixels (Z.to_nat (y * w + x))) as [v Hv]; [nia |].
  rewrite Hv, (Hp x y v Hx Hy Hv). f_equal. symmetry.
  apply convert_pixel_paint.
  rewrite Forall_forall in H16. apply H16. eapply list_elem_of_lookup_2, Hv.
Qed.

End RoundTrip.

Section SheetRoundTrip.
Import Py.

Variable resize : image -> Z * Z -> result image.
Variables w h : Z.
Hypothesis Hw : 0 < w.
Hypothesis Hh : 0 < h.

Let paste_body (sheet : image) (entry : Z * list Z) : result image :=
  let '(i, pixels) := entry in
  let* frame_img := create_frame_png resize pixels w h 1 in
  Return (paste sheet frame_img (i * w, 0)).

Lemma paste_frames (frames : list (list Z)) (k : nat) (sheet : image) :
  exists sheet',
    for_each (imap (fun i a => (Z.of_nat (k + i), a)) frames) paste_body sheet
      = Return sheet' /\
    size sheet' = size sheet /\
    (forall X Y, X < Z.of_nat k * w -> pixel sheet' X Y = pixel sheet X Y) /\
    (forall i p x y v,
       frames !! i = Some p -> 0 <= x < w -> 0 <= y < h ->
       p !! Z.to_nat (y * w + x) = Some v ->
       pixel sheet' (Z.of_nat (k + i) * w + x) y = paint v).
Proof.
  revert k sheet. induction frames as [| p0 frames IH]; intros k sheet.
  - exists sheet. split; [reflexivity |]. split; [reflexivity |].
    split; [reflexivity |]. intros i p x y v Hi. discriminate.
  - rewrite imap_cons. cbn [for_each]. unfold paste_body at 1.
    destruct (create_frame_png_drawn resize p0 w h 1)
      as (f0 & E0 & Hs0 & Hp0); [lia | lia | lia |].
    rewrite E0. cbn [bind].
    destruct (IH (S k) (paste sheet f0 (Z.of_nat (k + 0) * w, 0)))
      as (sheet' & E & Hs & Hleft & Hin).
    rewrite (imap_ext _ (fun i a => (Z.of_nat (S k + i), a)))
      by (intros i a _; unfold compose; f_equal; lia).
    exists sheet'. split; [exact E |].
    split; [rewrite Hs; unfold paste; rewrite Hs0; reflexivity |]. split.
    + intros X Y HX. rewrite Hleft by lia. unfold paste. rewrite Hs0. simpl.
      destruct (Z.leb_spec (Z.of_nat (k + 0) * w) X); [nia | reflexivity].
    + intros [| i] p x y v Hi Hx Hy Hv.
      * injection Hi as <-. rewrite Hleft by nia.
        unfold paste. rewrite Hs0. simpl.
        destruct (Z.leb_spec (Z.of_nat (k + 0) * w) (Z.of_nat (k + 0) * w + x));
          [| lia].
        destruct (Z.ltb_spec (Z.of_nat (k + 0) * w + x) (Z.of_nat (k + 0) * w + w));
          [| lia].
        destruct (Z.leb_spec 0 y); [| lia]. destruct (Z.ltb_spec y (0 + h)); [| lia].
        simpl. rewrite Hp0.
        replace (Z.of_nat (k + 0) * w + x - Z.of_nat (k + 0) * w) with x by lia.
        replace (y - 0) with y by lia.
        destruct (Z.leb_spec 0 y); [| lia]. destruct (Z.ltb_spec y h); [| lia].
        destruct (Z.leb_spec 0 x); [| lia]. destruct (Z.ltb_spec x w); [| lia].
        simpl. rewrite Hv. reflexivity.
      * replace (Z.of_nat (k + S i)) with (Z.of_nat (S k + i)) by lia.
        apply (Hin i p x y v Hi Hx Hy Hv).
Qed.

(** The sheet [create_spritesheet] composes, without resizing. *)
Lemma create_spritesheet_drawn (frames : list (list Z)) (scale : Z) :
  scale <= 1 ->
  exists sheet,
    create_spritesheet resize frames w h scale = Return sheet /\
    size sheet = (w * Z.of_nat (length frames), h) /\
    (forall i p x y v,
       frames !! i = Some p -> 0 <= x < w -> 0 <= y < h ->
       p !! Z.to_nat (y * w + x) = Some v ->
       pixel sheet (Z.of_nat i * w + x) y = paint v).
Proof.
  intros Hs. unfold create_spritesheet, new_rgba. cbv zeta.
  destruct (Z.ltb_spec (w * Z.of_nat (length frames)) 0); [nia |].
  destruct (Z.ltb_spec h 0); [lia |]. cbn [orb bind].
  destruct (paste_frames frames 0
              (Image (w * Z.of_nat (length frames), h) (fun _ _ => (0, 0, 0, 0))))
    as (sheet & E & Hsize & _ & Hin).
  change (for_each (enumerate frames) paste_body
            (Image (w * Z.of_nat (length frames), h) (fun _ _ => (0, 0, 0, 0)))
          = Return sheet) in E.
  unfold paste_body in E. rewrite E. cbn [bind].
  destruct (Z.ltb_spec 1 scale); [lia |].
  exists sheet. split; [reflexivity |]. split; [exact Hsize |]. exact Hin.
Qed.

(** An image holding the drawn frames side by side converts to them. *)
Lemma drawn_sheet_converts (img : image) (frames : list (list Z)) :
  frames <> [] ->
  Forall (fun p => Z.of_nat (length p) = w * h /\
                   Forall (fun v => 0 <= v <= 0xFFFF) p) frames ->
  size img = (w * Z.of_nat (length frames), h) ->
  (forall i p x y v,
     frames !! i = Some p -> 0 <= x < w -> 0 <= y < h ->
     p !! Z.to_nat (y * w + x) = Some v ->
     pixel img (Z.of_nat i * w + x) y = paint v) ->
  convert_sprite img w h None None = Return frames.
Proof.
  intros Hne Hok Hsize Hp.
  assert (Hn : 0 < Z.of_nat (length frames))
    by (destruct frames; [contradiction | simpl; lia]).
  rewrite convert_sprite_in_bounds by (rewrite ?Hsize; simpl; lia).
  rewrite Hsize. cbn [fst snd default].
  rewrite (Z.mul_comm w), Z.div_mul, Z.div_same by lia.
  destruct (Z.eqb_spec (Z.of_nat (length frames)) 0); [lia |].
  cbn [Z.eqb orb]. f_equal.
  unfold cells. change (range 1) with [0]. cbn [fmap list_fmap concat].
  rewrite app_nil_r, fmap_range, Nat2Z.id.
  apply fmap_seq_lookup; [reflexivity |].
  intros i Hi.
  destruct (lookup_lt_is_Some_2 frames i Hi) as [p Hpi].
  rewrite Hpi. f_equal. symmetry.
  rewrite Forall_forall in Hok.
  destruct (Hok p) as [Hl H16]; [eapply list_elem_of_lookup_2, Hpi |].
  apply cell_of_drawn; try lia; try assumption.
  intros x y v Hx Hy Hv. replace (0 * h + y) with y by lia.
  apply (Hp i p x y v Hpi Hx Hy Hv).
Qed.

Lemma frame_is_sheet (img : image) (pixels : list Z) :
  size img = (w, h) ->
  (forall x y,
     pixel img x y
     = if (0 <=? y) && (y <? h) && (0 <=? x) && (x <? w)
       then match pixels !! Z.to_nat (y * w + x) with
            | Some v => paint v
            | None => (0, 0, 0, 0)
            end
       else (0, 0, 0, 0)) ->
  size img = (w * Z.of_nat (length [pixels]), h) /\
  (forall i p x y v,
     [pixels] !! i = Some p -> 0 <= x < w -> 0 <= y < h ->
     p !! Z.to_nat (y * w + x) = Some v ->
     pixel img (Z.of_nat i * w + x) y = paint v).
Proof.
  intros Hsize Hp. split; [rewrite Hsize; simpl; f_equal; lia |].
  intros [| i] p x y v Hi Hx Hy Hv; [| destruct i; discriminate].
  injection Hi as <-. rewrite Hp. replace (Z.of_nat 0 * w + x) with x by lia.
  destruct (Z.leb_spec 0 y); [| lia]. destruct (Z.ltb_spec y h); [| lia].
  destruct (Z.leb_spec 0 x); [| lia]. destruct (Z.ltb_spec x w); [| lia].
  simpl. rewrite Hv. reflexivity.
Qed.

End SheetRoundTrip.

Section RasterExtras.
Import Py.

Variable resize : image -> Z * Z -> result image.

(** X6.  [create_frame_png] without resizing returns a width x height image
    in which pixel (x, y) is drawn from the value at index y*width + x: the
    sentinel as the fully transparent (0,0,0,0), any other value as its
    decoded colour with alpha 255.  Where the data is too short the pixel
    stays (0,0,0,0); data beyond width*height is not read.  A negative width
    or height raises ValueError. *)
Theorem create_frame_png_pixels (pixels : list Z) (width height scale : Z) :
  (width < 0 \/ height < 0 ->
   create_frame_png resize pixels width height scale = Raise ValueError) /\
  (0 <= width -> 0 <= height -> scale <= 1 ->
   exists img,
     create_frame_png resize pixels width height scale = Return img /\
     size img = (width, height) /\
     forall x y, 0 <= x < width -> 0 <= y < height ->
       pixel img x y
       = match pixels !! Z.to_nat (y * width + x) with
         | Some v =>
             if v =? TRANSPARENT_RGB565 then (0, 0, 0, 0)
             else let '(r, g, b) := rgb565_to_rgb v in (r, g, b, 255)
         | None => (0, 0, 0, 0)
         end).
Proof.
  split.
  - intros H. unfold create_frame_png, new_rgba.
    destruct (Z.ltb_spec width 0); [reflexivity |].
    destruct (Z.ltb_spec height 0); [reflexivity | lia].
  - intros Hw Hh Hs.
    destruct (create_frame_png_drawn resize pixels width height scale Hw Hh Hs)
      as (img & E & Hsize & Hp).
    exists img. split; [exact E |]. split; [exact Hsize |].
    intros x y Hx Hy. rewrite Hp.
    destruct (Z.leb_spec 0 y); [| lia]. destruct (Z.ltb_spec y height); [| lia].
    destruct (Z.leb_spec 0 x); [| lia]. destruct (Z.ltb_spec x width); [| lia].
    reflexivity.
Qed.

(** X7.  Header to PNG to header is the identity on a frame: a frame of
    width*height 16-bit values drawn by [create_frame_png] and converted by
    [convert_sprite] with the same frame size and alpha transparency comes
    back unchanged. *)
Theorem frame_png_round_trip (pixels : list Z) (width height scale : Z) :
  0 < width -> 0 < height -> scale <= 1 ->
  Z.of_nat (length pixels) = width * height ->
  Forall (fun v => 0 <= v <= 0xFFFF) pixels ->
  exists img,
    create_frame_png resize pixels width height scale = Return img /\
    convert_sprite img width height None None = Return [pixels].
Proof.
  intros Hw Hh Hs Hl H16.
  destruct (create_frame_png_drawn resize pixels width height scale)
    as (img & E & Hsize & Hp); [lia | lia | exact Hs |].
  exists img. split; [exact E |].
  destruct (frame_is_sheet width height img pixels Hsize Hp) as [Hsz Hpx].
  apply (drawn_sheet_converts width height Hw Hh img [pixels]);
    [discriminate | | exact Hsz | exact Hpx].
  repeat constructor; assumption.
Qed.

(** X8.  Splitting inverts composing: a non-empty list of frames, each of
    width*height 16-bit values, laid out by [create_spritesheet] as a strip
    of width*count x height and converted by [convert_sprite] with the
    column count omitted comes back as the same frames in the same order. *)
Theorem spritesheet_round_trip (frames : list (list Z)) (width height scale : Z) :
  0 < width -> 0 < height -> scale <= 1 -> frames <> [] ->
  Forall (fun p => Z.of_nat (length p) = width * height /\
                   Forall (fun v => 0 <= v <= 0xFFFF) p) frames ->
  exists sheet,
    create_spritesheet resize frames width height scale = Return sheet /\
    size sheet = (width * Z.of_nat (length frames), height) /\
    convert_sprite sheet width height None None = Return frames.
Proof.
  intros Hw Hh Hs Hne Hok.
  destruct (create_spritesheet_drawn resize width height Hw Hh frames scale Hs)
    as (sheet & E & Hsize & Hp).
  exists sheet. split; [exact E |]. split; [exact Hsize |].
  apply (drawn_sheet_converts width height Hw Hh sheet frames); assumption.
Qed.

(** X9.  The spritesheet export of a sprite keeps exactly the frames that
    have width*height values, in order, and drops the others without an
    error: with none left the sprite is skipped, otherwise the exported
    image is the strip of the kept frames, which converts back to them. *)
Theorem export_sprite_keeps_valid (frame_list : list (list Z))
    (width height scale : Z) :
  0 < width -> 0 < height -> scale <= 1 ->
  Forall (Forall (fun v => 0 <= v <= 0xFFFF)) frame_list ->
  let valid :=
    filter (fun f => Z.of_nat (length f) = width * height) frame_list in
  (valid = [] ->
   export_sprite resize frame_list width height scale = Return None) /\
  (valid <> [] ->
   exists img,
     export_sprite resize frame_list width height scale = Return (Some img) /\
     size img = (width * Z.of_nat (length valid), height) /\
     convert_sprite img width height None None = Return valid).
Proof.
  intros Hw Hh Hs H16 valid.
  assert (Hok : Forall (fun p => Z.of_nat (length p) = width * height /\
                                 Forall (fun v => 0 <= v <= 0xFFFF) p) valid).
  { apply Forall_forall. intros p Hp. apply list_elem_of_filter in Hp as [Hl Hin].
    split; [exact Hl |]. rewrite Forall_forall in H16. apply H16, Hin. }
  unfold export_sprite. cbv zeta. fold valid.
  split; [intros ->; reflexivity |]. intros Hne.
  destruct valid as [| p [| q rest]] eqn:Ev; [contradiction | |].
  - destruct (create_frame_png_drawn resize p width height scale)
      as (img & E & Hsize & Hp); [lia | lia | exact Hs |].
    rewrite E. cbn [bind]. exists img. split; [reflexivity |].
    destruct (frame_is_sheet width height img p Hsize Hp) as [Hsz Hpx].
    split; [exact Hsz |].
    apply (drawn_sheet_converts width height Hw Hh img [p]); assumption.
  - destruct (create_spritesheet_drawn resize width height Hw Hh (p :: q :: rest)
                scale Hs) as (sheet & E & Hsize & Hp).
    rewrite E. cbn [bind]. exists sheet. split; [reflexivity |].
    split; [exact Hsize |].
    apply (drawn_sheet_converts width height Hw Hh sheet (p :: q :: rest));
      assumption.
Qed.

End RasterExtras.

Section RasterWitnesses.
Import Py.

Lemma create_frame_png_pixels_witness :
  exists img,
    create_frame_png (fun img _ => Return img) [0xF81F; 0xFFFF; 1] 2 2 1
      = Return img /\
    size img = (2, 2).
Proof.
  destruct (create_frame_png_pixels (fun img _ => Return img)
              [0xF81F; 0xFFFF; 1] 2 2 1) as [_ H].
  destruct H as (img & E & Hs & _); [lia | lia | lia |].
  exists img. split; assumption.
Defined.

Lemma frame_png_round_trip_witness :
  exists img,
    create_frame_png (fun img _ => Return img) [0xF81F; 0xFFFF; 1; 0x07E0] 2 2 1
      = Return img /\
    convert_sprite img 2 2 None None = Return [[0xF81F; 0xFFFF; 1; 0x07E0]].
Proof.
  apply (frame_png_round_trip (fun img _ => Return img)
           [0xF81F; 0xFFFF; 1; 0x07E0] 2 2 1); try lia; try reflexivity.
  repeat constructor; lia.
Defined.

Lemma spritesheet_round_trip_witness :
  exists sheet,
    create_spritesheet (fun img _ => Return img) [[0xF81F; 7]; [1; 2]] 2 1 1
      = Return sheet /\
    size sheet = (2 * 2, 1) /\
    convert_sprite sheet 2 1 None None = Return [[0xF81F; 7]; [1; 2]].
Proof.
  apply (spritesheet_round_trip (fun img _ => Return img)
           [[0xF81F; 7]; [1; 2]] 2 1 1); try lia; try discriminate.
  repeat constructor; lia.
Defined.

Lemma export_sprite_keeps_valid_witness :
  exists img,
    export_sprite (fun img _ => Return img) [[1; 2]; [3]; [4; 5]] 2 1 1
      = Return (Some img) /\
    convert_sprite img 2 1 None None = Return [[1; 2]; [4; 5]].
Proof.
  destruct (export_sprite_keeps_valid (fun img _ => Return img)
              [[1; 2]; [3]; [4; 5]] 2 1 1) as [_ H];
    try lia; [repeat constructor; lia |].
  destruct H as (img & E & _ & C); [discriminate |].
  exists img. split; assumption.
Defined.

End RasterWitnesses.

Section Numerals.
Import Py Re.

Local Abbreviation s2l := list_ascii_of_string.

Let hex_step (acc : Z) (c : ascii) : Z := acc * 16 + digit_value c.
Let hex_text (d : Hexadecimal.uint) : string :=
  map_string upper (HexadecimalString.NilEmpty.string_of_uint d).
Let dec_step (acc : Z) (c : ascii) : Z := acc * 10 + digit_value c.
Let dec_text (d : Decimal.uint) : string :=
  DecimalString.NilEmpty.string_of_uint d.

Lemma hex_text_acc (d : Hexadecimal.uint) (acc : positive) :
  foldl hex_step (Z.pos acc) (s2l (hex_text d))
  = Z.pos (Pos.of_hex_uint_acc d acc).
Proof.
  revert acc. unfold hex_text.
  induction d; intros acc;
    cbn [HexadecimalString.NilEmpty.string_of_uint map_string
         list_ascii_of_string foldl Pos.of_hex_uint_acc];
    [reflexivity
    | rewrite <- IHd; f_equal; unfold hex_step; vm_compute digit_value; lia ..].
Qed.

Lemma hex_text_value (d : Hexadecimal.uint) :
  foldl hex_step 0 (s2l (hex_text d)) = Z.of_N (Pos.of_hex_uint d).
Proof.
  induction d;
    cbn [hex_text HexadecimalString.NilEmpty.string_of_uint map_string
         list_ascii_of_string foldl Pos.of_hex_uint];
    [reflexivity | exact IHd | apply hex_text_acc ..].
Qed.

Lemma hex_text_hex (d : Hexadecimal.uint) :
  forallb hex (s2l (hex_text d)) = true.
Proof. induction d; [reflexivity | exact IHd ..]. Qed.

Lemma hex_text_nonempty (d : Hexadecimal.uint) :
  d <> Hexadecimal.Nil -> hex_text d <> ""%string.
Proof. destruct d; [contradiction | discriminate ..]. Qed.

Lemma dec_text_acc (d : Decimal.uint) (acc : positive) :
  foldl dec_step (Z.pos acc) (s2l (dec_text d))
  = Z.pos (Pos.of_uint_acc d acc).
Proof.
  revert acc. unfold dec_text.
  induction d; intros acc;
    cbn [DecimalString.NilEmpty.string_of_uint
         list_ascii_of_string foldl Pos.of_uint_acc];
    [reflexivity
    | rewrite <- IHd; f_equal; unfold dec_step; vm_compute digit_value; lia ..].
Qed.

Lemma dec_text_value (d : Decimal.uint) :
  foldl dec_step 0 (s2l (dec_text d)) = Z.of_N (Pos.of_uint d).
Proof.
  induction d;
    cbn [dec_text DecimalString.NilEmpty.string_of_uint
         list_ascii_of_string foldl Pos.of_uint];
    [reflexivity | exact IHd | apply dec_text_acc ..].
Qed.

Lemma dec_text_digit (d : Decimal.uint) :
  forallb digit (s2l (dec_text d)) = true.
Proof. induction d; [reflexivity | exact IHd ..]. Qed.

Lemma str_text (n : Z) :
  0 <= n -> str n = dec_text (N.to_uint (Z.to_N n)) /\
            N.to_uint (Z.to_N n) <> Decimal.Nil.
Proof.
  intros Hn. unfold str, dec_text. destruct n as [| p | p]; [| | lia].
  - split; [reflexivity | discriminate].
  - simpl. pose proof (DecimalPos.Unsigned.to_uint_nonnil p) as Hp.
    split; [| exact Hp].
    destruct (Pos.to_uint p); [contradiction | reflexivity ..].
Qed.

(** [str(n)] of a natural number is a non-empty string of decimal digits
    that [int] reads back. *)
Lemma str_digits (n : Z) :
  0 <= n ->
  str n <> ""%string /\ forallb digit (s2l (str n)) = true /\
  int_of 10 (str n) = n.
Proof.
  intros Hn. destruct (str_text n Hn) as [-> Hne]. split; [| split].
  - destruct (N.to_uint (Z.to_N n)); [contradiction | discriminate ..].
  - apply dec_text_digit.
  - unfold int_of. fold dec_step. rewrite dec_text_value.
    change (Pos.of_uint (N.to_uint (Z.to_N n)))
      with (N.of_uint (N.to_uint (Z.to_N n))).
    rewrite DecimalN.Unsigned.of_to. lia.
Qed.

Lemma zeros_hex (k : nat) (s : string) :
  forallb hex (s2l (zeros k +:+ s)) = forallb hex (s2l s) /\
  foldl hex_step 0 (s2l (zeros k +:+ s)) = foldl hex_step 0 (s2l s).
Proof.
  induction k as [| k [IH1 IH2]]; [split; reflexivity |].
  split; [exact IH1 | exact IH2].
Qed.

(** [format(v, "04X")] of a natural number is a non-empty string of
    hexadecimal digits that [int(_, 16)] reads back. *)
Lemma format_04X_digits (v : Z) :
  0 <= v ->
  format_04X v <> ""%string /\ forallb hex (s2l (format_04X v)) = true /\
  int_of 16 (format_04X v) = v.
Proof.
  intros Hv. unfold format_04X.
  destruct (Z.ltb_spec v 0) as [| _]; [lia |].
  assert (E : HexadecimalString.NilZero.string_of_uint (N.to_hex_uint (Z.abs_N v))
              = HexadecimalString.NilEmpty.string_of_uint
                  (N.to_hex_uint (Z.abs_N v)) /\
              N.to_hex_uint (Z.abs_N v) <> Hexadecimal.Nil).
  { destruct (Z.abs_N v) as [| p]; [split; [reflexivity | discriminate] |].
    simpl. pose proof (HexadecimalPos.Unsigned.to_uint_nonnil p) as Hp.
    split; [| exact Hp].
    destruct (Pos.to_hex_uint p); [contradiction | reflexivity ..]. }
  destruct E as [-> Hne]. fold (hex_text (N.to_hex_uint (Z.abs_N v))).
  set (d := N.to_hex_uint (Z.abs_N v)) in *.
  destruct (zeros_hex (4 - String.length (hex_text d)) (hex_text d)) as [E1 E2].
  split; [| split].
  - intros H. apply (f_equal (fun s => length (s2l s))) in H.
    rewrite list_ascii_of_string_app, length_app in H.
    pose proof (hex_text_nonempty d Hne) as Hd.
    destruct (hex_text d); [contradiction | simpl in H; lia].
  - unfold "+:+" in *. rewrite E1. apply hex_text_hex.
  - unfold int_of. fold hex_step. unfold "+:+" in *. rewrite E2, hex_text_value.
    subst d. change (Pos.of_hex_uint (N.to_hex_uint (Z.abs_N v)))
      with (N.of_hex_uint (N.to_hex_uint (Z.abs_N v))).
    rewrite HexadecimalN.Unsigned.of_to. lia.
Qed.

End Numerals.

Section ArrayLayout.
Import Py Re.

Local Abbreviation s2l := list_ascii_of_string.

Lemma append_assoc (a b c : string) : (a +:+ b) +:+ c = a +:+ (b +:+ c).
Proof.
  unfold "+:+". induction a as [| x a IH]; simpl; [reflexivity |].
  rewrite IH. reflexivity.
Qed.

Lemma append_nil_r (a : string) : a +:+ "" = a.
Proof.
  unfold "+:+". induction a as [| x a IH]; simpl; [reflexivity |].
  rewrite IH. reflexivity.
Qed.

Lemma join_lines (ls : list string) (t : string) :
  join newline (ls ++ [t]) = lines_text ls +:+ t.
Proof.
  unfold join. induction ls as [| l ls IH]; [reflexivity |].
  change ((l :: ls) ++ [t]) with (l :: (ls ++ [t])).
  cbn [lines_text]. rewrite !append_assoc, <- IH.
  destruct ls; reflexivity.
Qed.

Lemma body_text_app (a b : list (literal * string)) :
  body_text (a ++ b) = body_text a +:+ body_text b.
Proof.
  induction a as [| [lit sep] a IH]; [reflexivity |].
  simpl app. cbn [body_text]. rewrite IH, !append_assoc. reflexivity.
Qed.

Let hex_text (v : Z) : string := "0x" +:+ format_04X v.

Lemma body_text_row (row : list Z) (sep : string) :
  row <> [] ->
  body_text (row_toks row sep) = join ", " (hex_text <$> row) +:+ sep.
Proof.
  intros Hne. induction row as [| v row IH]; [contradiction |].
  destruct row as [| v' row].
  - cbn [row_toks body_text]. rewrite append_nil_r. reflexivity.
  - change (row_toks (v :: v' :: row) sep)
      with ((hex_literal v, ", "%string) :: row_toks (v' :: row) sep).
    cbn [body_text]. rewrite IH by discriminate.
    change (join ", " (hex_text <$> v :: v' :: row))
      with (hex_text v +:+ ", " +:+ join ", " (hex_text <$> v' :: row)).
    rewrite !append_assoc. reflexivity.
Qed.

Let row_line (row : list Z) : string :=
  "    " +:+ join ", " (hex_text <$> row) +:+ ",".

Lemma lines_text_rows (rs : list (list Z)) :
  Forall (fun row => row <> []) rs -> rs <> [] ->
  lines_text (row_line <$> rs) = "    " +:+ body_text (rows_toks rs).
Proof.
  induction rs as [| r rs IH]; intros Hne Hrs; [contradiction |].
  inversion Hne as [| ? ? Hr Hrest]; subst.
  destruct rs as [| r' rs].
  - cbn [fmap list_fmap lines_text rows_toks]. unfold row_line.
    rewrite body_text_row by exact Hr.
    rewrite !append_assoc, append_nil_r. reflexivity.
  - change (rows_toks (r :: r' :: rs))
      with (row_toks r ("," +:+ newline +:+ "    ") ++ rows_toks (r' :: rs)).
    rewrite body_text_app, body_text_row by exact Hr.
    rewrite fmap_cons. cbn [lines_text].
    rewrite IH by (assumption || discriminate).
    unfold row_line. rewrite !append_assoc. reflexivity.
Qed.

Section Rows.
Variables (data : list Z) (width : Z).
Hypothesis Hw : 0 < width.

Let W := Z.to_nat width.
Let M := Z.to_nat ((Z.of_nat (length data) + width - 1) / width).

Lemma rows_seq :
  rows data width = (fun i => take W (drop (i * W) data)) <$> seq 0 M.
Proof.
  unfold rows, range. rewrite <- list_fmap_compose.
  apply list_fmap_ext. intros _ i _. simpl. f_equal. f_equal. subst W. lia.
Qed.

Lemma rows_count : (length data <= M * W < length data + W)%nat.
Proof.
  subst M W.
  assert (H : Z.of_nat (length data)
              <= (Z.of_nat (length data) + width - 1) / width * width
              < Z.of_nat (length data) + width)
    by (Z.div_mod_to_equations; nia).
  assert (0 <= (Z.of_nat (length data) + width - 1) / width)
    by (apply Z.div_pos; lia).
  nia.
Qed.

Lemma chunks_concat (l : list Z) (w m : nat) :
  concat ((fun i => take w (drop (i * w) l)) <$> seq 0 m) = take (m * w) l.
Proof.
  induction m as [| m IH]; [reflexivity |].
  rewrite seq_S, fmap_app, concat_app, IH. simpl.
  rewrite app_nil_r, take_take_drop. f_equal. lia.
Qed.

Lemma concat_rows : concat (rows data width) = data.
Proof.
  rewrite rows_seq, chunks_concat. apply take_ge. apply rows_count.
Qed.

Lemma rows_nonempty : Forall (fun row => row <> []) (rows data width).
Proof.
  rewrite rows_seq. apply Forall_fmap, Forall_forall. intros i Hi.
  apply elem_of_seq in Hi. simpl. intros E.
  apply (f_equal length) in E. rewrite length_take, length_drop in E.
  pose proof rows_count. simpl in E.
  assert (0 < W)%nat by (subst W; lia). nia.
Qed.

Lemma rows_nil : rows data width = [] <-> data = [].
Proof.
  split.
  - intros E. rewrite <- concat_rows, E. reflexivity.
  - intros ->. unfold rows. simpl length.
    rewrite Z.div_small by lia. reflexivity.
Qed.

End Rows.

Lemma format_array_text (name : string) (frame_idx : Z) (data : list Z)
    (width : Z) :
  0 < width ->
  Sprite2c.format_array name frame_idx data width
  = Return (declaration_text (array_declaration name frame_idx data width)).
Proof.
  intros Hw. unfold Sprite2c.format_array, range_step.
  destruct (Z.eqb_spec width 0) as [| _]; [lia |].
  destruct (Z.ltb_spec 0 width) as [_ |]; [| lia].
  cbn [bind]. cbv zeta. f_equal.
  rewrite (foldl_append_each
             (fun row_start =>
                "    " +:+ join ", "
                  ((fun v => "0x" +:+ format_04X v)
                     <$> take (Z.to_nat width) (drop (Z.to_nat row_start) data))
                +:+ ",")).
  change (String (ascii_of_nat 10) "") with newline.
  rewrite join_lines. cbn [app lines_text].
  rewrite <- list_fmap_compose.
  change (_ ∘ _ <$> range ?m)
    with (row_line ∘ (fun k => take (Z.to_nat width)
                                 (drop (Z.to_nat (k * width)) data)) <$> range m).
  rewrite list_fmap_compose. fold (rows data width).
  unfold declaration_text, declaration_name, array_declaration, array_name.
  cbn [d_name d_count d_lead d_body].
  destruct data as [| v data].
  - rewrite (proj2 (rows_nil [] width Hw) eq_refl).
    cbn [fmap list_fmap lines_text rows_toks body_text].
    rewrite !append_assoc. reflexivity.
  - rewrite lines_text_rows.
    + rewrite !append_assoc. reflexivity.
    + apply rows_nonempty, Hw.
    + intros E. apply rows_nil in E; [discriminate | exact Hw].
Qed.

End ArrayLayout.

Section ArrayDeclaration.
Import Py Re.

Local Abbreviation s2l := list_ascii_of_string.

Lemma forallb_s2l_app (p : ascii -> bool) (a b : string) :
  forallb p (s2l (a +:+ b)) = forallb p (s2l a) && forallb p (s2l b).
Proof. rewrite list_ascii_of_string_app. apply forallb_app. Qed.

Lemma forallb_digit_word (l : list ascii) :
  forallb digit l = true -> forallb word l = true.
Proof.
  induction l as [| c l IH]; [reflexivity |]. simpl.
  intros [Hc Hl]%andb_true_iff. rewrite IH by exact Hl.
  unfold word. unfold digit in Hc. rewrite Hc. reflexivity.
Qed.

Lemma append_nonempty_r (a b : string) : b <> ""%string -> a +:+ b <> ""%string.
Proof.
  intros Hb H. apply (f_equal (fun s => length (s2l s))) in H.
  rewrite list_ascii_of_string_app, length_app in H.
  destruct b; [contradiction | simpl in H; lia].
Qed.

Lemma hex_literal_ok (v : Z) : 0 <= v -> literal_ok (hex_literal v).
Proof.
  intros Hv. destruct (format_04X_digits v Hv) as (Hne & Hhex & _).
  split; assumption.
Qed.

Lemma hex_values_row (row : list Z) (sep : string) :
  Forall (fun v => 0 <= v) row ->
  hex_literal_values (row_toks row sep) = row.
Proof.
  unfold hex_literal_values.
  induction 1 as [| v row Hv Hrow IH]; [reflexivity |].
  destruct row as [| v' row].
  - cbn [row_toks]. csimpl.
    destruct (format_04X_digits v Hv) as (_ & _ & ->). reflexivity.
  - change (row_toks (v :: v' :: row) sep)
      with ((hex_literal v, ", "%string) :: row_toks (v' :: row) sep).
    csimpl. csimpl in IH. rewrite IH.
    destruct (format_04X_digits v Hv) as (_ & _ & ->). reflexivity.
Qed.

Lemma hex_values_rows (rs : list (list Z)) :
  Forall (Forall (fun v => 0 <= v)) rs ->
  hex_literal_values (rows_toks rs) = concat rs.
Proof.
  induction 1 as [| r rs Hr Hrs IH]; [reflexivity |].
  destruct rs as [| r' rs].
  - cbn [rows_toks concat]. rewrite app_nil_r. apply hex_values_row, Hr.
  - change (rows_toks (r :: r' :: rs))
      with (row_toks r ("," +:+ newline +:+ "    ") ++ rows_toks (r' :: rs)).
    unfold hex_literal_values in *. rewrite omap_app, IH.
    fold (hex_literal_values (row_toks r ("," +:+ newline +:+ "    "))).
    rewrite hex_values_row by exact Hr. reflexivity.
Qed.

Lemma body_ok_app (a b : list (literal * string)) :
  body_ok a -> body_ok b -> Forall (fun tok => tok.2 <> ""%string) a ->
  body_ok (a ++ b).
Proof.
  induction a as [| [lit sep] a IH]; intros Ha Hb Hsep; [exact Hb |].
  destruct Ha as (Hlit & Hs & _ & Ha).
  inversion Hsep as [| ? ? Hne Hrest]; subst. simpl in Hne.
  simpl app. cbn [body_ok].
  split; [exact Hlit |]. split; [exact Hs |].
  split; [intros E; contradiction | apply IH; assumption].
Qed.

Lemma row_toks_ok (row : list Z) (sep : string) :
  Forall (fun v => 0 <= v) row ->
  sep <> ""%string -> forallb separator (s2l sep) = true ->
  body_ok (row_toks row sep) /\
  Forall (fun tok => tok.2 <> ""%string) (row_toks row sep).
Proof.
  intros Hrow Hne Hsep.
  induction Hrow as [| v row Hv Hrow IH]; [split; [exact I | constructor] |].
  destruct row as [| v' row].
  - cbn [row_toks]. split.
    + cbn [body_ok].
      split; [apply hex_literal_ok, Hv |].
      split; [exact Hsep |]. split; [reflexivity | exact I].
    + repeat constructor. exact Hne.
  - change (row_toks (v :: v' :: row) sep)
      with ((hex_literal v, ", "%string) :: row_toks (v' :: row) sep).
    destruct IH as [IH1 IH2]. split.
    + cbn [body_ok].
      split; [apply hex_literal_ok, Hv |].
      split; [reflexivity |]. split; [discriminate | exact IH1].
    + constructor; [discriminate | exact IH2].
Qed.

Lemma rows_toks_ok (rs : list (list Z)) :
  Forall (Forall (fun v => 0 <= v)) rs -> body_ok (rows_toks rs).
Proof.
  induction 1 as [| r rs Hr Hrs IH]; [exact I |].
  destruct rs as [| r' rs].
  - cbn [rows_toks]. apply row_toks_ok; [exact Hr | discriminate | reflexivity].
  - change (rows_toks (r :: r' :: rs))
      with (row_toks r ("," +:+ newline +:+ "    ") ++ rows_toks (r' :: rs)).
    destruct (row_toks_ok r ("," +:+ newline +:+ "    ") Hr) as [H1 H2];
      [discriminate | reflexivity |].
    apply body_ok_app; assumption.
Qed.

Lemma rows_values (data : list Z) (width : Z) :
  0 < width -> Forall (fun v => 0 <= v) data ->
  Forall (Forall (fun v => 0 <= v)) (rows data width).
Proof.
  intros Hw Hdata. unfold rows. apply Forall_fmap, Forall_forall.
  intros k _. simpl. apply Forall_take, Forall_drop, Hdata.
Qed.

Lemma array_name_word (name : string) (frame_idx : Z) :
  forallb word (s2l name) = true -> 0 <= frame_idx ->
  array_name name frame_idx <> ""%string /\
  forallb word (s2l (array_name name frame_idx)) = true.
Proof.
  intros Hname Hidx. destruct (str_digits frame_idx Hidx) as (Hne & Hdig & _).
  unfold array_name. split.
  - apply append_nonempty_r. discriminate.
  - rewrite !forallb_s2l_app, Hname, (forallb_digit_word _ Hdig). reflexivity.
Qed.

(** The text [format_array] writes is a declaration the extraction
    pattern accepts, and its literals are the values. *)
Lemma array_declaration_ok (name : string) (frame_idx : Z) (data : list Z)
    (width : Z) :
  forallb word (s2l name) = true -> 0 <= frame_idx -> 0 < width ->
  Forall (fun v => 0 <= v) data ->
  declaration_ok (array_declaration name frame_idx data width) /\
  hex_literal_values (d_body (array_declaration name frame_idx data width))
  = data.
Proof.
  intros Hname Hidx Hw Hdata.
  destruct (array_name_word name frame_idx Hname Hidx) as [Hn1 Hn2].
  destruct (str_digits (Z.of_nat (length data))) as (Hc1 & Hc2 & _); [lia |].
  pose proof (rows_values data width Hw Hdata) as Hrows.
  split.
  - unfold declaration_ok, array_declaration.
    cbn [d_name d_count d_lead d_body].
    split; [exact Hn1 |]. split; [exact Hn2 |].
    split; [exact Hc1 |]. split; [exact Hc2 |].
    split; [destruct data; reflexivity |].
    split; [apply rows_toks_ok, Hrows |].
    destruct data; discriminate.
  - cbn [array_declaration d_body].
    rewrite hex_values_rows by exact Hrows. apply concat_rows, Hw.
Qed.

End ArrayDeclaration.

Section Scanning.
Import Py Re.

Local Abbreviation s2l := list_ascii_of_string.
Local Abbreviation keyword := (s2l "constexpr").

Lemma differs_strip (l s b : list ascii) :
  differs l s = true -> strip_prefix l (s ++ b) = None.
Proof.
  revert s. induction l as [| c l IH]; intros [| d s] H; try discriminate.
  simpl in *. destruct (Ascii.eqb c d); [apply IH, H | reflexivity].
Qed.

Lemma exec_pattern_differs (s b : list ascii) :
  differs keyword s = true -> exec pattern (s ++ b) 0 [] = None.
Proof.
  intros H. unfold pattern. cbn [exec].
  rewrite differs_strip by exact H. reflexivity.
Qed.

(** No match starts in a segment whose suffixes all differ from the
    keyword. *)
Lemma pass_clear (a b : list ascii) :
  clear keyword a = true ->
  finditer_from pattern (a ++ b) 0 = finditer_from pattern b 0.
Proof.
  intros H. apply finditer_from_pass. intros a1 a2 -> Hne.
  induction a1 as [| c a1 IH].
  - destruct a2 as [| d a2]; [contradiction |].
    simpl in H. apply andb_true_iff in H as [H _].
    apply exec_pattern_differs, H.
  - apply IH. simpl in H. apply andb_true_iff in H as [_ H]. exact H.
Qed.

Lemma clear_no_c (a : list ascii) :
  Forall (fun ch => ch <> "c"%char) a -> clear keyword a = true.
Proof.
  induction 1 as [| d a Hd Ha IH]; [reflexivity |].
  cbn [clear]. rewrite IH, andb_true_r.
  change keyword with ("c"%char :: s2l "onstexpr"). cbn [differs].
  destruct (Ascii.eqb_spec "c" d) as [<- | _]; [contradiction | reflexivity].
Qed.

Lemma digits_no_c (l : list ascii) :
  forallb digit l = true -> Forall (fun ch => ch <> "c"%char) l.
Proof.
  intros H. eapply Forall_impl; [apply Forall_forallb, H |].
  intros ch Hd ->. discriminate.
Qed.

Lemma finditer_spaced (ds : list (declaration * string)) (R : list ascii) :
  Forall (fun dg : declaration * string =>
            declaration_ok dg.1 /\ clear keyword (s2l dg.2) = true) ds ->
  finditer_from pattern (s2l (spaced_text ds) ++ R) 0
  = ((fun dg : declaration * string =>
        [declaration_name dg.1; brace_list dg.1]) <$> ds)
    ++ finditer_from pattern R 0.
Proof.
  induction 1 as [| [d gap] ds [Hd Hgap] Hds IH]; [reflexivity |].
  cbn [spaced_text]. rewrite !list_ascii_of_string_app, <- !app_assoc.
  destruct (exec_declaration_text d (s2l gap ++ s2l (spaced_text ds) ++ R) Hd)
    as (marks & E & G).
  rewrite (finditer_from_match pattern _ _ marks).
  - rewrite G, fmap_cons. simpl. f_equal.
    rewrite pass_clear by exact Hgap. apply IH.
  - intros H. apply (f_equal (@length ascii)) in H.
    rewrite length_declaration in H. discriminate.
  - exact E.
Qed.

Lemma parse_spaced (ds : list (declaration * string)) (lead : string) :
  (forall R, finditer_from pattern (s2l lead ++ R) 0
             = finditer_from pattern R 0) ->
  Forall (fun dg : declaration * string =>
            declaration_ok dg.1 /\ clear keyword (s2l dg.2) = true) ds ->
  parse_sprite_arrays (lead +:+ spaced_text ds)
  = foldl (fun arrays (dg : declaration * string) =>
             od_set arrays (declaration_name dg.1)
                    (hex_literal_values (d_body dg.1)))
          [] ds.
Proof.
  intros Hlead Hok. unfold parse_sprite_arrays, finditer.
  rewrite list_ascii_of_string_app, Hlead.
  rewrite <- (app_nil_r (s2l (spaced_text ds))).
  rewrite finditer_spaced by exact Hok.
  change (finditer_from pattern [] 0) with (@nil (list string)).
  rewrite app_nil_r.
  generalize (@nil (string * list Z)) as acc.
  induction Hok as [| [d gap] ds [Hd _] Hds IH]; intros acc; csimpl;
    [reflexivity |].
  unfold brace_list at 1.
  destruct Hd as (_ & _ & _ & _ & Hl & Hbody & _).
  rewrite hex_values_body by assumption. apply IH.
Qed.

End Scanning.

Section FrameArrays.
Import Py Re.

Local Abbreviation s2l := list_ascii_of_string.

Lemma forallb_word_dot (l : list ascii) :
  forallb word l = true -> forallb dot l = true.
Proof.
  induction l as [| c l IH]; [reflexivity |]. simpl.
  intros [Hc Hl]%andb_true_iff. rewrite IH by exact Hl.
  rewrite andb_true_r. unfold dot.
  destruct (N.eqb_spec (code c) 10) as [E |]; [| reflexivity].
  unfold word, between in Hc. rewrite E in Hc. discriminate.
Qed.

Lemma match_frame_array (name : string) (i : nat) :
  name <> ""%string -> forallb dot (s2l name) = true ->
  match_frame ("sprite_" +:+ array_name name (Z.of_nat i)) = Some (name, i).
Proof.
  intros Hne Hdot.
  destruct (str_digits (Z.of_nat i)) as (Hs & Hd & Hv); [lia |].
  unfold array_name.
  rewrite (match_frame_convention name (str (Z.of_nat i))) by assumption.
  rewrite Hv, Nat2Z.id. reflexivity.
Qed.

Lemma place_next (name array_name : string) (done : list (list Z))
    (frame : list Z) :
  match_frame array_name = Some (name, length done) ->
  place [(name, Some <$> done)] (array_name, frame)
  = [(name, Some <$> (done ++ [frame]))].
Proof.
  intros Hm. unfold place. rewrite Hm.
  cbn [od_get od_set default]. rewrite !String.eqb_refl.
  cbn [od_get od_set default]. rewrite !String.eqb_refl.
  cbn [od_get od_set default]. unfold id.
  rewrite length_fmap.
  replace (S (length done) - length done)%nat with 1%nat by lia.
  cbn [replicate]. f_equal. f_equal.
  rewrite fmap_app. simpl.
  replace (length done) with (length (Some <$> done) + 0)%nat
    by (rewrite length_fmap; lia).
  rewrite insert_app_r. reflexivity.
Qed.

Lemma place_first (name array_name : string) (frame : list Z) :
  match_frame array_name = Some (name, 0%nat) ->
  place [] (array_name, frame) = [(name, [Some frame])].
Proof.
  intros Hm. unfold place. rewrite Hm.
  cbn [od_get od_set default]. rewrite !String.eqb_refl.
  cbn [od_get od_set default]. rewrite ?String.eqb_refl.
  reflexivity.
Qed.

Lemma place_frames (name : string) (done rest : list (list Z)) :
  name <> ""%string -> forallb dot (s2l name) = true ->
  foldl place [(name, Some <$> done)]
    (imap (fun i frame =>
             ("sprite_" +:+ array_name name (Z.of_nat (length done + i)), frame))
          rest)
  = [(name, Some <$> (done ++ rest))].
Proof.
  intros Hne Hdot. revert done.
  induction rest as [| frame rest IH]; intros done.
  - rewrite app_nil_r. reflexivity.
  - rewrite imap_cons. cbn [foldl].
    rewrite (place_next name)
      by (rewrite Nat.add_0_r; apply match_frame_array; assumption).
    rewrite (imap_ext _
               (fun i frame0 =>
                  ("sprite_"
                   +:+ array_name name (Z.of_nat (length (done ++ [frame]) + i)),
                   frame0))).
    + rewrite IH, <- app_assoc. reflexivity.
    + intros i x _. unfold compose. rewrite length_app. simpl.
      do 3 f_equal. lia.
Qed.

(** Grouping the arrays of one sprite gives its frames back. *)
Lemma group_frame_arrays (name : string) (frames : list (list Z)) :
  name <> ""%string -> forallb dot (s2l name) = true -> frames <> [] ->
  group_frames (frame_arrays name frames) = [(name, frames)].
Proof.
  intros Hne Hdot Hfr. destruct frames as [| frame rest]; [contradiction |].
  unfold group_frames, frame_arrays. rewrite imap_cons. cbn [foldl].
  rewrite (place_first name)
    by (apply (match_frame_array name 0); assumption).
  pose proof (place_frames name [frame] rest Hne Hdot) as H.
  change (Some <$> [frame]) with [Some frame] in H.
  cbn [length Nat.add] in H. unfold compose. rewrite H. clear H.
  csimpl.
  assert (E : omap id (Some <$> rest) = rest).
  { clear. induction rest as [| x rest IH]; [reflexivity |].
    csimpl. rewrite IH. reflexivity. }
  rewrite E. reflexivity.
Qed.

End FrameArrays.

Section ArrayRoundTrip.
Import Py Re.

Local Abbreviation s2l := list_ascii_of_string.

(** X10.  What [format_array] writes, [parse_sprite_arrays] reads back: for
    a name of word characters, a frame index that is not negative, a
    positive row width and values that are not negative, the text is
    parsed as the one array [sprite_<name>_frame<idx>] with exactly the
    values written, whatever the row width; grouping then gives the one
    sprite [name] with the one frame.  The writer of
    [generate_placeholders.py] is the same function at width 24. *)
Theorem format_array_parses_back (name : string) (frame_idx : Z)
    (data : list Z) (width : Z) :
  forallb word (s2l name) = true -> 0 <= frame_idx -> 0 < width ->
  Forall (fun v => 0 <= v) data ->
  exists text,
    Sprite2c.format_array name frame_idx data width = Return text /\
    parse_sprite_arrays text
    = [("sprite_" +:+ name +:+ "_frame" +:+ str frame_idx, data)] /\
    (name <> ""%string ->
     group_frames (parse_sprite_arrays text) = [(name, [data])]) /\
    Placeholders.format_array name frame_idx data
    = Sprite2c.format_array name frame_idx data 24.
Proof.
  intros Hname Hidx Hw Hdata.
  set (d := array_declaration name frame_idx data width).
  destruct (array_declaration_ok name frame_idx data width Hname Hidx Hw Hdata)
    as [Hok Hval]. fold d in Hok, Hval.
  assert (Hparse : parse_sprite_arrays (declaration_text d)
                   = [("sprite_" +:+ name +:+ "_frame" +:+ str frame_idx, data)]).
  { pose proof (parse_spaced [(d, ""%string)] "" (fun R => eq_refl)) as H.
    cbn [spaced_text] in H. rewrite !append_nil_r in H.
    change ("" +:+ declaration_text d) with (declaration_text d) in H.
    rewrite H by (constructor; [split; [exact Hok | reflexivity] | constructor]).
    cbn [foldl od_set fst]. rewrite Hval. reflexivity. }
  exists (declaration_text d). split; [apply format_array_text, Hw |].
  split; [exact Hparse |]. split; [| reflexivity].
  intros Hne. rewrite Hparse.
  assert (Hi : frame_idx = Z.of_nat (Z.to_nat frame_idx)) by lia.
  rewrite Hi.
  pose proof (match_frame_array name (Z.to_nat frame_idx) Hne
                (forallb_word_dot _ Hname)) as Hm.
  unfold group_frames. cbn [foldl]. unfold place.
  change ("sprite_" +:+ name +:+ "_frame" +:+ str (Z.of_nat (Z.to_nat frame_idx)))
    with ("sprite_" +:+ array_name name (Z.of_nat (Z.to_nat frame_idx))).
  rewrite Hm.
  cbn [od_get od_set default]. rewrite !String.eqb_refl.
  cbn [od_get od_set default app]. rewrite ?String.eqb_refl. csimpl.
  assert (E : forall n, omap id (<[n := Some data]>
                                  (@None (list Z) :: replicate n None))
                        = [data]).
  { clear. induction n as [| n IH]; [reflexivity |]. exact IH. }
  rewrite E. reflexivity.
Qed.

Lemma format_array_parses_back_witness :
  exists text,
    Sprite2c.format_array "egg_idle" 1 [0xF81F; 0x001F; 0x07E0] 2 = Return text /\
    parse_sprite_arrays text
    = [("sprite_egg_idle_frame1"%string, [0xF81F; 0x001F; 0x07E0])].
Proof.
  destruct (format_array_parses_back "egg_idle" 1 [0xF81F; 0x001F; 0x07E0] 2)
    as (text & E & P & _); [reflexivity | lia | lia | |].
  - repeat constructor; lia.
  - exists text. split; [exact E | exact P].
Defined.

End ArrayRoundTrip.

Section HeaderText.
Import Py Re.

Local Abbreviation s2l := list_ascii_of_string.

Lemma lines_text_app (a b : list string) :
  lines_text (a ++ b) = lines_text a +:+ lines_text b.
Proof.
  induction a as [| l a IH]; [reflexivity |].
  simpl app. cbn [lines_text]. rewrite IH, !append_assoc. reflexivity.
Qed.

Lemma write_arrays (name : string) (width : Z) (k : nat)
    (frames : list (list Z)) (lines : list string) :
  0 < width ->
  for_each (imap (fun i frame => (Z.of_nat (k + i), frame)) frames)
    (fun lines '(i, frame) =>
       let* text := Sprite2c.format_array name i frame width in
       Return (lines ++ [text; ""%string])) lines
  = Return (lines
            ++ concat (imap (fun i frame =>
                               [declaration_text
                                  (array_declaration name (Z.of_nat (k + i))
                                     frame width);
                                ""%string]) frames)).
Proof.
  intros Hw. revert k lines.
  induction frames as [| frame frames IH]; intros k lines.
  - simpl. rewrite app_nil_r. reflexivity.
  - rewrite !imap_cons. cbn [for_each].
    rewrite format_array_text by exact Hw. cbn [bind].
    rewrite (imap_ext _ (fun i frame0 => (Z.of_nat (S k + i), frame0)))
      by (intros i x _; unfold compose; do 2 f_equal; lia).
    rewrite IH. cbn [concat]. rewrite <- app_assoc.
    rewrite Nat.add_0_r. do 2 f_equal. simpl app. do 3 f_equal.
    apply imap_ext. intros i x _. unfold compose.
    replace (k + S i)%nat with (S k + i)%nat by lia. reflexivity.
Qed.

Lemma join_blocks (ls : list string) (ds : list declaration) :
  ds <> [] ->
  join newline (ls ++ concat ((fun d => [declaration_text d; ""%string]) <$> ds))
  = lines_text ls +:+ spaced_text (with_gaps ds).
Proof.
  intros Hne. revert ls. induction ds as [| d ds IH]; intros ls; [contradiction |].
  destruct ds as [| d' ds].
  - cbn [fmap list_fmap concat with_gaps spaced_text app].
    change (ls ++ [declaration_text d; ""%string])
      with (ls ++ [declaration_text d] ++ [""%string]).
    rewrite app_assoc, join_lines, lines_text_app. cbn [lines_text].
    rewrite !append_nil_r. reflexivity.
  - change (with_gaps (d :: d' :: ds))
      with ((d, newline +:+ newline) :: with_gaps (d' :: ds)).
    rewrite fmap_cons. cbn [concat spaced_text].
    change ([declaration_text d; ""%string] ++ ?X)
      with ([declaration_text d; ""%string] ++ X).
    rewrite app_assoc, IH by discriminate.
    rewrite lines_text_app. cbn [lines_text].
    rewrite !append_assoc. reflexivity.
Qed.

End HeaderText.

Section HeaderScan.
Import Py Re.

Local Abbreviation s2l := list_ascii_of_string.
Local Abbreviation keyword := (s2l "constexpr").
Local Abbreviation nl := (ascii_of_nat 10).

Lemma strip_prefix_within (l a r s' : list ascii) (c : ascii) :
  c ∉ l -> strip_prefix l (a ++ c :: r) = Some s' ->
  exists a3, a = l ++ a3 /\ s' = a3 ++ c :: r.
Proof.
  revert a. induction l as [| x l IH]; intros a Hc H.
  - simpl in H. injection H as <-. exists a. split; reflexivity.
  - apply not_elem_of_cons in Hc as [Hx Hc].
    destruct a as [| y a]; simpl in H.
    + destruct (Ascii.eqb_spec x c) as [-> | _]; [contradiction | discriminate].
    + destruct (Ascii.eqb_spec x y) as [-> | _]; [| discriminate].
      destruct (IH a Hc H) as (a3 & -> & ->). exists a3. split; reflexivity.
Qed.

Lemma word_not_space (c : ascii) : word c = true -> space c = false.
Proof.
  destruct c as [[] [] [] [] [] [] [] []]; vm_compute; congruence.
Qed.

(** No match starts in a run of word characters that a newline and a
    slash follow, whatever the run holds. *)
Lemma pass_word (n b : list ascii) :
  Forall (fun c => word c = true) n ->
  finditer_from pattern (n ++ nl :: "/"%char :: b) 0
  = finditer_from pattern (nl :: "/"%char :: b) 0.
Proof.
  intros Hn. apply finditer_from_pass. intros a1 a2 -> Hne.
  apply Forall_app in Hn as [_ Ha2].
  unfold pattern. cbn [exec].
  destruct (strip_prefix keyword (a2 ++ nl :: "/"%char :: b)) as [s' |] eqn:E;
    [| reflexivity].
  apply strip_prefix_within in E as (a3 & -> & ->).
  - apply Forall_app in Ha2 as [_ Ha3].
    destruct a3 as [| w a3].
    + simpl app. rewrite rep_cons_true by reflexivity.
      rewrite rep_stops by reflexivity. cbn [Nat.leb exec].
      change (s2l "uint16_t") with ("u"%char :: s2l "int16_t").
      rewrite strip_prefix_mismatch by (simpl; discriminate). reflexivity.
    + simpl app. rewrite rep_stops; [reflexivity |].
      simpl. apply word_not_space. inversion Ha3; assumption.
  - intros H. repeat (apply elem_of_cons in H as [H | H]; [discriminate |]).
    inversion H.
Qed.

Lemma dec_no_c (d : Decimal.uint) :
  Forall (fun ch => ch <> "c"%char)
         (s2l (DecimalString.NilZero.string_of_uint d)).
Proof.
  assert (H : Forall (fun ch => ch <> "c"%char)
                (s2l (DecimalString.NilEmpty.string_of_uint d))).
  { induction d; simpl; [constructor | (constructor; [discriminate | exact IHd]) ..]. }
  destruct d; [repeat constructor; discriminate | exact H ..].
Qed.

Lemma str_no_c (z : Z) : clear keyword (s2l (str z)) = true.
Proof.
  apply clear_no_c. unfold str.
  destruct (Z.to_int z) as [d | d]; simpl.
  - apply dec_no_c.
  - constructor; [discriminate | apply dec_no_c].
Qed.

(** No match starts in the comment block of a generated header. *)
Lemma pass_header_comment (name : string) (count width height : Z)
    (R : list ascii) :
  forallb word (s2l name) = true ->
  finditer_from pattern
    (s2l (lines_text (header_comment name count width height)) ++ R) 0
  = finditer_from pattern R 0.
Proof.
  intros Hname.
  assert (E : s2l (lines_text (header_comment name count width height)) ++ R
              = s2l "// Auto-generated by sprite2c.py - "
                ++ s2l name
                ++ nl :: "/"%char
                   :: s2l "/ " ++ s2l (str count) ++ s2l " frame(s), "
                   ++ s2l (str width) ++ s2l "x" ++ s2l (str height)
                   ++ s2l (" RGB565" +:+ newline
                           +:+ "// Transparent color key: 0xF81F (magenta)"
                           +:+ newline +:+ newline +:+ "#pragma once"
                           +:+ newline +:+ "#include <cstdint>" +:+ newline)
                   ++ R).
  { unfold header_comment. cbn [lines_text].
    change (format_04X TRANSPARENT_RGB565) with "F81F"%string.
    rewrite !list_ascii_of_string_app, <- !app_assoc. reflexivity. }
  rewrite E.
  rewrite pass_clear by reflexivity.
  rewrite pass_word by (apply Forall_forallb, Hname).
  match goal with
  | |- context [finditer_from pattern (nl :: "/"%char :: ?x) 0] =>
      change (nl :: "/"%char :: x) with ([nl; "/"%char] ++ x)
  end.
  rewrite (pass_clear [nl; "/"%char]) by reflexivity.
  rewrite (pass_clear (s2l "/ ")) by reflexivity.
  rewrite (pass_clear (s2l (str count))) by apply str_no_c.
  rewrite (pass_clear (s2l " frame(s), ")) by reflexivity.
  rewrite (pass_clear (s2l (str width))) by apply str_no_c.
  rewrite (pass_clear (s2l "x")) by reflexivity.
  rewrite (pass_clear (s2l (str height))) by apply str_no_c.
  rewrite pass_clear by reflexivity.
  reflexivity.
Qed.

End HeaderScan.

Section HeaderRoundTrip.
Import Py Re.

Local Abbreviation s2l := list_ascii_of_string.
Local Abbreviation keyword := (s2l "constexpr").

Lemma generate_header_text (name : string) (frames : list (list Z))
    (width height : Z) :
  0 < width ->
  generate_header name frames width height
  = Return
      (lines_text (header_comment name (Z.of_nat (length frames)) width height)
       +:+ match frames with
           | [] => ""
           | _ => newline
                  +:+ spaced_text
                        (with_gaps (frame_declarations name frames width))
           end).
Proof.
  intros Hw. unfold generate_header, enumerate.
  rewrite (write_arrays name width 0) by exact Hw. cbn [bind]. f_equal.
  change (String (ascii_of_nat 10) "") with newline.
  set (hc := header_comment name (Z.of_nat (length frames)) width height).
  match goal with
  | |- join newline (?l ++ _) = _ => change l with (hc ++ [""%string])
  end.
  destruct frames as [| frame frames].
  - cbn [imap concat]. rewrite app_nil_r, join_lines. reflexivity.
  - replace (concat (imap _ (frame :: frames)))
      with (concat ((fun d => [declaration_text d; ""%string])
                      <$> frame_declarations name (frame :: frames) width)).
    + rewrite join_blocks.
      * rewrite lines_text_app. cbn [lines_text].
        rewrite !append_assoc. reflexivity.
      * unfold frame_declarations. rewrite imap_cons. discriminate.
    + unfold frame_declarations. rewrite fmap_imap. reflexivity.
Qed.

Lemma with_gaps_fst (ds : list declaration) : (with_gaps ds).*1 = ds.
Proof.
  induction ds as [| d ds IH]; [reflexivity |].
  destruct ds as [| d' ds]; [reflexivity |].
  change (with_gaps (d :: d' :: ds))
    with ((d, newline +:+ newline) :: with_gaps (d' :: ds)).
  rewrite fmap_cons, IH. reflexivity.
Qed.

Lemma with_gaps_clear (ds : list declaration) :
  Forall (fun dg : declaration * string => clear keyword (s2l dg.2) = true)
         (with_gaps ds).
Proof.
  induction ds as [| d ds IH]; [constructor |].
  destruct ds as [| d' ds]; [repeat constructor |].
  change (with_gaps (d :: d' :: ds))
    with ((d, newline +:+ newline) :: with_gaps (d' :: ds)).
  constructor; [reflexivity | exact IH].
Qed.

Lemma append_inj_l (a b c : string) : a +:+ b = a +:+ c -> b = c.
Proof.
  unfold "+:+". induction a as [| x a IH]; simpl; [trivial |].
  intros [= H]. apply IH, H.
Qed.

Lemma array_name_inj (name : string) (i j : nat) :
  "sprite_" +:+ array_name name (Z.of_nat i)
  = "sprite_" +:+ array_name name (Z.of_nat j) -> i = j.
Proof.
  unfold array_name. intros H.
  do 3 apply append_inj_l in H.
  destruct (str_digits (Z.of_nat i)) as (_ & _ & Hi); [lia |].
  destruct (str_digits (Z.of_nat j)) as (_ & _ & Hj); [lia |].
  rewrite H, Hj in Hi. lia.
Qed.

Lemma frame_declarations_offset (name : string) (width : Z) (k : nat)
    (frames : list (list Z)) :
  0 < width -> forallb word (s2l name) = true ->
  Forall (Forall (fun v => 0 <= v)) frames ->
  let ds := imap (fun i frame =>
                    array_declaration name (Z.of_nat (k + i)) frame width)
                 frames in
  Forall declaration_ok ds /\
  declaration_name <$> ds
  = (fun i => "sprite_" +:+ array_name name (Z.of_nat i))
      <$> seq k (length frames) /\
  (fun d => (declaration_name d, hex_literal_values (d_body d))) <$> ds
  = imap (fun i frame =>
            ("sprite_" +:+ array_name name (Z.of_nat (k + i)), frame)) frames.
Proof.
  intros Hw Hname Hfr. revert k.
  induction Hfr as [| frame frames Hf Hfr IH]; intros k ds.
  - repeat split. constructor.
  - subst ds. rewrite !imap_cons.
    destruct (array_declaration_ok name (Z.of_nat (k + 0)) frame width)
      as [Hok Hval]; [assumption | lia | assumption | assumption |].
    destruct (IH (S k)) as (IH1 & IH2 & IH3).
    assert (E : imap ((fun i frame0 =>
                         array_declaration name (Z.of_nat (k + i)) frame0 width)
                      ∘ S) frames
                = imap (fun i frame0 =>
                          array_declaration name (Z.of_nat (S k + i)) frame0 width)
                       frames).
    { apply imap_ext. intros i x _. unfold compose.
      replace (k + S i)%nat with (S k + i)%nat by lia. reflexivity. }
    rewrite E. split; [| split].
    + constructor; assumption.
    + rewrite fmap_cons, IH2. cbn [length seq fmap list_fmap].
      rewrite Nat.add_0_r. reflexivity.
    + rewrite fmap_cons, IH3, Hval. f_equal.
      apply imap_ext. intros i x _. unfold compose.
      replace (k + S i)%nat with (S k + i)%nat by lia. reflexivity.
Qed.

Lemma parse_frame_declarations (name : string) (frames : list (list Z))
    (width : Z) (lead : string) :
  0 < width -> forallb word (s2l name) = true ->
  Forall (Forall (fun v => 0 <= v)) frames ->
  (forall R, finditer_from pattern (s2l lead ++ R) 0
             = finditer_from pattern R 0) ->
  parse_sprite_arrays
    (lead +:+ spaced_text (with_gaps (frame_declarations name frames width)))
  = frame_arrays name frames.
Proof.
  intros Hw Hname Hfr Hlead.
  destruct (frame_declarations_offset name width 0 frames Hw Hname Hfr)
    as (Hok & Hnames & Hvals).
  cbn [Nat.add] in Hok, Hnames, Hvals.
  fold (frame_declarations name frames width) in Hok, Hnames, Hvals.
  fold (frame_arrays name frames) in Hvals.
  set (ds := frame_declarations name frames width) in *.
  rewrite parse_spaced; [| exact Hlead |].
  - rewrite (foldl_od_set_fresh
               (fun dg : declaration * string => declaration_name dg.1)
               (fun dg : declaration * string =>
                  hex_literal_values (d_body dg.1))).
    + simpl app. rewrite <- Hvals.
      rewrite <- (with_gaps_fst ds) at 2.
      rewrite <- list_fmap_compose. reflexivity.
    + assert (E : (fun dg : declaration * string => declaration_name dg.1)
                    <$> with_gaps ds
                  = declaration_name <$> ds).
      { rewrite <- (with_gaps_fst ds) at 2.
        rewrite <- list_fmap_compose. reflexivity. }
      rewrite E, Hnames.
      apply NoDup_fmap_2_strong; [| apply NoDup_seq].
      intros i j _ _. apply array_name_inj.
    + intros x _ H. inversion H.
  - pose proof (with_gaps_clear ds) as Hc.
    apply Forall_forall. intros dg Hdg. split.
    + rewrite Forall_forall in Hok. apply Hok.
      rewrite <- (with_gaps_fst ds). apply list_elem_of_fmap_2, Hdg.
    + rewrite Forall_forall in Hc. apply Hc, Hdg.
Qed.

(** X11.  A header written for one image is read back in full: for a name
    of word characters, a positive frame width and frames whose values are
    not negative, the text [generate_header] returns is parsed by
    [parse_sprite_arrays] as the arrays [sprite_<name>_frame0],
    [sprite_<name>_frame1], ... in order, each with exactly the values of
    its frame, and [group_frames] then gives the one sprite [name] with the
    frames in order (nothing for an empty frame list).  The comment block
    never yields an array, whatever the name holds. *)
Theorem generate_header_round_trip (name : string) (frames : list (list Z))
    (width height : Z) :
  forallb word (s2l name) = true -> 0 < width ->
  Forall (Forall (fun v => 0 <= v)) frames ->
  exists text,
    generate_header name frames width height = Return text /\
    parse_sprite_arrays text = frame_arrays name frames /\
    (name <> ""%string ->
     group_frames (parse_sprite_arrays text)
     = match frames with [] => [] | _ => [(name, frames)] end).
Proof.
  intros Hname Hw Hfr. eexists. split; [apply generate_header_text, Hw |].
  set (hc := header_comment name (Z.of_nat (length frames)) width height).
  assert (Hparse :
            parse_sprite_arrays
              (lines_text hc
               +:+ match frames with
                   | [] => ""
                   | _ => newline
                          +:+ spaced_text
                                (with_gaps (frame_declarations name frames width))
                   end)
            = frame_arrays name frames).
  { destruct frames as [| frame frames'] eqn:Ef.
    - unfold parse_sprite_arrays, finditer.
      rewrite list_ascii_of_string_app. subst hc.
      rewrite pass_header_comment by exact Hname. reflexivity.
    - rewrite <- Ef in *. rewrite <- append_assoc.
      apply parse_frame_declarations; try assumption.
      intros R. rewrite list_ascii_of_string_app, <- app_assoc. subst hc.
      rewrite pass_header_comment by exact Hname.
      apply (pass_clear (s2l newline)). reflexivity. }
  split; [exact Hparse |].
  intros Hne. rewrite Hparse. destruct frames as [| frame frames']; [reflexivity |].
  apply group_frame_arrays; [exact Hne | apply forallb_word_dot, Hname | discriminate].
Qed.

Lemma generate_header_round_trip_witness :
  exists text,
    generate_header "egg_idle" [[0xF81F; 0x001F]; [0x07E0; 0xFFFF]] 1 2
    = Return text /\
    group_frames (parse_sprite_arrays text)
    = [("egg_idle"%string, [[0xF81F; 0x001F]; [0x07E0; 0xFFFF]])].
Proof.
  destruct (generate_header_round_trip "egg_idle"
              [[0xF81F; 0x001F]; [0x07E0; 0xFFFF]] 1 2)
    as (text & E & _ & G); [reflexivity | lia | |].
  - repeat constructor; lia.
  - exists text. split; [exact E | apply G; discriminate].
Defined.

End HeaderRoundTrip.

Section ToolChain.
Import Py Re.

Local Abbreviation s2l := list_ascii_of_string.

Lemma cells_16bit (img : image) (fw fh : Z) (key : option (Z * Z * Z))
    (rows cols : Z) :
  (forall x y, component (pixel img x y).1.1.1 /\
               component (pixel img x y).1.1.2 /\
               component (pixel img x y).1.2) ->
  Forall (Forall (fun v => 0 <= v <= 0xFFFF))
         (cells img fw fh (convert_pixel key) rows cols).
Proof.
  intros Himg. apply Forall_cells. intros row col. unfold cell.
  apply Forall_concat, Forall_fmap, Forall_forall. intros y _.
  apply Forall_fmap, Forall_forall. intros x _. simpl.
  destruct (Himg (col * fw + x) (row * fh + y)) as (Hr & Hg & Hb).
  destruct (pixel img _ _) as [[[r g] b] a]. simpl in *.
  apply convert_pixel_16bit; assumption.
Qed.

(** The frames of an image that holds at least one cell. *)
Lemma convert_sprite_cells (img : image) (fw fh : Z)
    (key : option (Z * Z * Z)) :
  0 < fw -> 0 < fh -> fw <= (size img).1 -> fh <= (size img).2 ->
  let frames := cells img fw fh (convert_pixel key)
                  ((size img).2 / fh) ((size img).1 / fw) in
  convert_sprite img fw fh key None = Return frames /\
  frames <> [] /\
  Forall (fun p => Z.of_nat (length p) = fw * fh) frames.
Proof.
  intros Hw Hh Hiw Hih frames.
  assert (Hc : 0 < (size img).1 / fw) by (apply Z.div_str_pos; lia).
  assert (Hr : 0 < (size img).2 / fh) by (apply Z.div_str_pos; lia).
  split; [| split].
  - rewrite convert_sprite_in_bounds by (simpl; lia). simpl.
    destruct (Z.eqb_spec ((size img).1 / fw) 0); [lia |].
    destruct (Z.eqb_spec ((size img).2 / fh) 0); [lia |]. reflexivity.
  - intros E. apply (f_equal length) in E. subst frames.
    rewrite length_cells in E. simpl in E. nia.
  - apply Forall_cells. intros row col. rewrite length_cell. lia.
Qed.

(** Every frame of a valid list is exported. *)
Lemma export_sprite_all_valid (resize : image -> Z * Z -> result image)
    (frames : list (list Z)) (width height scale : Z) :
  0 < width -> 0 < height -> scale <= 1 -> frames <> [] ->
  Forall (fun p => Z.of_nat (length p) = width * height /\
                   Forall (fun v => 0 <= v <= 0xFFFF) p) frames ->
  exists img,
    export_sprite resize frames width height scale = Return (Some img) /\
    size img = (width * Z.of_nat (length frames), height) /\
    convert_sprite img width height None None = Return frames.
Proof.
  intros Hw Hh Hs Hne Hok. unfold export_sprite. cbv zeta.
  assert (E : filter (fun f => Z.of_nat (length f) = width * height) frames
              = frames).
  { clear Hne. induction Hok as [| p ps [Hp _] _ IH]; [reflexivity |].
    rewrite filter_cons_True by exact Hp. rewrite IH. reflexivity. }
  rewrite E.
  destruct frames as [| p [| q rest]]; [contradiction | |].
  - destruct (create_frame_png_drawn resize p width height scale)
      as (img & Ei & Hsize & Hp); [lia | lia | exact Hs |].
    rewrite Ei. cbn [bind]. exists img. split; [reflexivity |].
    destruct (frame_is_sheet width height img p Hsize Hp) as [Hsz Hpx].
    split; [exact Hsz |].
    apply (drawn_sheet_converts width height Hw Hh img [p]); assumption.
  - destruct (create_spritesheet_drawn resize width height Hw Hh (p :: q :: rest)
                scale Hs) as (sheet & Ei & Hsize & Hp).
    rewrite Ei. cbn [bind]. exists sheet. split; [reflexivity |].
    split; [exact Hsize |].
    apply (drawn_sheet_converts width height Hw Hh sheet (p :: q :: rest));
      assumption.
Qed.

Variable resize : image -> Z * Z -> result image.

(** X12.  The two tools are inverse to each other on the frames of an
    image: for an image of 8-bit colours holding at least one cell,
    [process_file] writes a header from which [parse_sprite_arrays] and
    [group_frames] recover exactly the frames [convert_sprite] cut, under
    the one sprite [name]; exporting them gives an image that converts to
    the same frames again. *)
Theorem frames_survive_tool_chain (img : image) (name : string)
    (frame_width frame_height scale : Z) (key : option (Z * Z * Z)) :
  name <> ""%string -> forallb word (s2l name) = true ->
  0 < frame_width -> 0 < frame_height ->
  frame_width <= (size img).1 -> frame_height <= (size img).2 ->
  (forall x y, component (pixel img x y).1.1.1 /\
               component (pixel img x y).1.1.2 /\
               component (pixel img x y).1.2) ->
  scale <= 1 ->
  exists frames text png,
    convert_sprite img frame_width frame_height key None = Return frames /\
    process_file img name frame_width frame_height key None = Return text /\
    group_frames (parse_sprite_arrays text) = [(name, frames)] /\
    export_sprite resize frames frame_width frame_height scale
      = Return (Some png) /\
    convert_sprite png frame_width frame_height None None = Return frames.
Proof.
  intros Hne Hname Hw Hh Hiw Hih Himg Hs.
  destruct (convert_sprite_cells img frame_width frame_height key Hw Hh Hiw Hih)
    as (Ec & Hfr & Hlen).
  set (frames := cells img frame_width frame_height (convert_pixel key)
                   ((size img).2 / frame_height) ((size img).1 / frame_width))
    in *.
  pose proof (cells_16bit img frame_width frame_height key
                ((size img).2 / frame_height) ((size img).1 / frame_width) Himg)
    as H16. fold frames in H16.
  assert (Hpos : Forall (Forall (fun v => 0 <= v)) frames).
  { eapply Forall_impl; [exact H16 |]. intros p Hp.
    eapply Forall_impl; [exact Hp |]. intros v Hv. simpl in Hv. lia. }
  assert (Hhdr : exists text,
             generate_header name frames frame_width frame_height
               = Return text /\
             group_frames (parse_sprite_arrays text) = [(name, frames)]).
  { eexists. split; [apply generate_header_text, Hw |].
    set (hc := header_comment name (Z.of_nat (length frames))
                 frame_width frame_height).
    destruct frames as [| frame frames'] eqn:Ef; [contradiction |].
    rewrite <- Ef in *. rewrite <- append_assoc.
    rewrite parse_frame_declarations; try assumption.
    - apply group_frame_arrays;
        [exact Hne | apply forallb_word_dot, Hname | exact Hfr].
    - intros R. rewrite list_ascii_of_string_app, <- app_assoc. subst hc.
      rewrite pass_header_comment by exact Hname.
      apply (pass_clear (s2l newline)). reflexivity. }
  destruct Hhdr as (text & Et & Hg).
  destruct (export_sprite_all_valid resize frames frame_width frame_height scale)
    as (png & Ep & _ & Hc); try assumption.
  { apply Forall_forall. intros p Hp. rewrite Forall_forall in Hlen, H16.
    split; [apply Hlen, Hp | apply H16, Hp]. }
  exists frames, text, png.
  split; [exact Ec |]. split.
  - unfold process_file. rewrite Ec. cbn [bind]. exact Et.
  - split; [exact Hg |]. split; [exact Ep | exact Hc].
Qed.

End ToolChain.

Section ToolChainWitness.
Import Py Re.

Lemma frames_survive_tool_chain_witness :
  let img := Image (2, 1)
               (fun x _ => if x =? 0 then (255, 0, 255, 0) else (0, 0, 255, 255)) in
  exists frames text png,
    convert_sprite img 1 1 None None = Return frames /\
    process_file img "egg_idle" 1 1 None None = Return text /\
    group_frames (parse_sprite_arrays text) = [("egg_idle"%string, frames)] /\
    export_sprite (fun im _ => Return im) frames 1 1 1 = Return (Some png) /\
    convert_sprite png 1 1 None None = Return frames.
Proof.
  intros img.
  apply (frames_survive_tool_chain (fun im _ => Return im) img "egg_idle" 1 1 1 None);
    try (simpl; lia); try reflexivity; try discriminate.
  intros x y. simpl. unfold component. destruct (x =? 0); simpl; lia.
Defined.

End ToolChainWitness.

Section BatchMode.
Import Py.

Variable stem : string -> string.
Variable in_dir : string -> string.
Variable open : string -> image.
Variables (frame_width frame_height : Z).
Variable transparent_color : option (Z * Z * Z).
Variable cols : option Z.

(** [out] is the header file the batch writes for [png_file]. *)
Let output (png_file : string) (out : string * string) : Prop :=
  out.1 = in_dir (stem png_file +:+ ".h") /\
  process_file (open (in_dir png_file)) (stem png_file)
    frame_width frame_height transparent_color cols = Return out.2.

Lemma batch_app (before rest : list string) (outs written : list (string * string)) :
  Forall2 output before outs ->
  batch stem in_dir open (before ++ rest) frame_width frame_height
    transparent_color cols written
  = batch stem in_dir open rest frame_width frame_height
      transparent_color cols (written ++ outs).
Proof.
  intros H. revert written.
  induction H as [| f [path content] before outs [Hp Hc] _ IH]; intros written.
  - rewrite app_nil_r. reflexivity.
  - simpl in Hp, Hc. simpl app. cbn [batch]. rewrite Hc, IH, <- app_assoc.
    subst path. reflexivity.
Qed.

Lemma small_image_exits (img : image) (name : string) :
  0 < frame_width -> 0 < frame_height ->
  0 <= (size img).1 < frame_width \/ 0 <= (size img).2 < frame_height ->
  process_file img name frame_width frame_height transparent_color None
  = Raise (SystemExit 1).
Proof.
  intros Hw Hh Hsmall. unfold process_file.
  rewrite convert_sprite_unfold. unfold floordiv.
  destruct (Z.eqb_spec frame_width 0); [lia |].
  destruct (Z.eqb_spec frame_height 0); [lia |]. cbn [bind]. cbv zeta.
  destruct Hsmall as [H | H]; rewrite (Z.div_small _ _ H).
  - reflexivity.
  - rewrite orb_true_r. reflexivity.
Qed.

End BatchMode.

Section BatchExtras.
Import Py.

Variable stem : string -> string.
Variable in_dir : string -> string.
Variable open : string -> image.

(** X13.  The batch mode writes one header per file, in the order of the
    file list, each with the text [process_file] returns for it, and stops
    at the first file whose conversion does not return: the headers of the
    files before it stay written, no later file is read, and the run ends
    with that file's error.  In particular an image smaller than one cell
    ends the batch with exit status 1 after the earlier headers are
    written. *)
Theorem batch_stops_at_first_failure (before after : list string)
    (bad : string) (frame_width frame_height : Z)
    (transparent_color : option (Z * Z * Z)) (cols : option Z)
    (outs written : list (string * string)) :
  Forall2 (fun png_file out =>
             out.1 = in_dir (stem png_file +:+ ".h") /\
             process_file (open (in_dir png_file)) (stem png_file)
               frame_width frame_height transparent_color cols
             = Return out.2) before outs ->
  batch stem in_dir open before frame_width frame_height transparent_color
    cols written
  = (written ++ outs, Return tt) /\
  (forall e,
     process_file (open (in_dir bad)) (stem bad) frame_width frame_height
       transparent_color cols = Raise e ->
     batch stem in_dir open (before ++ bad :: after) frame_width frame_height
       transparent_color cols written
     = (written ++ outs, Raise e)) /\
  (cols = None -> 0 < frame_width -> 0 < frame_height ->
   0 <= (size (open (in_dir bad))).1 < frame_width \/
   0 <= (size (open (in_dir bad))).2 < frame_height ->
   batch stem in_dir open (before ++ bad :: after) frame_width frame_height
     transparent_color cols written
   = (written ++ outs, Raise (SystemExit 1))).
Proof.
  intros Hout.
  assert (Hbad : forall e,
            process_file (open (in_dir bad)) (stem bad) frame_width frame_height
              transparent_color cols = Raise e ->
            batch stem in_dir open (before ++ bad :: after) frame_width
              frame_height transparent_color cols written
            = (written ++ outs, Raise e)).
  { intros e He.
    rewrite (batch_app stem in_dir open frame_width frame_height
               transparent_color cols before (bad :: after) outs written Hout).
    cbn [batch]. rewrite He. reflexivity. }
  split; [| split].
  - rewrite <- (app_nil_r before).
    rewrite (batch_app stem in_dir open frame_width frame_height
               transparent_color cols before [] outs written Hout).
    reflexivity.
  - exact Hbad.
  - intros -> Hw Hh Hsmall. apply Hbad.
    apply small_image_exits; assumption.
Qed.

End BatchExtras.

Section BatchWitness.
Import Py.

Lemma batch_stops_at_first_failure_witness :
  let open := fun path : string =>
                if String.eqb path "a.png"
                then Image (1, 1) (fun _ _ => (0, 0, 255, 255))
                else Image (0, 0) (fun _ _ => (0, 0, 0, 0)) in
  let stem := fun f : string => String.substring 0 (String.length f - 4) f in
  exists content,
    batch stem (fun f => f) open ["a.png"; "b.png"; "c.png"]%string 1 1 None None []
    = ([("a.h"%string, content)], Raise (SystemExit 1)).
Proof.
  intros open stem.
  destruct (process_file (open "a.png"%string) (stem "a.png"%string) 1 1 None None)
    as [content |] eqn:E; [| vm_compute in E; discriminate].
  exists content.
  apply (batch_stops_at_first_failure stem (fun f => f) open
           ["a.png"%string] ["c.png"%string] "b.png" 1 1 None None
           [("a.h"%string, content)] []).
  - repeat constructor. exact E.
  - reflexivity.
  - lia.
  - lia.
  - left. simpl. lia.
Defined.

End BatchWitness.

Section Strip.
Import Py Re.

Local Abbreviation s2l := list_ascii_of_string.
Local Abbreviation l2s := string_of_list_ascii.

Lemma lstrip_app_stop (a r : list ascii) (c : ascii) :
  space c = false -> lstrip (a ++ c :: r) = lstrip a ++ c :: r.
Proof.
  intros Hc. induction a as [| x a IH]; simpl.
  - rewrite Hc. reflexivity.
  - destruct (space x); [exact IH | reflexivity].
Qed.

Lemma lstrip_idem (s : list ascii) : lstrip (lstrip s) = lstrip s.
Proof.
  induction s as [| x s IH]; [reflexivity |]. simpl.
  destruct (space x) eqn:E; [exact IH |]. simpl. rewrite E. reflexivity.
Qed.

Lemma lstrip_snoc (a : list ascii) (c : ascii) :
  lstrip (a ++ [c])
  = if forallb space a then lstrip [c] else lstrip a ++ [c].
Proof.
  induction a as [| x a IH]; [reflexivity |]. simpl.
  destruct (space x); [exact IH | reflexivity].
Qed.

Lemma lstrip_spaces (a : list ascii) : forallb space a = true -> lstrip a = [].
Proof.
  induction a as [| x a IH]; [reflexivity |]. simpl.
  destruct (space x); [exact IH | discriminate].
Qed.

Lemma forallb_reverse (p : ascii -> bool) (l : list ascii) :
  forallb p (rev l) = forallb p l.
Proof.
  induction l as [| x l IH]; [reflexivity |]. simpl.
  rewrite forallb_app, IH. simpl. rewrite andb_true_r. apply andb_comm.
Qed.

Lemma rstrip_cons (c : ascii) (s : list ascii) :
  rstrip (c :: s)
  = if forallb space s then rev (lstrip [c]) else c :: rstrip s.
Proof.
  unfold rstrip. simpl rev. rewrite lstrip_snoc, forallb_reverse.
  destruct (forallb space s); [reflexivity |].
  rewrite rev_app_distr. reflexivity.
Qed.

Lemma rstrip_spaces (s : list ascii) : forallb space s = true -> rstrip s = [].
Proof.
  intros H. unfold rstrip. rewrite lstrip_spaces; [reflexivity |].
  rewrite forallb_reverse. exact H.
Qed.

Lemma rstrip_cons_stop (c : ascii) (s : list ascii) :
  space c = false -> rstrip (c :: s) = c :: rstrip s.
Proof.
  intros Hc. rewrite rstrip_cons. destruct (forallb space s) eqn:E.
  - simpl. rewrite Hc, rstrip_spaces by exact E. reflexivity.
  - reflexivity.
Qed.

Lemma rstrip_app_stop (a r : list ascii) (c : ascii) :
  space c = false -> rstrip (a ++ c :: r) = a ++ c :: rstrip r.
Proof.
  intros Hc. unfold rstrip. rewrite rev_app_distr. simpl rev.
  rewrite <- app_assoc. simpl app. rewrite lstrip_app_stop by exact Hc.
  rewrite rev_app_distr. simpl rev. rewrite rev_involutive, <- app_assoc.
  reflexivity.
Qed.

Lemma lstrip_cons (c : ascii) (s : list ascii) :
  lstrip (c :: s) = if space c then lstrip s else c :: s.
Proof. reflexivity. Qed.

Lemma lstrip_rstrip (s : list ascii) : lstrip (rstrip s) = rstrip (lstrip s).
Proof.
  induction s as [| c s IH]; [reflexivity |].
  rewrite (lstrip_cons c s). destruct (space c) eqn:Hc.
  - rewrite rstrip_cons. destruct (forallb space s) eqn:Hs.
    + rewrite (lstrip_cons c []), Hc. simpl.
      rewrite (lstrip_spaces s Hs). reflexivity.
    + rewrite lstrip_cons, Hc. exact IH.
  - rewrite rstrip_cons_stop by exact Hc. rewrite lstrip_cons, Hc. reflexivity.
Qed.

Lemma rstrip_idem (s : list ascii) : rstrip (rstrip s) = rstrip s.
Proof.
  unfold rstrip. rewrite rev_involutive, lstrip_idem. reflexivity.
Qed.

Lemma s2l_l2s (l : list ascii) : s2l (l2s l) = l.
Proof. apply list_ascii_of_string_of_list_ascii. Qed.

(** Stripping a part that was stripped on one side already. *)
Lemma strip_lstrip (l : list ascii) :
  strip (l2s (lstrip l)) = l2s (rstrip (lstrip l)).
Proof. unfold strip. rewrite s2l_l2s, lstrip_idem. reflexivity. Qed.

Lemma strip_rstrip (l : list ascii) :
  strip (l2s (rstrip l)) = l2s (rstrip (lstrip l)).
Proof.
  unfold strip. rewrite s2l_l2s, lstrip_rstrip, rstrip_idem. reflexivity.
Qed.

End Strip.

Section ConfigLine.
Import Py Re.

Local Abbreviation s2l := list_ascii_of_string.
Local Abbreviation l2s := string_of_list_ascii.
Local Abbreviation comma_free := (Forall (fun c : ascii => c <> ","%char)).

Lemma split_from_part (cur p r : list ascii) :
  comma_free p ->
  split_from cur (p ++ ","%char :: r) = l2s (rev cur ++ p) :: split_from [] r.
Proof.
  intros Hp. revert cur. induction Hp as [| c p Hc Hp IH]; intros cur.
  - simpl. rewrite app_nil_r. reflexivity.
  - simpl app. cbn [split_from].
    destruct (Ascii.eqb_spec c ","%char) as [-> | _]; [contradiction |].
    rewrite IH. simpl rev. rewrite <- app_assoc. reflexivity.
Qed.

Lemma split_from_last (cur p : list ascii) :
  comma_free p -> split_from cur p = [l2s (rev cur ++ p)].
Proof.
  intros Hp. revert cur. induction Hp as [| c p Hc Hp IH]; intros cur.
  - simpl. rewrite app_nil_r. reflexivity.
  - cbn [split_from].
    destruct (Ascii.eqb_spec c ","%char) as [-> | _]; [contradiction |].
    rewrite IH. simpl rev. rewrite <- app_assoc. reflexivity.
Qed.

Let count (s : list ascii) : nat :=
  length (filter (fun c => c = ","%char) s).

Lemma length_split_from (cur s : list ascii) :
  length (split_from cur s) = S (count s).
Proof.
  revert cur. induction s as [| c s IH]; intros cur; [reflexivity |].
  cbn [split_from]. unfold count.
  destruct (Ascii.eqb_spec c ","%char) as [-> | Hc].
  - rewrite filter_cons_True by reflexivity. simpl. rewrite IH. reflexivity.
  - rewrite filter_cons_False by exact Hc. apply IH.
Qed.

Lemma space_not_comma (c : ascii) : space c = true -> c <> ","%char.
Proof. intros H ->. discriminate. Qed.

Lemma count_lstrip (s : list ascii) : count (lstrip s) = count s.
Proof.
  induction s as [| c s IH]; [reflexivity |]. simpl.
  destruct (space c) eqn:Hc; [| reflexivity].
  unfold count in *. rewrite filter_cons_False by (apply space_not_comma, Hc).
  exact IH.
Qed.

Lemma count_rev (s : list ascii) : count (rev s) = count s.
Proof.
  unfold count. induction s as [| c s IH]; [reflexivity |]. simpl.
  rewrite filter_app, length_app, IH.
  destruct (decide (c = ","%char)) as [-> | Hc].
  - rewrite !filter_cons_True by reflexivity. simpl. lia.
  - rewrite !filter_cons_False by exact Hc. simpl. lia.
Qed.

Lemma commas_strip (line : string) : commas (strip line) = commas line.
Proof.
  unfold commas, strip. rewrite list_ascii_of_string_of_list_ascii.
  fold (count (rstrip (lstrip (s2l line)))). fold (count (s2l line)).
  unfold rstrip. rewrite count_rev, count_lstrip, count_rev, count_lstrip.
  reflexivity.
Qed.

Lemma comma_free_count (s : string) :
  commas s = 0%nat -> comma_free (s2l s).
Proof.
  unfold commas. intros H. apply Forall_forall. intros c Hc ->.
  apply length_zero_iff_nil in H.
  assert (Hin : ","%char ∈ filter (fun c => c = ","%char) (s2l s))
    by (apply list_elem_of_filter; split; [reflexivity | exact Hc]).
  rewrite H in Hin. inversion Hin.
Qed.

Lemma comma_free_lstrip (s : list ascii) : comma_free s -> comma_free (lstrip s).
Proof.
  induction 1 as [| c s Hc Hs IH]; [constructor |]. simpl.
  destruct (space c); [exact IH | constructor; assumption].
Qed.

Lemma comma_free_rstrip (s : list ascii) : comma_free s -> comma_free (rstrip s).
Proof.
  intros H. unfold rstrip. apply Forall_rev, comma_free_lstrip, Forall_rev, H.
Qed.

Lemma lstrip_head (s t : list ascii) (c : ascii) :
  lstrip s = c :: t -> space c = false.
Proof.
  induction s as [| x s IH]; [discriminate |]. simpl.
  destruct (space x) eqn:E; [exact IH |]. intros [= <- _]. exact E.
Qed.

Lemma l2s_nonempty (c : ascii) (l : list ascii) :
  String.eqb (l2s (c :: l)) "" = false.
Proof. reflexivity. Qed.

Variable int : string -> option Z.

(** What a line of three comma-free fields does. *)
Lemma config_line_fields (config : gmap string (Z * bool)) (p0 p1 p2 : string) :
  commas p0 = 0%nat -> commas p1 = 0%nat -> commas p2 = 0%nat ->
  config_line int config (p0 +:+ "," +:+ p1 +:+ "," +:+ p2)
  = if is_comment (strip p0) then config
    else match int (strip p1) with
         | Some delay =>
             <[strip p0 := (delay,
                            String.eqb (map_string lower (strip p2)) "true")]>
               config
         | None => config
         end.
Proof.
  intros H0 H1 H2.
  apply comma_free_count in H0, H1, H2.
  assert (E : strip (p0 +:+ "," +:+ p1 +:+ "," +:+ p2)
              = l2s (lstrip (s2l p0)
                     ++ ","%char :: s2l p1 ++ ","%char :: rstrip (s2l p2))).
  { unfold strip. f_equal.
    rewrite !list_ascii_of_string_app. simpl app.
    rewrite lstrip_app_stop by reflexivity.
    rewrite (app_comm_cons _ _ ","%char), app_assoc.
    rewrite rstrip_app_stop by reflexivity.
    rewrite <- app_assoc. reflexivity. }
  unfold config_line. cbv zeta. rewrite E.
  assert (Ec : is_comment
                 (l2s (lstrip (s2l p0)
                       ++ ","%char :: s2l p1 ++ ","%char :: rstrip (s2l p2)))
               = is_comment (strip p0)).
  { unfold strip. destruct (lstrip (s2l p0)) as [| c t] eqn:El; [reflexivity |].
    rewrite rstrip_cons_stop by (eapply lstrip_head, El). reflexivity. }
  assert (En : String.eqb
                 (l2s (lstrip (s2l p0)
                       ++ ","%char :: s2l p1 ++ ","%char :: rstrip (s2l p2)))
                 "" = false).
  { destruct (lstrip (s2l p0)); reflexivity. }
  rewrite En, Ec. cbn [orb].
  destruct (is_comment (strip p0)); [reflexivity |].
  unfold split. rewrite list_ascii_of_string_of_list_ascii.
  rewrite split_from_part by (apply comma_free_lstrip, H0).
  rewrite split_from_part by exact H1.
  rewrite split_from_last by (apply comma_free_rstrip, H2).
  cbn [rev app].
  rewrite strip_lstrip, strip_rstrip.
  rewrite (string_of_list_ascii_of_string p1).
  reflexivity.
Qed.

(** A line whose number of commas is not two changes nothing. *)
Lemma config_line_ignored (config : gmap string (Z * bool)) (line : string) :
  commas line <> 2%nat -> config_line int config line = config.
Proof.
  intros H. unfold config_line. cbv zeta.
  destruct (_ || _); [reflexivity |].
  pose proof (length_split_from [] (s2l (strip line))) as Hl.
  fold (split (strip line)) in Hl.
  change (count (s2l (strip line))) with (commas (strip line)) in Hl.
  rewrite commas_strip in Hl.
  destruct (split (strip line)) as [| a [| b [| c [| d l]]]]; try reflexivity.
  simpl in Hl. lia.
Qed.

End ConfigLine.

Section ConfigExtras.
Import Py Re.

Local Abbreviation s2l := list_ascii_of_string.
Local Abbreviation l2s := string_of_list_ascii.
Local Abbreviation comma_free := (Forall (fun c : ascii => c <> ","%char)).

Lemma commas_zero (l : list ascii) : comma_free l -> commas (l2s l) = 0%nat.
Proof.
  intros H. unfold commas. rewrite list_ascii_of_string_of_list_ascii.
  induction H as [| c l Hc Hl IH]; [reflexivity |].
  rewrite filter_cons_False by exact Hc. exact IH.
Qed.

Lemma l2s_app (a b : list ascii) : l2s (a ++ b) = l2s a +:+ l2s b.
Proof.
  induction a as [| x a IH]; [reflexivity |]. simpl. rewrite IH. reflexivity.
Qed.

(** The text up to the first comma. *)
Lemma first_comma (s : list ascii) (n : nat) :
  length (filter (fun c => c = ","%char) s) = S n ->
  exists a r, comma_free a /\ s = a ++ ","%char :: r /\
              length (filter (fun c => c = ","%char) r) = n.
Proof.
  induction s as [| c s IH]; [discriminate |].
  destruct (decide (c = ","%char)) as [-> | Hc].
  - rewrite filter_cons_True by reflexivity. intros [= H].
    exists [], s. split; [constructor | split; [reflexivity | exact H]].
  - rewrite filter_cons_False by exact Hc. intros H.
    destruct (IH H) as (a & r & Ha & -> & Hr).
    exists (c :: a), r. split; [constructor; assumption |].
    split; [reflexivity | exact Hr].
Qed.

Lemma no_comma (s : list ascii) :
  length (filter (fun c => c = ","%char) s) = 0%nat -> comma_free s.
Proof.
  induction s as [| c s IH]; [constructor |].
  destruct (decide (c = ","%char)) as [-> | Hc].
  - rewrite filter_cons_True by reflexivity. discriminate.
  - rewrite filter_cons_False by exact Hc. intros H.
    constructor; [exact Hc | apply IH, H].
Qed.

Lemma three_fields (line : string) :
  commas line = 2%nat ->
  exists p0 p1 p2,
    commas p0 = 0%nat /\ commas p1 = 0%nat /\ commas p2 = 0%nat /\
    line = p0 +:+ "," +:+ p1 +:+ "," +:+ p2.
Proof.
  unfold commas at 1. intros H.
  destruct (first_comma _ _ H) as (a & r & Ha & E & Hr).
  destruct (first_comma _ _ Hr) as (b & c & Hb & -> & Hc).
  apply no_comma in Hc.
  exists (l2s a), (l2s b), (l2s c).
  repeat (split; [apply commas_zero; assumption |]).
  rewrite <- (string_of_list_ascii_of_string line), E.
  rewrite l2s_app. change (l2s (","%char :: b ++ ","%char :: c))
    with (String "," (l2s (b ++ ","%char :: c))).
  rewrite l2s_app. reflexivity.
Qed.

Variable int : string -> option Z.

(** X14.  What a line of [sprite_config.txt] does.  A line whose number of
    commas is not two, a blank line and a line whose first character after
    stripping is [#] leave the table as it is.  A line with two commas is
    [p0,p1,p2] for three comma-free fields: unless [p0] stripped starts
    with [#], and provided [int] accepts [p1] stripped, it sets the entry
    of the name [p0] stripped to the delay [int] returns, which is not
    checked for sign or size, and to the loop flag that is true exactly
    when [p2] stripped is the word true in any letter case; when [int]
    rejects the delay the table is left as it is. *)
Theorem config_line_spec (config : gmap string (Z * bool)) (line : string) :
  (commas line <> 2%nat -> config_line int config line = config) /\
  (strip line = ""%string \/ is_comment (strip line) = true ->
   config_line int config line = config) /\
  (commas line = 2%nat ->
   exists p0 p1 p2,
     commas p0 = 0%nat /\ commas p1 = 0%nat /\ commas p2 = 0%nat /\
     line = p0 +:+ "," +:+ p1 +:+ "," +:+ p2) /\
  (forall p0 p1 p2,
     commas p0 = 0%nat -> commas p1 = 0%nat -> commas p2 = 0%nat ->
     line = p0 +:+ "," +:+ p1 +:+ "," +:+ p2 ->
     config_line int config line
     = if is_comment (strip p0) then config
       else match int (strip p1) with
            | Some delay =>
                <[strip p0 := (delay,
                               String.eqb (map_string lower (strip p2)) "true")]>
                  config
            | None => config
            end).
Proof.
  split; [apply config_line_ignored |]. split; [| split].
  - intros H. unfold config_line. cbv zeta.
    destruct H as [-> | ->]; [reflexivity |].
    rewrite orb_true_r. reflexivity.
  - apply three_fields.
  - intros p0 p1 p2 H0 H1 H2 ->. apply config_line_fields; assumption.
Qed.

Lemma config_line_keeps (config : gmap string (Z * bool)) (line name : string) :
  is_Some (config !! name) -> is_Some (config_line int config line !! name).
Proof.
  intros H. unfold config_line. cbv zeta.
  destruct (_ || _); [exact H |].
  destruct (split (strip line)) as [| a [| b [| c [| d l]]]]; try exact H.
  destruct (int (strip b)); [| exact H].
  apply lookup_insert_is_Some'. right. exact H.
Qed.

(** X15.  The table [load_anim_config] returns: the defaults when there is
    no file or when no line of the file has exactly two commas; each line
    acts on the table the lines before it left, so a later line for a name
    wins; and whatever the file holds, every name of [SPRITE_NAMES] has an
    entry, so that the fallback [(500, True)] of [generate_spritedata] is
    never taken. *)
Theorem load_anim_config_table (file : option (list string)) :
  load_anim_config int None = DEFAULT_ANIM_CONFIG /\
  (forall lines, file = Some lines ->
                 Forall (fun line => commas line <> 2%nat) lines ->
                 load_anim_config int file = DEFAULT_ANIM_CONFIG) /\
  (forall lines line,
     load_anim_config int (Some (lines ++ [line]))
     = config_line int (load_anim_config int (Some lines)) line) /\
  (forall name, name ∈ SPRITE_NAMES ->
                is_Some (load_anim_config int file !! name)).
Proof.
  split; [reflexivity |]. split; [| split].
  - intros lines -> H. simpl.
    generalize DEFAULT_ANIM_CONFIG as config.
    induction H as [| line lines Hl _ IH]; intros config; [reflexivity |].
    simpl. rewrite config_line_ignored by exact Hl. apply IH.
  - intros lines line. simpl. apply foldl_snoc.
  - intros name Hname.
    assert (Hd : is_Some (DEFAULT_ANIM_CONFIG !! name)).
    { unfold SPRITE_NAMES in Hname.
      repeat (apply elem_of_cons in Hname as [-> | Hname];
              [eexists; vm_compute; reflexivity |]).
      inversion Hname. }
    destruct file as [lines |]; [| exact Hd]. simpl.
    revert Hd. generalize DEFAULT_ANIM_CONFIG as config.
    induction lines as [| line lines IH]; intros config Hd; [exact Hd |].
    simpl. apply IH, config_line_keeps, Hd.
Qed.

End ConfigExtras.

Section ConfigWitnesses.
Import Py Re.

Lemma config_line_spec_witness :
  let int := fun s : string => if String.eqb s "250" then Some 250 else None in
  config_line int DEFAULT_ANIM_CONFIG "  eating , 250 ,TRUE "
  = <["eating"%string := (250, true)]> DEFAULT_ANIM_CONFIG.
Proof.
  intros int.
  destruct (config_line_spec int DEFAULT_ANIM_CONFIG "  eating , 250 ,TRUE ")
    as (_ & _ & _ & H).
  rewrite (H "  eating " " 250 " "TRUE "); reflexivity.
Defined.

Lemma load_anim_config_table_witness :
  let int := fun s : string => if String.eqb s "250" then Some 250 else None in
  is_Some (load_anim_config int
             (Some ["# delays"; "ghost,fast,true"; "ghost,250,no"]%string)
           !! "ghost"%string).
Proof.
  intros int.
  destruct (load_anim_config_table int
              (Some ["# delays"; "ghost,fast,true"; "ghost,250,no"]%string))
    as (_ & _ & _ & H).
  apply H. unfold SPRITE_NAMES.
  do 5 apply list_elem_of_further. apply list_elem_of_here.
Defined.

End ConfigWitnesses.

Section Transparent.
Import Py Re.

Local Abbreviation s2l := list_ascii_of_string.
Local Abbreviation l2s := string_of_list_ascii.

Variable int : string -> option Z.

Lemma split_fields (p0 p1 p2 : string) :
  commas p0 = 0%nat -> commas p1 = 0%nat -> commas p2 = 0%nat ->
  split (p0 +:+ "," +:+ p1 +:+ "," +:+ p2) = [p0; p1; p2].
Proof.
  intros H0 H1 H2. apply comma_free_count in H0, H1, H2.
  unfold split. rewrite !list_ascii_of_string_app. simpl app.
  rewrite split_from_part by exact H0.
  rewrite split_from_part by exact H1.
  rewrite split_from_last by exact H2.
  cbn [rev app]. rewrite !string_of_list_ascii_of_string. reflexivity.
Qed.

(** X16.  The [--transparent] option: absent or empty it gives no colour
    key; otherwise it gives a key only when the text has exactly three
    comma-separated fields that [int] accepts after stripping, each in
    [0,255], and that key is the three values in order; every other text
    ends the program with exit status 1, and no other error leaves the
    parser.  So a colour key that reaches [convert_sprite] has 8-bit
    components. *)
Theorem parse_transparent_outcome (arg : option string) :
  (arg = None \/ arg = Some ""%string ->
   parse_transparent int arg = Return None) /\
  (forall p0 p1 p2 r g b,
     commas p0 = 0%nat -> commas p1 = 0%nat -> commas p2 = 0%nat ->
     arg = Some (p0 +:+ "," +:+ p1 +:+ "," +:+ p2) ->
     int (strip p0) = Some r -> int (strip p1) = Some g ->
     int (strip p2) = Some b ->
     parse_transparent int arg
     = if (0 <=? r) && (r <=? 255) && (0 <=? g) && (g <=? 255)
          && (0 <=? b) && (b <=? 255)
       then Return (Some (r, g, b)) else Raise (SystemExit 1)) /\
  (forall s, arg = Some s -> s <> ""%string -> commas s <> 2%nat ->
             parse_transparent int arg = Raise (SystemExit 1)) /\
  (forall key, parse_transparent int arg = Return (Some key) ->
               component key.1.1 /\ component key.1.2 /\ component key.2) /\
  (forall e, parse_transparent int arg = Raise e -> e = SystemExit 1).
Proof.
  split; [| split; [| split; [| split]]].
  - intros [-> | ->]; reflexivity.
  - intros p0 p1 p2 r g b H0 H1 H2 -> Hr Hg Hb. unfold parse_transparent.
    assert (Hne : String.eqb (p0 +:+ "," +:+ p1 +:+ "," +:+ p2) "" = false).
    { apply String.eqb_neq. intros E.
      apply (f_equal (fun s => length (s2l s))) in E.
      rewrite !list_ascii_of_string_app, !length_app in E. simpl in E. lia. }
    rewrite Hne. cbv zeta. rewrite split_fields by assumption.
    cbn [length Nat.eqb negb traverse]. rewrite Hr, Hg, Hb. cbn [bind].
    cbn [forallb]. rewrite andb_true_r.
    destruct (0 <=? r), (r <=? 255), (0 <=? g), (g <=? 255), (0 <=? b),
      (b <=? 255); reflexivity.
  - intros s -> Hne Hc. unfold parse_transparent.
    apply String.eqb_neq in Hne. rewrite Hne. cbv zeta.
    unfold split. rewrite length_split_from.
    change (length (filter (fun c => c = ","%char) (s2l s))) with (commas s).
    destruct (Nat.eqb_spec (S (commas s)) 3); [lia | reflexivity].
  - intros key H. unfold parse_transparent in H.
    destruct arg as [s |]; [| discriminate].
    destruct (String.eqb s ""); [discriminate |]. cbv zeta in H.
    destruct (negb _); [discriminate |].
    destruct (traverse _ _) as [[| r [| g [| b [| x l]]]] |]; try discriminate.
    cbn [forallb] in H.
    destruct (Z.leb_spec 0 r); [| discriminate].
    destruct (Z.leb_spec r 255); [| discriminate].
    destruct (Z.leb_spec 0 g); [| discriminate].
    destruct (Z.leb_spec g 255); [| discriminate].
    destruct (Z.leb_spec 0 b); [| discriminate].
    destruct (Z.leb_spec b 255); [| discriminate].
    injection H as <-. unfold component. simpl. lia.
  - intros e H. unfold parse_transparent in H.
    destruct arg as [s |]; [| discriminate].
    destruct (String.eqb s ""); [discriminate |]. cbv zeta in H.
    destruct (negb _); [congruence |].
    destruct (traverse _ _) as [[| r [| g [| b [| x l]]]] |]; try congruence.
    destruct (forallb _ _); congruence.
Qed.

End Transparent.

Section TransparentWitness.
Import Py Re.

Lemma parse_transparent_outcome_witness :
  let int := fun s : string =>
               if String.eqb s "255" then Some 255
               else if String.eqb s "0" then Some 0 else None in
  parse_transparent int (Some "255, 0 ,255"%string) = Return (Some (255, 0, 255)).
Proof.
  intros int.
  destruct (parse_transparent_outcome int (Some "255, 0 ,255"%string))
    as (_ & H & _).
  rewrite (H "255" " 0 " "255" 255 0 255); reflexivity.
Defined.

End TransparentWitness.

Section ConfigUse.
Import Py Re.

(** X17.  [generate_spritedata] reads the animation table only at the
    names of [SPRITE_NAMES]: two tables that agree there give the same
    outcome, text or error, so an entry that [sprite_config.txt] adds for
    any other name has no effect on the generated file. *)
Theorem generate_spritedata_reads_sprite_names
    (png : string -> option image) (config config' : gmap string (Z * bool))
    (frame_width frame_height : Z) (transparent_color : option (Z * Z * Z)) :
  (forall name, name ∈ SPRITE_NAMES -> config !! name = config' !! name) ->
  generate_spritedata png config frame_width frame_height transparent_color
  = generate_spritedata png config' frame_width frame_height transparent_color /\
  (forall name entry,
     name ∉ SPRITE_NAMES ->
     generate_spritedata png (<[name := entry]> config) frame_width
       frame_height transparent_color
     = generate_spritedata png config frame_width frame_height
         transparent_color).
Proof.
  assert (H : forall c c' : gmap string (Z * bool),
            (forall name, name ∈ SPRITE_NAMES -> c !! name = c' !! name) ->
            generate_spritedata png c frame_width frame_height transparent_color
            = generate_spritedata png c' frame_width frame_height
                transparent_color).
  { intros c c' Hc. unfold generate_spritedata, spritedata_lines.
    destruct (for_each SPRITE_NAMES _ _) as [[[lines counts] total] | e];
      [| reflexivity].
    cbn [bind]. cbv zeta. rewrite !table_lines_rows.
    do 5 f_equal. apply list_fmap_ext. intros i name Hi.
    unfold table_row. rewrite Hc; [reflexivity |].
    eapply list_elem_of_lookup_2, Hi. }
  intros Hagree. split; [apply H, Hagree |].
  intros name entry Hname. apply H. intros n Hn.
  apply lookup_insert_ne. intros ->. contradiction.
Qed.

Lemma generate_spritedata_reads_sprite_names_witness :
  generate_spritedata (fun _ => None)
    (<["dragon"%string := (100, false)]> DEFAULT_ANIM_CONFIG) 24 24 None
  = generate_spritedata (fun _ => None) DEFAULT_ANIM_CONFIG 24 24 None.
Proof.
  apply (generate_spritedata_reads_sprite_names (fun _ => None)
           DEFAULT_ANIM_CONFIG DEFAULT_ANIM_CONFIG 24 24 None).
  - reflexivity.
  - unfold SPRITE_NAMES. intros H.
    repeat (apply elem_of_cons in H as [H | H]; [discriminate |]).
    inversion H.
Defined.

End ConfigUse.

Section SpritedataLines.
Import Py Re.

Local Abbreviation s2l := list_ascii_of_string.

Lemma block_concat (name : string) (width : Z) (k : nat)
    (frames : list (list Z)) :
  concat (imap (fun i frame =>
                  [declaration_text
                     (array_declaration name (Z.of_nat (k + i)) frame width);
                   ""%string]) frames)
  = imap (fun i frame => array_declaration name (Z.of_nat (k + i)) frame width)
         frames
    ≫= (fun d => [declaration_text d; ""%string]).
Proof.
  revert k. induction frames as [| frame frames IH]; intros k; [reflexivity |].
  rewrite !imap_cons, bind_cons. cbn [concat]. f_equal.
  rewrite (imap_ext _ (fun i frame0 =>
                         [declaration_text
                            (array_declaration name (Z.of_nat (S k + i))
                               frame0 width); ""%string]))
    by (intros i x _; unfold compose;
        replace (k + S i)%nat with (S k + i)%nat by lia; reflexivity).
  rewrite IH. f_equal. apply imap_ext. intros i x _. unfold compose.
  replace (k + S i)%nat with (S k + i)%nat by lia. reflexivity.
Qed.

Variable png : string -> option image.
Variables (frame_width frame_height : Z).
Variable key : option (Z * Z * Z).
Hypothesis Hw : 0 < frame_width.

Let block (name : string) : list string :=
  d ← frame_declarations name
         (sprite_frames png frame_width frame_height key name) frame_width;
  [declaration_text d; ""%string].

Lemma process_sprite_lines lines counts total name lines' counts' total' :
  process_sprite png frame_width frame_height key (lines, counts, total) name
    = Return (lines', counts', total') ->
  lines' = lines ++ block name.
Proof.
  unfold process_sprite, block, sprite_frames.
  destruct (png (name +:+ ".png")) as [img |].
  - destruct (convert_sprite img frame_width frame_height key None)
      as [frames |]; [| discriminate].
    cbn [bind]. cbv zeta. unfold enumerate.
    rewrite (write_arrays name frame_width 0) by exact Hw. cbn [bind].
    intros [= <- _ _]. f_equal.
    rewrite (block_concat name frame_width 0). reflexivity.
  - intros [= <- _ _]. rewrite app_nil_r. reflexivity.
Qed.

Lemma process_all_lines (names : list string) lines counts total
    lines' counts' total' :
  for_each names (process_sprite png frame_width frame_height key)
    (lines, counts, total) = Return (lines', counts', total') ->
  lines' = lines ++ (names ≫= block).
Proof.
  revert lines counts total.
  induction names as [| name names IH]; intros lines counts total E;
    cbn [for_each] in E.
  - injection E as <- _ _. rewrite app_nil_r. reflexivity.
  - destruct (process_sprite png frame_width frame_height key
                (lines, counts, total) name) as [[[l1 c1] t1] |] eqn:E1;
      [| discriminate].
    apply process_sprite_lines in E1. cbn [bind] in E.
    apply IH in E. rewrite E, E1, bind_cons, <- app_assoc. reflexivity.
Qed.

Lemma anim_frame_lines_app (counts : gmap string Z) (lines : list string) :
  anim_frame_lines counts lines = lines ++ anim_frame_lines counts [].
Proof.
  unfold anim_frame_lines.
  match goal with |- foldl ?f _ _ = _ => set (body := f) end.
  assert (H : forall names acc,
            foldl body (lines ++ acc) names = lines ++ foldl body acc names).
  { induction names as [| name names IH]; intros acc; cbn [foldl];
      [reflexivity |].
    assert (Hb : body (lines ++ acc) name = lines ++ body acc name).
    { unfold body. destruct (_ =? 0); [reflexivity |].
      rewrite app_assoc. reflexivity. }
    rewrite Hb. apply IH. }
  rewrite <- (app_nil_r lines) at 1. apply H.
Qed.

(** The text [generate_spritedata] returns: the preamble, the arrays, each
    followed by a blank line, and the tables. *)
Lemma generate_spritedata_text (anim_config : gmap string (Z * bool))
    (text : string) :
  generate_spritedata png anim_config frame_width frame_height key
    = Return text ->
  exists counts,
    text = lines_text (preamble frame_width frame_height)
           +:+ spaced_text
                 ((fun d => (d, newline +:+ newline))
                    <$> spritedata_declarations png frame_width frame_height key)
           +:+ lines_text (table_part counts anim_config).
Proof.
  unfold generate_spritedata, spritedata_lines. cbv zeta.
  destruct (for_each SPRITE_NAMES _ _) as [[[lines counts] total] |] eqn:E;
    [| discriminate].
  apply process_all_lines in E. cbn [bind]. cbv zeta.
  rewrite table_lines_rows, anim_frame_lines_app.
  intros [= <-]. exists counts.
  change (String (ascii_of_nat 10) "") with newline.
  rewrite join_lines, append_nil_r. rewrite E.
  rewrite <- !app_assoc, !lines_text_app.
  fold (table_part counts anim_config).
  f_equal.
  assert (Eb : forall ds : list declaration,
             lines_text (ds ≫= (fun d => [declaration_text d; ""%string]))
             = spaced_text ((fun d => (d, newline +:+ newline)) <$> ds)).
  { induction ds as [| d ds IH]; [reflexivity |].
    rewrite bind_cons, fmap_cons, lines_text_app. cbn [lines_text spaced_text].
    rewrite IH, !append_assoc. reflexivity. }
  rewrite <- Eb. unfold spritedata_declarations.
  assert (Ec : forall names : list string,
             names ≫= block
             = (names ≫= (fun name =>
                  frame_declarations name
                    (sprite_frames png frame_width frame_height key name)
                    frame_width))
               ≫= (fun d => [declaration_text d; ""%string])).
  { induction names as [| name names IH]; [reflexivity |].
    rewrite !bind_cons, bind_app, IH. reflexivity. }
  rewrite Ec. f_equal. unfold table_part.
  rewrite !lines_text_app. reflexivity.
Qed.

End SpritedataLines.

Section SpritedataScan.
Import Py Re.

Local Abbreviation s2l := list_ascii_of_string.
Local Abbreviation keyword := (s2l "constexpr").

(** No match of the array pattern starts in [s], whatever follows. *)
Let spass (s : string) : Prop :=
  forall b, finditer_from pattern (s2l s ++ b) 0 = finditer_from pattern b 0.

Lemma spass_clear (s : string) : clear keyword (s2l s) = true -> spass s.
Proof. intros H b. apply pass_clear, H. Qed.

Lemma spass_app (a b : string) : spass a -> spass b -> spass (a +:+ b).
Proof.
  intros Ha Hb r. rewrite list_ascii_of_string_app, <- app_assoc, Ha. apply Hb.
Qed.

Lemma spass_str (z : Z) : spass (str z).
Proof. apply spass_clear, str_no_c. Qed.

Lemma spass_line (l : string) : spass l -> spass (l +:+ newline).
Proof. intros H. apply spass_app; [exact H | apply spass_clear; reflexivity]. Qed.

Lemma spass_lines (ls : list string) :
  Forall (fun l => spass (l +:+ newline)) ls -> spass (lines_text ls).
Proof.
  induction 1 as [| l ls Hl Hls IH]; [intros b; reflexivity |].
  cbn [lines_text]. rewrite <- append_assoc.
  apply spass_app; [exact Hl | exact IH].
Qed.

Lemma spass_join (sep : string) (parts : list string) :
  spass sep -> Forall spass parts -> spass (join sep parts).
Proof.
  intros Hsep. induction 1 as [| p ps Hp Hps IH]; [intros b; reflexivity |].
  destruct ps as [| q ps]; [exact Hp |].
  change (join sep (p :: q :: ps)) with (p +:+ sep +:+ join sep (q :: ps)).
  apply spass_app; [exact Hp |]. apply spass_app; [exact Hsep | exact IH].
Qed.

Lemma spass_anim : spass "constexpr AnimFrame frames_".
Proof.
  intros b.
  change (s2l "constexpr AnimFrame frames_")
    with (["c"%char] ++ s2l "onstexpr AnimFrame frames_").
  rewrite <- app_assoc. rewrite finditer_from_pass.
  - apply pass_clear. reflexivity.
  - intros a1 a2 E Hne.
    destruct a1 as [| x a1].
    + simpl in E. subst a2. vm_compute. reflexivity.
    + destruct a1; destruct a2; try discriminate; contradiction.
Qed.

Lemma spass_name (name : string) : name ∈ SPRITE_NAMES -> spass name.
Proof.
  unfold SPRITE_NAMES. intros H.
  repeat (apply elem_of_cons in H as [-> | H];
          [apply spass_clear; reflexivity |]).
  inversion H.
Qed.

Lemma spass_preamble (frame_width frame_height : Z) :
  spass (lines_text (preamble frame_width frame_height)).
Proof.
  apply spass_lines. unfold preamble.
  apply Forall_cons; split; [apply spass_clear; reflexivity |].
  apply Forall_cons; split; [apply spass_clear; reflexivity |].
  apply Forall_cons; split.
  { rewrite !append_assoc.
    apply spass_app; [apply spass_clear; reflexivity |].
    apply spass_app; [apply spass_str |].
    apply spass_app; [apply spass_clear; reflexivity |].
    apply spass_app; [apply spass_str | apply spass_clear; reflexivity]. }
  repeat (apply Forall_cons; split; [apply spass_clear; reflexivity |]).
  constructor.
Qed.

Lemma spass_anim_frame_lines (counts : gmap string Z) :
  Forall spass (anim_frame_lines counts []).
Proof.
  unfold anim_frame_lines.
  match goal with |- Forall _ (foldl ?f _ _) => set (body := f) end.
  assert (H : forall names acc,
            Forall (fun name => name ∈ SPRITE_NAMES) names ->
            Forall spass acc -> Forall spass (foldl body acc names)).
  { induction names as [| name names IH]; intros acc Hn Hacc; [exact Hacc |].
    inversion Hn as [| ? ? Hname Hnames]; subst. cbn [foldl].
    apply IH; [exact Hnames |]. unfold body.
    destruct (_ =? 0); [exact Hacc |].
    apply Forall_app. split; [exact Hacc |]. repeat constructor.
    apply spass_app; [apply spass_anim |].
    apply spass_app; [apply spass_name, Hname |].
    apply spass_app; [apply spass_clear; reflexivity |].
    apply spass_app; [| apply spass_clear; reflexivity].
    apply spass_join; [apply spass_clear; reflexivity |].
    apply Forall_fmap, Forall_forall. intros i _. simpl.
    apply spass_app; [apply spass_clear; reflexivity |].
    apply spass_app; [apply spass_name, Hname |].
    apply spass_app; [apply spass_clear; reflexivity |].
    apply spass_app; [apply spass_str | apply spass_clear; reflexivity]. }
  apply H; [| constructor].
  apply Forall_forall. intros name Hname. exact Hname.
Qed.

Lemma spass_table_row (counts : gmap string Z)
    (anim_config : gmap string (Z * bool)) (name : string) :
  name ∈ SPRITE_NAMES -> spass (table_row counts anim_config name).
Proof.
  intros Hname. unfold table_row. cbv zeta.
  destruct (_ =? 0).
  - apply spass_app; [apply spass_clear; reflexivity |].
    apply spass_app; [apply spass_name, Hname | apply spass_clear; reflexivity].
  - destruct (default (500, true) (anim_config !! name)) as [delay loop].
    apply spass_app; [apply spass_clear; reflexivity |].
    apply spass_app; [apply spass_name, Hname |].
    apply spass_app; [apply spass_clear; reflexivity |].
    apply spass_app; [apply spass_str |].
    apply spass_app; [apply spass_clear; reflexivity |].
    apply spass_app; [apply spass_str |].
    apply spass_app; [apply spass_clear; reflexivity |].
    apply spass_app; [destruct loop; apply spass_clear; reflexivity |].
    apply spass_clear; reflexivity.
Qed.

Lemma spass_table_part (counts : gmap string Z)
    (anim_config : gmap string (Z * bool)) :
  spass (lines_text (table_part counts anim_config)).
Proof.
  apply spass_lines. unfold table_part.
  apply Forall_app. split.
  { eapply Forall_impl; [apply spass_anim_frame_lines |].
    intros l Hl. apply spass_line, Hl. }
  apply Forall_app. split.
  { apply Forall_cons; split; [apply spass_clear; reflexivity |].
    apply Forall_cons; split; [apply spass_clear; reflexivity | constructor]. }
  apply Forall_app. split.
  - apply Forall_fmap, Forall_forall. intros name Hname.
    apply spass_line, spass_table_row, Hname.
  - apply Forall_cons; split; [apply spass_clear; reflexivity | constructor].
Qed.

(** Nothing but the arrays matches in a generated [SpriteData.h]. *)
Lemma spritedata_scan (frame_width frame_height : Z) (counts : gmap string Z)
    (anim_config : gmap string (Z * bool)) :
  (forall R, finditer_from pattern
               (s2l (lines_text (preamble frame_width frame_height)) ++ R) 0
             = finditer_from pattern R 0) /\
  finditer_from pattern (s2l (lines_text (table_part counts anim_config))) 0
  = [].
Proof.
  split; [apply spass_preamble |].
  rewrite <- (app_nil_r (s2l _)). rewrite spass_table_part. reflexivity.
Qed.

End SpritedataScan.

Section GroupBlocks.
Import Py Re.

Local Abbreviation s2l := list_ascii_of_string.

Lemma od_get_fresh {V} (d : list (string * V)) (k : string) :
  k ∉ d.*1 -> od_get d k = None.
Proof.
  induction d as [| [k' w] d IH]; intros Hk; [reflexivity |].
  apply not_elem_of_cons in Hk as [Hne Hk]. simpl.
  destruct (String.eqb_spec k' k) as [-> | _]; [contradiction | apply IH, Hk].
Qed.

Lemma od_get_last {V} (d : list (string * V)) (k : string) (v : V) :
  k ∉ d.*1 -> od_get (d ++ [(k, v)]) k = Some v.
Proof.
  induction d as [| [k' w] d IH]; intros Hk; simpl.
  - rewrite String.eqb_refl. reflexivity.
  - apply not_elem_of_cons in Hk as [Hne Hk].
    destruct (String.eqb_spec k' k) as [-> | _]; [contradiction | apply IH, Hk].
Qed.

Lemma od_set_last {V} (d : list (string * V)) (k : string) (v w : V) :
  k ∉ d.*1 -> od_set (d ++ [(k, v)]) k w = d ++ [(k, w)].
Proof.
  induction d as [| [k' x] d IH]; intros Hk; simpl.
  - rewrite String.eqb_refl. reflexivity.
  - apply not_elem_of_cons in Hk as [Hne Hk].
    destruct (String.eqb_spec k' k) as [-> | _]; [contradiction |].
    rewrite IH by exact Hk. reflexivity.
Qed.

Variable G : list (string * list (option (list Z))).
Variable name : string.
Hypothesis Hfresh : name ∉ G.*1.
Hypothesis Hne : name <> ""%string.
Hypothesis Hdot : forallb dot (s2l name) = true.

Lemma place_next_in (array_name : string) (done : list (list Z))
    (frame : list Z) :
  match_frame array_name = Some (name, length done) ->
  place (G ++ [(name, Some <$> done)]) (array_name, frame)
  = G ++ [(name, Some <$> (done ++ [frame]))].
Proof.
  intros Hm. unfold place. rewrite Hm.
  rewrite (od_get_last G name _ Hfresh).
  rewrite (od_get_last G name _ Hfresh). cbn [default].
  rewrite (od_set_last G name _ _ Hfresh). unfold id. do 3 f_equal.
  rewrite length_fmap.
  replace (S (length done) - length done)%nat with 1%nat by lia.
  cbn [replicate]. rewrite fmap_app. simpl.
  replace (length done) with (length (Some <$> done) + 0)%nat
    by (rewrite length_fmap; lia).
  rewrite insert_app_r. reflexivity.
Qed.

Lemma place_first_in (array_name : string) (frame : list Z) :
  match_frame array_name = Some (name, 0%nat) ->
  place G (array_name, frame) = G ++ [(name, [Some frame])].
Proof.
  intros Hm. unfold place. rewrite Hm.
  rewrite (od_get_fresh G name Hfresh).
  rewrite (od_set_fresh G name [] Hfresh).
  rewrite (od_get_last G name _ Hfresh). cbn [default].
  rewrite (od_set_last G name _ _ Hfresh). reflexivity.
Qed.

Lemma place_frames_in (done rest : list (list Z)) :
  foldl place (G ++ [(name, Some <$> done)])
    (imap (fun i frame =>
             ("sprite_" +:+ array_name name (Z.of_nat (length done + i)), frame))
          rest)
  = G ++ [(name, Some <$> (done ++ rest))].
Proof.
  revert done. induction rest as [| frame rest IH]; intros done.
  - rewrite app_nil_r. reflexivity.
  - rewrite imap_cons. cbn [foldl].
    rewrite place_next_in
      by (rewrite Nat.add_0_r; apply match_frame_array; assumption).
    rewrite (imap_ext _
               (fun i frame0 =>
                  ("sprite_"
                   +:+ array_name name (Z.of_nat (length (done ++ [frame]) + i)),
                   frame0))).
    + rewrite IH, <- app_assoc. reflexivity.
    + intros i x _. unfold compose. rewrite length_app. simpl.
      do 3 f_equal. lia.
Qed.

(** The arrays of a sprite that is new to the table add one entry at its
    end. *)
Lemma place_block (frames : list (list Z)) :
  foldl place G (frame_arrays name frames)
  = G ++ match frames with
         | [] => []
         | _ => [(name, Some <$> frames)]
         end.
Proof.
  destruct frames as [| frame rest]; [rewrite app_nil_r; reflexivity |].
  unfold frame_arrays. rewrite imap_cons. cbn [foldl].
  rewrite place_first_in by (apply (match_frame_array name 0); assumption).
  pose proof (place_frames_in [frame] rest) as H.
  change (Some <$> [frame]) with [Some frame] in H.
  cbn [length Nat.add] in H. unfold compose. rewrite H. reflexivity.
Qed.

End GroupBlocks.

Section GroupSprites.
Import Py Re.

Local Abbreviation s2l := list_ascii_of_string.

Variable F : string -> list (list Z).

Lemma place_blocks (names : list string)
    (G : list (string * list (option (list Z)))) :
  NoDup names ->
  (forall name, name ∈ names ->
     name <> ""%string /\ forallb dot (s2l name) = true /\ name ∉ G.*1) ->
  foldl place G (names ≫= (fun name => frame_arrays name (F name)))
  = G ++ omap (fun name =>
                 match F name with
                 | [] => None
                 | frames => Some (name, Some <$> frames)
                 end) names.
Proof.
  intros Hnd. revert G. induction Hnd as [| name names Hname Hnd IH];
    intros G Hok.
  - rewrite app_nil_r. reflexivity.
  - destruct (Hok name) as (Hne & Hdot & Hfresh); [apply list_elem_of_here |].
    rewrite bind_cons, foldl_app.
    rewrite (place_block G name Hfresh Hne Hdot (F name)).
    rewrite IH.
    + csimpl. destruct (F name) as [| f fs].
      * rewrite app_nil_r. reflexivity.
      * rewrite <- app_assoc. reflexivity.
    + intros n Hn. destruct (Hok n) as (H1 & H2 & H3);
        [apply list_elem_of_further, Hn |].
      split; [exact H1 |]. split; [exact H2 |].
      destruct (F name) as [| f fs]; [rewrite app_nil_r; exact H3 |].
      rewrite fmap_app. apply not_elem_of_app. split; [exact H3 |].
      simpl. intros H. apply list_elem_of_singleton in H. subst n.
      contradiction.
Qed.

Lemma omap_id_some (l : list (list Z)) : omap id (Some <$> l) = l.
Proof.
  induction l as [| x l IH]; [reflexivity |]. csimpl. rewrite IH. reflexivity.
Qed.

(** Grouping the arrays of distinct sprites gives each sprite that has
    frames, with its frames, in the order of the names. *)
Lemma group_blocks (names : list string) :
  NoDup names ->
  (forall name, name ∈ names ->
     name <> ""%string /\ forallb dot (s2l name) = true) ->
  group_frames (names ≫= (fun name => frame_arrays name (F name)))
  = omap (fun name =>
            match F name with
            | [] => None
            | frames => Some (name, frames)
            end) names.
Proof.
  intros Hnd Hok. unfold group_frames.
  rewrite (place_blocks names [] Hnd).
  - simpl app. rewrite list_fmap_omap. apply list_omap_ext.
    apply Forall2_same_length_lookup_2; [reflexivity |].
    intros i n n' Hn Hn'. rewrite Hn in Hn'. injection Hn' as <-.
    destruct (F n) as [| f fs]; [reflexivity |].
    unfold fmap at 1, option_fmap, option_map. do 2 f_equal.
    exact (omap_id_some (f :: fs)).
  - intros name Hname. destruct (Hok name Hname) as [H1 H2].
    split; [exact H1 |]. split; [exact H2 |]. intros H. inversion H.
Qed.

End GroupSprites.

Section SpritedataRoundTrip.
Import Py Re.

Local Abbreviation s2l := list_ascii_of_string.
Local Abbreviation keyword := (s2l "constexpr").

Lemma parse_spaced_between (ds : list (declaration * string))
    (lead tail : string) :
  (forall R, finditer_from pattern (s2l lead ++ R) 0
             = finditer_from pattern R 0) ->
  finditer_from pattern (s2l tail) 0 = [] ->
  Forall (fun dg : declaration * string =>
            declaration_ok dg.1 /\ clear keyword (s2l dg.2) = true) ds ->
  parse_sprite_arrays (lead +:+ spaced_text ds +:+ tail)
  = foldl (fun arrays (dg : declaration * string) =>
             od_set arrays (declaration_name dg.1)
                    (hex_literal_values (d_body dg.1)))
          [] ds.
Proof.
  intros Hlead Htail Hok. unfold parse_sprite_arrays, finditer.
  rewrite !list_ascii_of_string_app, Hlead.
  rewrite finditer_spaced by exact Hok. rewrite Htail, app_nil_r.
  generalize (@nil (string * list Z)) as acc.
  induction Hok as [| [d gap] ds [Hd _] Hds IH]; intros acc; csimpl;
    [reflexivity |].
  unfold brace_list at 1.
  destruct Hd as (_ & _ & _ & _ & Hl & Hbody & _).
  rewrite hex_values_body by assumption. apply IH.
Qed.

Lemma sprite_names_facts :
  NoDup SPRITE_NAMES /\
  forall name, name ∈ SPRITE_NAMES ->
    name <> ""%string /\ forallb word (s2l name) = true.
Proof.
  split.
  - unfold SPRITE_NAMES.
    repeat (apply NoDup_cons; split;
            [intros H;
             repeat (apply elem_of_cons in H as [H | H]; [discriminate |]);
             inversion H |]).
    constructor.
  - unfold SPRITE_NAMES. intros name H.
    repeat (apply elem_of_cons in H as [-> | H];
            [split; [discriminate | reflexivity] |]).
    inversion H.
Qed.

Variable png : string -> option image.
Variables (frame_width frame_height : Z).
Variable key : option (Z * Z * Z).
Hypothesis Hw : 0 < frame_width.
Hypothesis Himg :
  forall name img x y,
    png (name +:+ ".png") = Some img ->
    component (pixel img x y).1.1.1 /\
    component (pixel img x y).1.1.2 /\
    component (pixel img x y).1.2.

Let F (name : string) : list (list Z) :=
  sprite_frames png frame_width frame_height key name.

Lemma sprite_frames_values (name : string) :
  Forall (Forall (fun v => 0 <= v)) (F name).
Proof.
  unfold F, sprite_frames.
  destruct (png (name +:+ ".png")) as [img |] eqn:Ep; [| constructor].
  destruct (convert_sprite img frame_width frame_height key None)
    as [frames |] eqn:Ec; [| constructor].
  apply (convert_sprite_returned _ _ _ _ (convert_pixel key)) in Ec;
    [| reflexivity].
  destruct Ec as (_ & _ & ->).
  eapply Forall_impl;
    [apply cells_16bit; intros x y; apply (Himg name img x y Ep) |].
  intros p Hp. eapply Forall_impl; [exact Hp |]. intros v Hv. simpl in Hv. lia.
Qed.

Lemma spritedata_declarations_facts (names : list string) :
  (forall name, name ∈ names -> forallb word (s2l name) = true) ->
  let ds := names ≫= (fun name =>
              frame_declarations name (F name) frame_width) in
  Forall declaration_ok ds /\
  declaration_name <$> ds
  = names ≫= (fun name =>
      (fun i => "sprite_" +:+ array_name name (Z.of_nat i))
        <$> seq 0 (length (F name))) /\
  (fun d => (declaration_name d, hex_literal_values (d_body d))) <$> ds
  = names ≫= (fun name => frame_arrays name (F name)).
Proof.
  induction names as [| name names IH]; intros Hnames ds.
  - repeat split. constructor.
  - destruct IH as (IH1 & IH2 & IH3).
    { intros n Hn. apply Hnames, list_elem_of_further, Hn. }
    destruct (frame_declarations_offset name frame_width 0 (F name) Hw)
      as (H1 & H2 & H3).
    { apply Hnames, list_elem_of_here. }
    { apply sprite_frames_values. }
    cbn [Nat.add] in H1, H2, H3.
    fold (frame_declarations name (F name) frame_width) in H1, H2, H3.
    fold (frame_arrays name (F name)) in H3.
    subst ds. rewrite !bind_cons, !fmap_app.
    split; [apply Forall_app; split; assumption |].
    split; [rewrite H2, IH2 | rewrite H3, IH3]; reflexivity.
Qed.

Lemma spritedata_names_nodup :
  NoDup (SPRITE_NAMES ≫= (fun name =>
           (fun i => "sprite_" +:+ array_name name (Z.of_nat i))
             <$> seq 0 (length (F name)))).
Proof.
  destruct sprite_names_facts as [Hnd Hnames].
  apply NoDup_bind; [| | exact Hnd].
  - intros n1 n2 y H1 H2 Hy1 Hy2.
    apply list_elem_of_fmap in Hy1 as (i & -> & _).
    apply list_elem_of_fmap in Hy2 as (j & Hy & _).
    destruct (Hnames n1 H1) as [Hne1 Hw1]. destruct (Hnames n2 H2) as [Hne2 Hw2].
    pose proof (match_frame_array n1 i Hne1 (forallb_word_dot _ Hw1)) as M1.
    pose proof (match_frame_array n2 j Hne2 (forallb_word_dot _ Hw2)) as M2.
    rewrite Hy, M2 in M1. congruence.
  - intros n _. apply NoDup_fmap_2_strong; [| apply NoDup_seq].
    intros i j _ _. apply array_name_inj.
Qed.

(** The arrays and the sprites read from a text of the generated
    shape. *)
Lemma spritedata_text_parsed (counts : gmap string Z)
    (anim_config : gmap string (Z * bool)) :
  let text :=
    lines_text (preamble frame_width frame_height)
    +:+ spaced_text
          ((fun d => (d, newline +:+ newline))
             <$> spritedata_declarations png frame_width frame_height key)
    +:+ lines_text (table_part counts anim_config) in
  parse_sprite_arrays text
  = spritedata_arrays png frame_width frame_height key /\
  group_frames (parse_sprite_arrays text)
  = spritedata_sprites png frame_width frame_height key.
Proof.
  intros text. subst text.
  destruct sprite_names_facts as [Hnd Hnames].
  destruct (spritedata_declarations_facts SPRITE_NAMES) as (Hok & Hn & Hv).
  { intros name Hname. apply (Hnames name Hname). }
  change (spritedata_declarations png frame_width frame_height key)
    with (SPRITE_NAMES ≫= (fun name =>
            frame_declarations name (F name) frame_width)).
  change (spritedata_arrays png frame_width frame_height key)
    with (SPRITE_NAMES ≫= (fun name => frame_arrays name (F name))).
  set (ds := SPRITE_NAMES ≫= (fun name =>
               frame_declarations name (F name) frame_width)) in *.
  destruct (spritedata_scan frame_width frame_height counts anim_config)
    as [Hlead Htail].
  assert (Hparse :
            parse_sprite_arrays
              (lines_text (preamble frame_width frame_height)
               +:+ spaced_text ((fun d => (d, newline +:+ newline)) <$> ds)
               +:+ lines_text (table_part counts anim_config))
            = SPRITE_NAMES ≫= (fun name => frame_arrays name (F name))).
  { rewrite parse_spaced_between; [| exact Hlead | exact Htail |].
    - rewrite (foldl_od_set_fresh
                 (fun dg : declaration * string => declaration_name dg.1)
                 (fun dg : declaration * string =>
                    hex_literal_values (d_body dg.1))).
      + simpl app. rewrite <- Hv, <- list_fmap_compose. reflexivity.
      + rewrite <- list_fmap_compose.
        change (NoDup (declaration_name <$> ds)). rewrite Hn.
        apply spritedata_names_nodup.
      + intros x _ H. inversion H.
    - apply Forall_fmap, Forall_forall. intros d Hd. split; [| reflexivity].
      rewrite Forall_forall in Hok. apply Hok, Hd. }
  split; [exact Hparse |]. rewrite Hparse.
  apply (group_blocks F SPRITE_NAMES Hnd).
  intros name Hname. destruct (Hnames name Hname) as [H1 H2].
  split; [exact H1 | apply forallb_word_dot, H2].
Qed.

(** X18.  A generated [SpriteData.h] is read back exactly.  When
    [generate_spritedata] returns its text for images of 8-bit colours
    and a positive frame width, [parse_sprite_arrays] finds in it the
    arrays of all sprites in the order of [SPRITE_NAMES], each with the
    values [convert_sprite] produced, and nothing else: the comment block
    and the animation tables yield no array, whatever the animation
    table holds.  [group_frames] then gives, for each sprite that has an
    image, its name with its frames in order; a missing image gives no
    entry. *)
Theorem spritedata_round_trip (anim_config : gmap string (Z * bool))
    (text : string) :
  generate_spritedata png anim_config frame_width frame_height key
    = Return text ->
  parse_sprite_arrays text
  = spritedata_arrays png frame_width frame_height key /\
  group_frames (parse_sprite_arrays text)
  = spritedata_sprites png frame_width frame_height key.
Proof.
  intros E.
  destruct (generate_spritedata_text png frame_width frame_height key Hw
              anim_config text E) as [counts ->].
  apply spritedata_text_parsed.
Qed.

Hypothesis Hh : 0 < frame_height.

(** The frames of a sprite are cells of the frame size. *)
Lemma sprite_frames_valid (name : string) :
  Forall (fun p => Z.of_nat (length p) = frame_width * frame_height /\
                   Forall (fun v => 0 <= v <= 0xFFFF) p) (F name).
Proof.
  unfold F, sprite_frames.
  destruct (png (name +:+ ".png")) as [img |] eqn:Ep; [| constructor].
  destruct (convert_sprite img frame_width frame_height key None)
    as [frames |] eqn:Ec; [| constructor].
  apply (convert_sprite_returned _ _ _ _ (convert_pixel key)) in Ec;
    [| reflexivity].
  destruct Ec as (_ & _ & ->).
  pose proof (cells_16bit img frame_width frame_height key
                ((size img).2 / frame_height)
                (default ((size img).1 / frame_width) None)
                (fun x y => Himg name img x y Ep)) as H16.
  apply Forall_forall. intros p Hp. split.
  - revert p Hp. apply Forall_forall, Forall_cells. intros row col.
    rewrite length_cell. lia.
  - rewrite Forall_forall in H16. apply H16, Hp.
Qed.

Variable resize : image -> Z * Z -> result image.

(** X19.  [SpriteData.h] to PNG and back: every sprite [spritedata2png]
    finds in a generated [SpriteData.h] is exported (no upscaling) as an
    image of its frames side by side, none skipped as invalid, and
    [convert_sprite] cuts that image into exactly the frames the header
    was generated from. *)
Theorem spritedata_export_round_trip (anim_config : gmap string (Z * bool))
    (text : string) (scale : Z) :
  scale <= 1 ->
  generate_spritedata png anim_config frame_width frame_height key
    = Return text ->
  Forall (fun sprite : string * list (list Z) =>
            sprite.2
            = sprite_frames png frame_width frame_height key sprite.1 /\
            exists img,
              export_sprite resize sprite.2 frame_width frame_height scale
                = Return (Some img) /\
              convert_sprite img frame_width frame_height None None
                = Return sprite.2)
         (group_frames (parse_sprite_arrays text)).
Proof.
  intros Hs E.
  destruct (generate_spritedata_text png frame_width frame_height key Hw
              anim_config text E) as [counts ->].
  destruct (spritedata_text_parsed counts anim_config) as [_ ->].
  unfold spritedata_sprites. apply Forall_forall. intros [name frames] Hin.
  apply list_elem_of_omap in Hin as (n & _ & Hn).
  pose proof (sprite_frames_valid n) as Hvalid. unfold F in Hvalid.
  destruct (sprite_frames png frame_width frame_height key n) as [| f fs] eqn:Ef;
    [discriminate |].
  injection Hn as <- <-. cbn [fst snd]. split; [rewrite Ef; reflexivity |].
  destruct (export_sprite_all_valid resize (f :: fs) frame_width frame_height
              scale Hw Hh Hs) as (img & Ei & _ & Ec);
    [discriminate | exact Hvalid |].
  exists img. split; assumption.
Qed.

End SpritedataRoundTrip.

Section SpritedataWitness.
Import Py Re.

Lemma spritedata_export_round_trip_witness :
  let sheet := Image (2, 1)
                 (fun x _ => if x <? 1 then (255, 0, 255, 0) else (0, 0, 255, 255)) in
  let png := fun file : string =>
               if String.eqb file "ghost.png" then Some sheet else None in
  exists text img,
    generate_spritedata png DEFAULT_ANIM_CONFIG 1 1 None = Return text /\
    export_sprite (fun im _ => Return im) [[0xF81F]; [0x001F]] 1 1 1
    = Return (Some img) /\
    convert_sprite img 1 1 None None = Return [[0xF81F]; [0x001F]].
Proof.
  intros sheet png.
  destruct (generate_spritedata png DEFAULT_ANIM_CONFIG 1 1 None)
    as [text |] eqn:E; [| vm_compute in E; discriminate].
  assert (G : group_frames (parse_sprite_arrays text)
              = [("ghost"%string, [[0xF81F]; [0x001F]])]).
  { pose proof E as E'. vm_compute in E'. injection E' as <-.
    vm_compute. reflexivity. }
  assert (Himg : forall name img x y,
            png (name +:+ ".png") = Some img ->
            component (pixel img x y).1.1.1 /\
            component (pixel img x y).1.1.2 /\
            component (pixel img x y).1.2).
  { intros name img x y H. unfold png in H.
    destruct (String.eqb _ _); [| discriminate]. injection H as <-.
    simpl. unfold component. destruct (x <? 1); simpl; lia. }
  pose proof (spritedata_export_round_trip png 1 1 None ltac:(lia) Himg
                ltac:(lia) (fun im _ => Return im) DEFAULT_ANIM_CONFIG text 1
                ltac:(lia) E) as H.
  rewrite G in H. apply Forall_cons in H as [[_ (img & Ei & Ec)] _].
  exists text, img. split; [reflexivity |]. split; [exact Ei | exact Ec].
Defined.

Lemma spritedata_round_trip_witness :
  let sheet := Image (2, 1)
                 (fun x _ => if x <? 1 then (255, 0, 255, 0) else (0, 0, 255, 255)) in
  let png := fun file : string =>
               if String.eqb file "ghost.png" then Some sheet else None in
  exists text,
    generate_spritedata png DEFAULT_ANIM_CONFIG 1 1 None = Return text /\
    group_frames (parse_sprite_arrays text)
    = [("ghost"%string, [[0xF81F]; [0x001F]])].
Proof.
  intros sheet png.
  destruct (generate_spritedata png DEFAULT_ANIM_CONFIG 1 1 None)
    as [text |] eqn:E; [| vm_compute in E; discriminate].
  exists text. split; [reflexivity |].
  destruct (spritedata_round_trip png 1 1 None ltac:(lia)) with
    (anim_config := DEFAULT_ANIM_CONFIG) (text := text) as [_ G].
  - intros name img x y H. unfold png in H.
    destruct (String.eqb _ _); [| discriminate]. injection H as <-.
    simpl. unfold component. destruct (x <? 1); simpl; lia.
  - exact E.
  - rewrite G. vm_compute. reflexivity.
Defined.

End SpritedataWitness.
